(** * ReferralTracker (assets/referral-tracker.js)

    A shallow embedding of the storefront referral tracker: the values the
    script handles, the browser objects it touches (localStorage, the
    console, fetch), its methods as programs of a small state-and-exception
    monad, and the properties of the capture / persist / sync flow. *)

From Stdlib Require Import PrimFloat.
From stdpp Require Import base option list strings gmap fin_maps.

Local Open Scope string_scope.
Local Open Scope list_scope.
#[local] Set Warnings "-register-all".

(** ** JavaScript values

    The script only handles values that come out of [JSON.parse], out of
    [URLSearchParams.get], or out of a property read.  Numbers are IEEE
    doubles; objects keep their properties in insertion order. *)

Inductive jsval : Type :=
| JUndefined
| JNull
| JBool (b : bool)
| JNum (n : float)
| JStr (s : string)
| JArr (items : list jsval)
| JObj (props : list (string * jsval)).

(** ToBoolean: [undefined], [null], [false], [0], [-0], [NaN] and the empty
    string are falsy; every array and object is truthy. *)
Definition truthy (v : jsval) : bool :=
  match v with
  | JUndefined | JNull => false
  | JBool b => b
  | JNum n => negb (PrimFloat.is_zero n || PrimFloat.is_nan n)
  | JStr s => negb (String.eqb s "")
  | JArr _ | JObj _ => true
  end.

(** [a || b] and [a && b] return one of their operands. *)
Definition js_or (a b : jsval) : jsval := if truthy a then a else b.
Definition js_and (a b : jsval) : jsval := if truthy a then b else a.
Definition js_not (a : jsval) : jsval := JBool (negb (truthy a)).

Infix "|||" := js_or (at level 50, left associativity).
Infix "&&&" := js_and (at level 40, left associativity).

(** [a === b].  Two objects (or arrays) are identical only when they are the
    same reference; the operands compared by the tracker come from two
    different [JSON.parse] results, so they never are. *)
Definition strict_equals (a b : jsval) : bool :=
  match a, b with
  | JUndefined, JUndefined => true
  | JNull, JNull => true
  | JBool x, JBool y => Bool.eqb x y
  | JNum x, JNum y => PrimFloat.eqb x y
  | JStr x, JStr y => String.eqb x y
  | _, _ => false
  end.

(** Own-property lookup in an object. *)
Fixpoint lookup_prop (k : string) (props : list (string * jsval)) : option jsval :=
  match props with
  | [] => None
  | (k', v) :: rest => if String.eqb k' k then Some v else lookup_prop k rest
  end.

(** [obj[k] = v]: an existing property keeps its place, a new one is added
    at the end. *)
Fixpoint set_prop (k : string) (v : jsval) (props : list (string * jsval))
  : list (string * jsval) :=
  match props with
  | [] => [(k, v)]
  | (k', v') :: rest =>
      if String.eqb k' k then (k', v) :: rest else (k', v') :: set_prop k v rest
  end.

(** The host's string from [URLSearchParams.get]: a string or [null]. *)
Definition of_nullable (o : option string) : jsval :=
  match o with
  | Some s => JStr s
  | None => JNull
  end.

(** ** Texts kept in localStorage and sent as request bodies

    Storage holds strings.  What the tracker needs from a string is what
    [JSON.parse] makes of it, so a text is either one of the JSON grammar,
    given by the value it denotes, or any other string, on which
    [JSON.parse] raises a SyntaxError. *)

Inductive text : Type :=
| Json (v : jsval)
| Malformed (s : string).

(** A JSON text is never the empty string. *)
Definition text_truthy (t : text) : bool :=
  match t with
  | Json _ => true
  | Malformed s => negb (String.eqb s "")
  end.

(** What [JSON.stringify] keeps of a value: a property whose value is
    [undefined] is left out, an [undefined] array item becomes [null], and so
    does a number that is not finite; a zero is written [0] whatever its
    sign. *)
Fixpoint to_json (v : jsval) : jsval :=
  match v with
  | JNum n =>
      if PrimFloat.is_finite n
      then (if PrimFloat.is_zero n then JNum PrimFloat.zero else JNum n)
      else JNull
  | JArr items =>
      JArr (map (fun x => match x with JUndefined => JNull | _ => to_json x end) items)
  | JObj props =>
      JObj ((fix go (ps : list (string * jsval)) : list (string * jsval) :=
               match ps with
               | [] => []
               | (k, JUndefined) :: rest => go rest
               | (k, x) :: rest => (k, to_json x) :: go rest
               end) props)
  | _ => v
  end.

Definition JSON_stringify (v : jsval) : text := Json (to_json v).

(** ** The browser

    [storage] is [window.localStorage]: when the page may not use storage
    (an opaque origin, storage switched off) every access raises a
    SecurityError, otherwise it is a map from keys to texts.  The console and
    the network are kept as the list of what was logged and requested, oldest
    first. *)

Inductive exn : Type :=
| SecurityError
| QuotaExceededError
| SyntaxError
| TypeError
| NetworkError.

Inductive storage : Type :=
| Denied
| Store (items : gmap string text).

Inductive log_entry : Type :=
| LogCapturedReferral (referral : jsval)
| LogCapturedOrderId (orderId : jsval)
| LogAttributeReferral (code : jsval)
| LogAttributeOrderId (orderId : jsval)
| LogCleared
| ErrStore (error : exn)
| ErrRetrieve (error : exn)
| ErrUpdateCart (error : exn)
| ErrClear (error : exn).

Inductive request : Type :=
| GET (url : string)
| POST (url : string) (headers : list (string * string)) (body : text).

Inductive response_body : Type :=
| BodyJson (v : jsval)
| BodyNotJson.

Record response : Type := mkResponse {
  ok : bool;
  body : response_body
}.

Record browser : Type := mkBrowser {
  localStorage : storage;
  console : list log_entry;
  network : list request
}.

(** What a call finds around it: the page's location, the clock, whether the
    storage quota is used up, and how the remote end answers a request
    ([None]: the promise of [fetch] is rejected). *)
Record host : Type := mkHost {
  location_search : list (string * string);
  location_pathname : string;
  date_now : string;
  quota_exceeded : bool;
  remote : request -> option response
}.

(** ** Programs: state, exceptions, and the host as a reader *)

Inductive outcome (A : Type) : Type :=
| Return (a : A)
| Throw (e : exn).
Arguments Return {A} a.
Arguments Throw {A} e.

Definition js (A : Type) : Type := host -> browser -> outcome A * browser.

Definition js_ret {A} (a : A) : js A := fun _ b => (Return a, b).

Definition js_bind {A B} (m : js A) (k : A -> js B) : js B :=
  fun h b =>
    match m h b with
    | (Return a, b') => k a h b'
    | (Throw e, b') => (Throw e, b')
    end.

Definition js_throw {A} (e : exn) : js A := fun _ b => (Throw e, b).

(** [try { m } catch (error) { handler error }] *)
Definition try_catch {A} (m : js A) (handler : exn -> js A) : js A :=
  fun h b =>
    match m h b with
    | (Return a, b') => (Return a, b')
    | (Throw e, b') => handler e h b'
    end.

Definition ask {A} (f : host -> A) : js A := fun h b => (Return (f h), b).

Declare Scope js_scope.
Delimit Scope js_scope with js.
Bind Scope js_scope with js.
Notation "x <- m ;; k" := (js_bind m (fun x => k))
  (at level 100, m at next level, right associativity) : js_scope.
Notation "m ;; k" := (js_bind m (fun _ => k))
  (at level 100, right associativity) : js_scope.
Local Open Scope js_scope.

(** *** Host primitives *)

Definition console_log (e : log_entry) : js unit :=
  fun _ b => (Return tt, mkBrowser (localStorage b) (console b ++ [e]) (network b)).

(** [console.error] writes to the same console. *)
Definition console_error (e : log_entry) : js unit := console_log e.

Definition localStorage_getItem (key : string) : js (option text) :=
  fun _ b =>
    match localStorage b with
    | Denied => (Throw SecurityError, b)
    | Store items => (Return (items !! key), b)
    end.

Definition localStorage_setItem (key : string) (value : text) : js unit :=
  fun h b =>
    match localStorage b with
    | Denied => (Throw SecurityError, b)
    | Store items =>
        if quota_exceeded h then (Throw QuotaExceededError, b)
        else (Return tt, mkBrowser (Store (<[key := value]> items)) (console b) (network b))
    end.

Definition localStorage_removeItem (key : string) : js unit :=
  fun _ b =>
    match localStorage b with
    | Denied => (Throw SecurityError, b)
    | Store items =>
        (Return tt, mkBrowser (Store (delete key items)) (console b) (network b))
    end.

Definition JSON_parse (t : text) : js jsval :=
  match t with
  | Json v => js_ret v
  | Malformed _ => js_throw SyntaxError
  end.

(** [new URLSearchParams(search).get(name)]: the first value given for the
    name, or [null]. *)
Fixpoint URLSearchParams_get (params : list (string * string)) (name : string)
  : option string :=
  match params with
  | [] => None
  | (n, v) :: rest => if String.eqb n name then Some v else URLSearchParams_get rest name
  end.

(** [await fetch(...)]: the request goes out; the promise is fulfilled with
    the response or rejected. *)
Definition fetch (req : request) : js response :=
  fun h b =>
    let b' := mkBrowser (localStorage b) (console b) (network b ++ [req]) in
    match remote h req with
    | Some r => (Return r, b')
    | None => (Throw NetworkError, b')
    end.

(** [fetch(...)] in its two parts, for a call that is not followed to its
    end: the call puts the request on the network and hands back a promise
    at once; the promise settles later, fulfilled with the response or
    rejected, in the host of that moment. *)
Definition fetch_request (req : request) : js unit :=
  fun _ b => (Return tt, mkBrowser (localStorage b) (console b) (network b ++ [req])).

Definition fetch_settled (req : request) : js response :=
  fun h b =>
    match remote h req with
    | Some r => (Return r, b)
    | None => (Throw NetworkError, b)
    end.

(** [await response.json()] *)
Definition response_json (r : response) : js jsval :=
  match body r with
  | BodyJson v => js_ret v
  | BodyNotJson => js_throw SyntaxError
  end.

(** [v.name], for the property names the tracker reads ([code], [orderId],
    [landingPage], [capturedAt], [attributes] and the two attribute keys):
    none of them is a property of a string, number, boolean or array, nor
    inherited by an object. *)
Definition get_prop (v : jsval) (name : string) : js jsval :=
  match v with
  | JUndefined | JNull => js_throw TypeError
  | JObj props => js_ret (default JUndefined (lookup_prop name props))
  | _ => js_ret JUndefined
  end.

(** [v?.name] *)
Definition get_prop_opt (v : jsval) (name : string) : js jsval :=
  match v with
  | JUndefined | JNull => js_ret JUndefined
  | _ => get_prop v name
  end.

(** Short-circuit forms of [a || b] and [a && b] whose right operand is a
    program (it reads a property, so it may raise). *)
Definition or_else (a : jsval) (b : js jsval) : js jsval :=
  if truthy a then js_ret a else b.
Definition and_then (a : jsval) (b : js jsval) : js jsval :=
  if truthy a then b else js_ret a.

(** [if (c) { m }] *)
Definition when (c : jsval) (m : js unit) : js unit :=
  if truthy c then m else js_ret tt.

(** ** The document

    What the script's start-up touches beyond a method call: the listeners
    registered on [document], a console that also shows the two messages
    of [init] and of the cart listener, and the calls of the [async] method
    that are waiting at an [await].  A listener is named by the arrow
    function the script passes to [addEventListener]. *)

Inductive doc_entry : Type :=
| Tracker (e : log_entry)
| LogInitializing
| LogCartUpdated.

Inductive callback : Type :=
| SyncOnCartUpdate
| LegacySyncOnCartUpdate.

(** A call of the [async] method [syncReferralToCart] that is not awaited
    runs up to its first [await] and hands a promise back to its caller; each
    time the promise it awaits settles, the call goes on to its next [await]
    or to its end.  Both versions of the method await at the same three
    places, and what the call holds there is [referralData], the response
    whose body is being read, and the update that was sent. *)
Inductive awaiting : Type :=
| CartResponse (referralData : jsval)
| CartBody (referralData : jsval) (cartResponse : response)
| UpdateResponse (referralData : jsval) (update : request).

Inductive version : Type :=
| Current
| Earlier.

Record document : Type := mkDocument {
  doc_storage : storage;
  doc_console : list doc_entry;
  doc_network : list request;
  listeners : list (string * callback);
  pending : list (version * awaiting)
}.

Definition doc_js (A : Type) : Type := host -> document -> outcome A * document.

Definition doc_ret {A} (a : A) : doc_js A := fun _ p => (Return a, p).

Definition doc_bind {A B} (m : doc_js A) (k : A -> doc_js B) : doc_js B :=
  fun h p =>
    match m h p with
    | (Return a, p') => k a h p'
    | (Throw e, p') => (Throw e, p')
    end.

Declare Scope doc_scope.
Delimit Scope doc_scope with doc.
Notation "m ;; k" := (doc_bind m (fun _ => k))
  (at level 100, right associativity) : doc_scope.

(** A method called from the page: it sees the page's storage and network,
    and what it logs is added to the page's console. *)
Definition call {A} (m : js A) : doc_js A :=
  fun h p =>
    let r := m h (mkBrowser (doc_storage p) [] (doc_network p)) in
    (r.1, mkDocument (localStorage r.2) (doc_console p ++ (Tracker <$> console r.2))
            (network r.2) (listeners p) (pending p)).

(** An [async] method called without [await], given by what it does up to
    its first [await]: if it is waiting there, the call joins the pending
    ones.  The caller has its promise at once and goes on. *)
Definition spawn (v : version) (start : js (option awaiting)) : doc_js unit :=
  fun h p =>
    let r := call start h p in
    (Return tt,
     match r.1 with
     | Return (Some w) =>
         mkDocument (doc_storage r.2) (doc_console r.2) (doc_network r.2)
           (listeners r.2) (pending r.2 ++ [(v, w)])
     | _ => r.2
     end).

Definition doc_log (e : doc_entry) : doc_js unit :=
  fun _ p =>
    (Return tt, mkDocument (doc_storage p) (doc_console p ++ [e]) (doc_network p)
                  (listeners p) (pending p)).

(** [document.addEventListener(type, listener)], for a listener that is a
    new function each time. *)
Definition document_addEventListener (type : string) (listener : callback)
  : doc_js unit :=
  fun _ p =>
    (Return tt, mkDocument (doc_storage p) (doc_console p) (doc_network p)
                  (listeners p ++ [(type, listener)]) (pending p)).

(** ** The tracker *)

Definition REFERRAL_PARAM : string := "ref".
Definition ORDER_ID_PARAM : string := "order_id".
Definition STORAGE_KEY : string := "shared_sweeps_referral_tracker".
Definition CART_ATTRIBUTE_KEY : string := "Shared_Sweeps_Referred_By".
Definition ORDER_ID_ATTRIBUTE_KEY : string := "Shared_Sweeps_Order_ID".
(** The two metadata keys and the request headers are literals in the
    script. *)
Definition LANDING_PAGE_ATTRIBUTE_KEY : string := "Shared_Sweeps_Referral_Landing_Page".
Definition CAPTURED_AT_ATTRIBUTE_KEY : string := "Shared_Sweeps_Referral_Captured_At".

Definition json_headers : list (string * string) :=
  [("Content-Type", "application/json")].

(** [getStoredReferral()] *)
Definition getStoredReferral : js jsval :=
  try_catch
    (stored <- localStorage_getItem STORAGE_KEY ;;
     match stored with
     | Some t => if text_truthy t then JSON_parse t else js_ret JNull
     | None => js_ret JNull
     end)
    (fun error => console_error (ErrRetrieve error) ;; js_ret JNull).

(** [storeReferral(referral, orderId)] *)
Definition storeReferral (referral orderId : jsval) : js unit :=
  try_catch
    (stored <- getStoredReferral ;;
     let existingData := stored ||| JObj [] in
     code <- or_else referral (get_prop existingData "code") ;;
     oid <- or_else orderId (get_prop existingData "orderId") ;;
     now <- ask date_now ;;
     pathname <- ask location_pathname ;;
     let data := JObj [("code", code ||| JNull);
                       ("orderId", oid ||| JNull);
                       ("capturedAt", JStr now);
                       ("landingPage", JStr pathname)] in
     localStorage_setItem STORAGE_KEY (JSON_stringify data))
    (fun error => console_error (ErrStore error)).

(** [captureReferralFromURL()] *)
Definition captureReferralFromURL : js unit :=
  search <- ask location_search ;;
  let referral := of_nullable (URLSearchParams_get search REFERRAL_PARAM) in
  let orderId := of_nullable (URLSearchParams_get search ORDER_ID_PARAM) in
  when (referral ||| orderId)
    (storeReferral referral orderId ;;
     when referral (console_log (LogCapturedReferral referral)) ;;
     when orderId (console_log (LogCapturedOrderId orderId))).

(** [syncReferralToCart()].  The method is [async]: [Return] stands for its
    promise being fulfilled, [Throw] for its being rejected.  The two awaited
    requests are taken in one go: what other handlers do between them is not
    part of this program. *)
Definition syncReferralToCart : js unit :=
  referralData <- getStoredReferral ;;
  nothing <- or_else (js_not referralData)
               (code <- get_prop referralData "code" ;;
                and_then (js_not code)
                  (orderId <- get_prop referralData "orderId" ;;
                   js_ret (js_not orderId))) ;;
  if truthy nothing then js_ret tt else
  try_catch
    (cartResponse <- fetch (GET "/cart.js") ;;
     cart <- response_json cartResponse ;;
     code <- get_prop referralData "code" ;;
     referralMatches <-
       or_else (js_not code)
         (attrs <- get_prop cart "attributes" ;;
          and_then attrs
            (live <- get_prop attrs CART_ATTRIBUTE_KEY ;;
             js_ret (JBool (strict_equals live code)))) ;;
     orderId <- get_prop referralData "orderId" ;;
     orderIdMatches <-
       or_else (js_not orderId)
         (attrs <- get_prop cart "attributes" ;;
          and_then attrs
            (live <- get_prop attrs ORDER_ID_ATTRIBUTE_KEY ;;
             js_ret (JBool (strict_equals live orderId)))) ;;
     if truthy (referralMatches &&& orderIdMatches) then js_ret tt else
     landingPage <- get_prop referralData "landingPage" ;;
     capturedAt <- get_prop referralData "capturedAt" ;;
     let attributes := [(LANDING_PAGE_ATTRIBUTE_KEY, landingPage);
                        (CAPTURED_AT_ATTRIBUTE_KEY, capturedAt)] in
     let attributes :=
       if truthy code then set_prop CART_ATTRIBUTE_KEY code attributes
       else attributes in
     let attributes :=
       if truthy orderId then set_prop ORDER_ID_ATTRIBUTE_KEY orderId attributes
       else attributes in
     response <- fetch (POST "/cart/update.js" json_headers
                          (JSON_stringify (JObj [("attributes", JObj attributes)]))) ;;
     if ok response then
       when code (console_log (LogAttributeReferral code)) ;;
       when orderId (console_log (LogAttributeOrderId orderId))
     else js_ret tt)
    (fun error => console_error (ErrUpdateCart error)).

(** [syncReferralToCart()], await by await.  First what a call does before
    its first [await]: the guard, and the request for the cart. *)
Definition syncReferralToCart_start : js (option awaiting) :=
  referralData <- getStoredReferral ;;
  nothing <- or_else (js_not referralData)
               (code <- get_prop referralData "code" ;;
                and_then (js_not code)
                  (orderId <- get_prop referralData "orderId" ;;
                   js_ret (js_not orderId))) ;;
  if truthy nothing then js_ret None else
  fetch_request (GET "/cart.js") ;;
  js_ret (Some (CartResponse referralData)).

(** Then what it does when the promise it awaits has settled, up to the next
    [await] or to its end.  Every [await] is inside the [try]. *)
Definition syncReferralToCart_resume (w : awaiting) : js (option awaiting) :=
  try_catch
    match w with
    | CartResponse referralData =>
        cartResponse <- fetch_settled (GET "/cart.js") ;;
        js_ret (Some (CartBody referralData cartResponse))
    | CartBody referralData cartResponse =>
        cart <- response_json cartResponse ;;
        code <- get_prop referralData "code" ;;
        referralMatches <-
          or_else (js_not code)
            (attrs <- get_prop cart "attributes" ;;
             and_then attrs
               (live <- get_prop attrs CART_ATTRIBUTE_KEY ;;
                js_ret (JBool (strict_equals live code)))) ;;
        orderId <- get_prop referralData "orderId" ;;
        orderIdMatches <-
          or_else (js_not orderId)
            (attrs <- get_prop cart "attributes" ;;
             and_then attrs
               (live <- get_prop attrs ORDER_ID_ATTRIBUTE_KEY ;;
                js_ret (JBool (strict_equals live orderId)))) ;;
        if truthy (referralMatches &&& orderIdMatches) then js_ret None else
        landingPage <- get_prop referralData "landingPage" ;;
        capturedAt <- get_prop referralData "capturedAt" ;;
        let attributes := [(LANDING_PAGE_ATTRIBUTE_KEY, landingPage);
                           (CAPTURED_AT_ATTRIBUTE_KEY, capturedAt)] in
        let attributes :=
          if truthy code then set_prop CART_ATTRIBUTE_KEY code attributes
          else attributes in
        let attributes :=
          if truthy orderId then set_prop ORDER_ID_ATTRIBUTE_KEY orderId attributes
          else attributes in
        let update := POST "/cart/update.js" json_headers
                        (JSON_stringify (JObj [("attributes", JObj attributes)])) in
        fetch_request update ;;
        js_ret (Some (UpdateResponse referralData update))
    | UpdateResponse referralData update =>
        response <- fetch_settled update ;;
        (if ok response then
           code <- get_prop referralData "code" ;;
           when code (console_log (LogAttributeReferral code)) ;;
           orderId <- get_prop referralData "orderId" ;;
           when orderId (console_log (LogAttributeOrderId orderId))
         else js_ret tt) ;;
        js_ret None
    end
    (fun error => console_error (ErrUpdateCart error) ;; js_ret None).

(** [clearReferral()] *)
Definition clearReferral : js unit :=
  try_catch
    (localStorage_removeItem STORAGE_KEY ;;
     console_log LogCleared)
    (fun error => console_error (ErrClear error)).

(** [getReferralCode()] *)
Definition getReferralCode : js jsval :=
  data <- getStoredReferral ;;
  code <- get_prop_opt data "code" ;;
  js_ret (code ||| JNull).

(** [setupCartListener()] *)
Definition setupCartListener : doc_js unit :=
  document_addEventListener "cart:update" SyncOnCartUpdate.

(** [init()] *)
Definition init : doc_js unit :=
  (doc_log LogInitializing ;;
   call captureReferralFromURL ;;
   setupCartListener ;;
   spawn Current syncReferralToCart_start)%doc.

(** *** The earlier version of the script, which tracked the referral only *)
Module Legacy.

Definition CART_ATTRIBUTE_KEY : string := "Shared_Sweeps_Referred_By".

Definition syncReferralToCart : js unit :=
  referralData <- getStoredReferral ;;
  nothing <- or_else (js_not referralData)
               (code <- get_prop referralData "code" ;;
                js_ret (js_not code)) ;;
  if truthy nothing then js_ret tt else
  try_catch
    (cartResponse <- fetch (GET "/cart.js") ;;
     cart <- response_json cartResponse ;;
     code <- get_prop referralData "code" ;;
     already <- (attrs <- get_prop cart "attributes" ;;
                 and_then attrs
                   (live <- get_prop attrs CART_ATTRIBUTE_KEY ;;
                    js_ret (JBool (strict_equals live code)))) ;;
     if truthy already then js_ret tt else
     landingPage <- get_prop referralData "landingPage" ;;
     capturedAt <- get_prop referralData "capturedAt" ;;
     let attributes := [(CART_ATTRIBUTE_KEY, code);
                        (LANDING_PAGE_ATTRIBUTE_KEY, landingPage);
                        (CAPTURED_AT_ATTRIBUTE_KEY, capturedAt)] in
     response <- fetch (POST "/cart/update.js" json_headers
                          (JSON_stringify (JObj [("attributes", JObj attributes)]))) ;;
     if ok response then console_log (LogAttributeReferral code) else js_ret tt)
    (fun error => console_error (ErrUpdateCart error)).

(** The same method await by await: up to the first [await], then from one
    [await] to the next. *)
Definition syncReferralToCart_start : js (option awaiting) :=
  referralData <- getStoredReferral ;;
  nothing <- or_else (js_not referralData)
               (code <- get_prop referralData "code" ;;
                js_ret (js_not code)) ;;
  if truthy nothing then js_ret None else
  fetch_request (GET "/cart.js") ;;
  js_ret (Some (CartResponse referralData)).

Definition syncReferralToCart_resume (w : awaiting) : js (option awaiting) :=
  try_catch
    match w with
    | CartResponse referralData =>
        cartResponse <- fetch_settled (GET "/cart.js") ;;
        js_ret (Some (CartBody referralData cartResponse))
    | CartBody referralData cartResponse =>
        cart <- response_json cartResponse ;;
        code <- get_prop referralData "code" ;;
        already <- (attrs <- get_prop cart "attributes" ;;
                    and_then attrs
                      (live <- get_prop attrs CART_ATTRIBUTE_KEY ;;
                       js_ret (JBool (strict_equals live code)))) ;;
        if truthy already then js_ret None else
        landingPage <- get_prop referralData "landingPage" ;;
        capturedAt <- get_prop referralData "capturedAt" ;;
        let attributes := [(CART_ATTRIBUTE_KEY, code);
                           (LANDING_PAGE_ATTRIBUTE_KEY, landingPage);
                           (CAPTURED_AT_ATTRIBUTE_KEY, capturedAt)] in
        let update := POST "/cart/update.js" json_headers
                        (JSON_stringify (JObj [("attributes", JObj attributes)])) in
        fetch_request update ;;
        js_ret (Some (UpdateResponse referralData update))
    | UpdateResponse referralData update =>
        response <- fetch_settled update ;;
        (if ok response then
           code <- get_prop referralData "code" ;;
           console_log (LogAttributeReferral code)
         else js_ret tt) ;;
        js_ret None
    end
    (fun error => console_error (ErrUpdateCart error) ;; js_ret None).

Definition REFERRAL_PARAM : string := "ref".
Definition STORAGE_KEY : string := "shared_sweeps_referral_tracker".

(** [storeReferral(referral)]: no look at what is stored. *)
Definition storeReferral (referral : jsval) : js unit :=
  try_catch
    (now <- ask date_now ;;
     pathname <- ask location_pathname ;;
     let data := JObj [("code", referral);
                       ("capturedAt", JStr now);
                       ("landingPage", JStr pathname)] in
     localStorage_setItem STORAGE_KEY (JSON_stringify data))
    (fun error => console_error (ErrStore error)).

(** [captureReferralFromURL()] *)
Definition captureReferralFromURL : js unit :=
  search <- ask location_search ;;
  let referral := of_nullable (URLSearchParams_get search REFERRAL_PARAM) in
  when referral
    (storeReferral referral ;;
     console_log (LogCapturedReferral referral)).

(** [setupCartListener()] *)
Definition setupCartListener : doc_js unit :=
  document_addEventListener "cart:update" LegacySyncOnCartUpdate.

(** [init()] *)
Definition init : doc_js unit :=
  (call captureReferralFromURL ;;
   setupCartListener ;;
   spawn Earlier syncReferralToCart_start)%doc.

End Legacy.

(** *** Events and promises

    The body of each listener, and [document.dispatchEvent]: the listeners
    registered for the type run in the order they were added; one that
    raised would not keep the next from running.  Then the settling of a
    promise that a pending call awaits: which one settles next is for the
    network and the browser to say, so it is given by its place among the
    pending calls. *)

Definition listener_body (c : callback) : doc_js unit :=
  match c with
  | SyncOnCartUpdate =>
      (doc_log LogCartUpdated ;; spawn Current syncReferralToCart_start)%doc
  | LegacySyncOnCartUpdate => spawn Earlier Legacy.syncReferralToCart_start
  end.

Fixpoint run_listeners (ls : list (string * callback)) (type : string)
  (h : host) (p : document) : document :=
  match ls with
  | [] => p
  | (t, c) :: rest =>
      if String.eqb t type
      then run_listeners rest type h (listener_body c h p).2
      else run_listeners rest type h p
  end.

Definition document_dispatchEvent (type : string) (h : host) (p : document) : document :=
  run_listeners (listeners p) type h p.

(** How a pending call goes on, by the version of the method it is a call
    of. *)
Definition resume_call (c : version * awaiting) : js (option awaiting) :=
  match c.1 with
  | Current => syncReferralToCart_resume c.2
  | Earlier => Legacy.syncReferralToCart_resume c.2
  end.

(** The promise awaited by the [i]-th pending call settles, in host [h]:
    the call goes on to its next [await], where it keeps its place, or to
    its end, where it leaves the pending calls. *)
Definition settle_pending (i : nat) (h : host) (p : document) : document :=
  match pending p !! i with
  | None => p
  | Some c =>
      let r := call (resume_call c) h p in
      mkDocument (doc_storage r.2) (doc_console r.2) (doc_network r.2) (listeners r.2)
        match r.1 with
        | Return (Some w) => <[i := (c.1, w)]> (pending r.2)
        | _ => delete i (pending r.2)
        end
  end.

(** A call followed from where it is waiting, in one host, for [n]
    settlings. *)
Fixpoint settle (resume : awaiting -> js (option awaiting)) (n : nat)
  (w : option awaiting) : js (option awaiting) :=
  match n, w with
  | S n', Some a => w' <- resume a ;; settle resume n' w'
  | _, _ => js_ret w
  end.

(** ** Observations *)

(** The text held under the tracker's key, if storage holds one. *)
Definition persisted (b : browser) : option text :=
  match localStorage b with
  | Denied => None
  | Store items => items !! STORAGE_KEY
  end.

(** The update requests among those sent so far. *)
Definition is_update (r : request) : bool :=
  match r with
  | POST url _ _ => String.eqb url "/cart/update.js"
  | GET _ => false
  end.

Definition updates (b : browser) : list request :=
  filter (fun r => is_update r = true) (network b).

(** A browser and a host to run examples in. *)
Definition fresh_browser : browser := mkBrowser (Store ∅) [] [].

Definition browser_with (t : text) : browser :=
  mkBrowser (Store {[STORAGE_KEY := t]}) [] [].

Definition offline : request -> option response := fun _ => None.

Definition page (search : list (string * string)) : host :=
  mkHost search "/collections/all" "2024-05-01T10:00:00.000Z" false offline.

(** The same page when the storage quota is used up. *)
Definition out_of_quota (h : host) : host :=
  mkHost (location_search h) (location_pathname h) (date_now h) true (remote h).

(** A remote end that answers every request with the given cart. *)
Definition shop (cart : jsval) : request -> option response :=
  fun _ => Some (mkResponse true (BodyJson cart)).

Definition storefront (cart : jsval) : host :=
  mkHost [] "/cart" "2024-05-01T10:05:00.000Z" false (shop cart).

(** [v.name] as a value, where the read raises nothing. *)
Definition field (v : jsval) (name : string) : jsval :=
  match v with
  | JObj props => default JUndefined (lookup_prop name props)
  | _ => JUndefined
  end.

(** The value [getStoredReferral] hands back for a browser. *)
Definition stored_value (b : browser) : jsval :=
  match persisted b with
  | Some (Json v) => v
  | _ => JNull
  end.

(** The record [storeReferral] writes. *)
Definition record (code orderId : jsval) (capturedAt landingPage : string) : jsval :=
  JObj [("code", code); ("orderId", orderId);
        ("capturedAt", JStr capturedAt); ("landingPage", JStr landingPage)].

(** *** Programs that leave storage alone, programs that always return *)

Definition keeps_storage {A} (m : js A) : Prop :=
  forall h b, localStorage (m h b).2 = localStorage b.

Definition returns {A} (m : js A) : Prop :=
  forall h b, exists a, (m h b).1 = Return a.

(** The update request whose body is the JSON text of [{ attributes }]. *)
Definition update_request (attributes : list (string * jsval)) : request :=
  POST "/cart/update.js" json_headers (Json (JObj [("attributes", JObj attributes)])).

(** What the remote end sees of a request: for an update, the [attributes]
    of its body as a finite map from keys to values, whatever order the
    keys were written in. *)
Definition sent_attributes (body : text) : option (gmap string jsval) :=
  match body with
  | Json v =>
      match field v "attributes" with
      | JObj attrs => Some (list_to_map attrs)
      | _ => None
      end
  | Malformed _ => None
  end.

Inductive wire : Type :=
| WireGet (url : string)
| WirePost (url : string) (headers : list (string * string))
    (attributes : option (gmap string jsval)).

Definition on_wire (r : request) : wire :=
  match r with
  | GET url => WireGet url
  | POST url headers body => WirePost url headers (sent_attributes body)
  end.

(** The two parameters [captureReferralFromURL] reads from the page. *)
Definition referral_param (h : host) : jsval :=
  of_nullable (URLSearchParams_get (location_search h) REFERRAL_PARAM).
Definition order_id_param (h : host) : jsval :=
  of_nullable (URLSearchParams_get (location_search h) ORDER_ID_PARAM).

(** [captureReferralFromURL] once the two parameters are read. *)
Definition capture_with (referral orderId : jsval) : js unit :=
  when (referral ||| orderId)
    (storeReferral referral orderId ;;
     when referral (console_log (LogCapturedReferral referral)) ;;
     when orderId (console_log (LogCapturedOrderId orderId))).

(** The object literal [storeReferral] builds from its arguments and the
    data it found. *)
Definition merged (referral orderId existing : jsval) (h : host) : jsval :=
  JObj [("code", referral ||| field existing "code" ||| JNull);
        ("orderId", orderId ||| field existing "orderId" ||| JNull);
        ("capturedAt", JStr (date_now h));
        ("landingPage", JStr (location_pathname h))].

(** A parameter given with the empty string, read as a parameter not given. *)
Definition non_empty (o : option string) : option string :=
  match o with
  | Some "" => None
  | _ => o
  end.

(** What a field of a stored object holds, as a string or nothing: the
    string itself, or, for nothing, [null] or no such property. *)
Definition holds (v : jsval) (o : option string) : Prop :=
  match o with
  | Some s => v = JStr s
  | None => v = JNull \/ v = JUndefined
  end.

(** *** Sequences of calls *)

Inductive operation : Type :=
| Capture
| Reconcile
| Clear
| ReadRecord
| CurrentCode.

Definition perform (op : operation) : js unit :=
  match op with
  | Capture => captureReferralFromURL
  | Reconcile => syncReferralToCart
  | Clear => clearReferral
  | ReadRecord => getStoredReferral ;; js_ret tt
  | CurrentCode => getReferralCode ;; js_ret tt
  end.

(** Each call runs in the host it finds: another page, another time, another
    answer from the remote end. *)
Fixpoint run (calls : list (operation * host)) (b : browser) : browser :=
  match calls with
  | [] => b
  | (op, h) :: rest => run rest (perform op h b).2
  end.

(** A field that is there and is not [null]. *)
Definition non_null (v : jsval) : Prop := v <> JNull /\ v <> JUndefined.

(** A field as the tracker writes it: [null] or a non-empty string. *)
Definition settable (v : jsval) : Prop :=
  v = JNull \/ exists s, v = JStr s /\ s <> "".

(** What is under the key, if anything, is a record written by
    [storeReferral], and one of its two tracked fields is set. *)
Definition well_formed (b : browser) : Prop :=
  forall t, persisted b = Some t ->
    exists code orderId capturedAt landingPage,
      t = Json (record code orderId capturedAt landingPage) /\
      settable code /\ settable orderId /\
      (truthy code = true \/ truthy orderId = true).

(** *** What [syncReferralToCart] computes on the way *)

(** The outcome of fetching the cart and reading its body as JSON. *)
Definition fetched_cart (h : host) : outcome jsval :=
  match remote h (GET "/cart.js") with
  | None => Throw NetworkError
  | Some r =>
      match body r with
      | BodyNotJson => Throw SyntaxError
      | BodyJson cart => Return cart
      end
  end.

(** [!v || (cart.attributes && cart.attributes[key] === v)] as a condition,
    for a cart that is not [null]. *)
Definition field_matches (cart v : jsval) (key : string) : bool :=
  negb (truthy v)
  || (truthy (field cart "attributes")
      && strict_equals (field (field cart "attributes") key) v).

(** The [attributes] object built for a record. *)
Definition update_attributes (referralData : jsval) : list (string * jsval) :=
  let code := field referralData "code" in
  let orderId := field referralData "orderId" in
  let attributes := [(LANDING_PAGE_ATTRIBUTE_KEY, field referralData "landingPage");
                     (CAPTURED_AT_ATTRIBUTE_KEY, field referralData "capturedAt")] in
  let attributes :=
    if truthy code then set_prop CART_ATTRIBUTE_KEY code attributes else attributes in
  if truthy orderId then set_prop ORDER_ID_ATTRIBUTE_KEY orderId attributes
  else attributes.

(** The request that carries them. *)
Definition update_for (referralData : jsval) : request :=
  POST "/cart/update.js" json_headers
    (JSON_stringify (JObj [("attributes", JObj (update_attributes referralData))])).

(** The lines logged once the update is answered. *)
Definition update_log (h : host) (referralData : jsval) : list log_entry :=
  match remote h (update_for referralData) with
  | None => [ErrUpdateCart NetworkError]
  | Some r =>
      if ok r then
        (if truthy (field referralData "code")
         then [LogAttributeReferral (field referralData "code")] else [])
        ++ (if truthy (field referralData "orderId")
            then [LogAttributeOrderId (field referralData "orderId")] else [])
      else []
  end.

(** A property as [JSON.stringify] writes it, if it does. *)
Definition json_prop (v : jsval) : option jsval :=
  match v with
  | JUndefined => None
  | _ => Some (to_json v)
  end.

(** The properties of an object as [JSON.stringify] writes them. *)
Fixpoint json_props (props : list (string * jsval)) : list (string * jsval) :=
  match props with
  | [] => []
  | (k, v) :: rest =>
      match json_prop v with
      | Some v' => (k, v') :: json_props rest
      | None => json_props rest
      end
  end.

(** What storage holds under the keys that are not the tracker's. *)
Definition other_keys (s : storage) : option (gmap string text) :=
  match s with
  | Denied => None
  | Store items => Some (delete STORAGE_KEY items)
  end.

(** The update of the earlier version for a record, and the lines logged
    once it is answered. *)
Definition legacy_update_for (referralData : jsval) : request :=
  POST "/cart/update.js" json_headers
    (JSON_stringify
       (JObj [("attributes",
               JObj [(Legacy.CART_ATTRIBUTE_KEY, field referralData "code");
                     (LANDING_PAGE_ATTRIBUTE_KEY, field referralData "landingPage");
                     (CAPTURED_AT_ATTRIBUTE_KEY, field referralData "capturedAt")])])).

Definition legacy_update_log (h : host) (referralData : jsval) : list log_entry :=
  match remote h (legacy_update_for referralData) with
  | None => [ErrUpdateCart NetworkError]
  | Some r => if ok r then [LogAttributeReferral (field referralData "code")] else []
  end.

(** A program that neither reads nor clears the console: after any earlier
    output it does what it does on an empty console, and adds its lines. *)
Definition console_blind {A} (m : js A) : Prop :=
  forall h s c n,
    m h (mkBrowser s c n)
    = ((m h (mkBrowser s [] n)).1,
       mkBrowser (localStorage (m h (mkBrowser s [] n)).2)
         (c ++ console (m h (mkBrowser s [] n)).2)
         (network (m h (mkBrowser s [] n)).2)).

(** The browser a method called from the document runs in. *)
Definition window_of (p : document) : browser :=
  mkBrowser (doc_storage p) [] (doc_network p).

(** ** Properties *)

(** *** Some runs *)

Example negative_zero_is_written_as_zero :
  JSON_stringify (JObj [("capturedAt", JNum (-0)%float); ("landingPage", JUndefined)])
  = Json (JObj [("capturedAt", JNum 0%float)]).
Proof. reflexivity. Qed.

Example truthy_values :
  (truthy (JNum 0), truthy (JNum (-0)), truthy (JNum nan), truthy (JNum 0.5),
   truthy (JStr ""), truthy (JStr "0"), truthy (JObj []))
  = (false, false, false, true, false, true, true).
Proof. vm_compute. reflexivity. Qed.

Example first_value_is_read :
  URLSearchParams_get [("ref", ""); ("ref", "store1")] REFERRAL_PARAM = Some "".
Proof. reflexivity. Qed.

Example first_visit :
  persisted (captureReferralFromURL (page [("ref", "store1")]) fresh_browser).2
  = Some (Json (record (JStr "store1") JNull
                  "2024-05-01T10:00:00.000Z" "/collections/all")).
Proof. vm_compute. reflexivity. Qed.

(** A record written by the earlier version has no [orderId]; the merge
    fills it in. *)
Example visit_after_legacy_record :
  persisted
    (captureReferralFromURL (page [("order_id", "12")])
       (browser_with (Json (JObj [("code", JStr "store1");
                                  ("capturedAt", JStr "2024-04-30T09:00:00.000Z");
                                  ("landingPage", JStr "/")])))).2
  = Some (Json (record (JStr "store1") (JStr "12")
                  "2024-05-01T10:00:00.000Z" "/collections/all")).
Proof. vm_compute. reflexivity. Qed.

(** Without access to storage both the read and the write are caught; the
    capture is still reported. *)
Example capture_without_storage :
  captureReferralFromURL (page [("ref", "store1")]) (mkBrowser Denied [] [])
  = (Return tt,
     mkBrowser Denied
       [ErrRetrieve SecurityError; ErrStore SecurityError;
        LogCapturedReferral (JStr "store1")] []).
Proof. vm_compute. reflexivity. Qed.

(** A cart that is [null]: reading [cart.attributes] raises, the error is
    logged and no update is sent. *)
Example sync_with_null_cart :
  let b := browser_with (Json (record (JStr "store1") JNull
                                 "2024-05-01T10:00:00.000Z" "/")) in
  (syncReferralToCart (storefront JNull) b).1 = Return tt /\
  console (syncReferralToCart (storefront JNull) b).2 = [ErrUpdateCart TypeError] /\
  network (syncReferralToCart (storefront JNull) b).2 = [GET "/cart.js"].
Proof. vm_compute. done. Qed.

(** The earlier version writes the referral key first, the current one
    last. *)
Example update_bodies :
  let b := browser_with (Json (record (JStr "store1") JNull
                                 "2024-05-01T10:00:00.000Z" "/")) in
  let h := storefront (JObj []) in
  network (Legacy.syncReferralToCart h b).2
  = [GET "/cart.js";
     update_request [(CART_ATTRIBUTE_KEY, JStr "store1");
                     (LANDING_PAGE_ATTRIBUTE_KEY, JStr "/");
                     (CAPTURED_AT_ATTRIBUTE_KEY, JStr "2024-05-01T10:00:00.000Z")]] /\
  network (syncReferralToCart h b).2
  = [GET "/cart.js";
     update_request [(LANDING_PAGE_ATTRIBUTE_KEY, JStr "/");
                     (CAPTURED_AT_ATTRIBUTE_KEY, JStr "2024-05-01T10:00:00.000Z");
                     (CART_ATTRIBUTE_KEY, JStr "store1")]].
Proof. vm_compute. done. Qed.

(** *** Reading the stored record *)

(** C6. Whatever string that is not JSON is stored under the tracker's key,
    and also when nothing is stored there, [getStoredReferral] returns
    [null]: it completes normally, raising nothing, and leaves storage as it
    was. *)
Theorem getStoredReferral_malformed_is_null (h : host) (b : browser) :
  persisted b = None \/ (exists s, persisted b = Some (Malformed s)) ->
  (getStoredReferral h b).1 = Return JNull /\
  localStorage (getStoredReferral h b).2 = localStorage b.
Proof.
  unfold persisted, getStoredReferral, try_catch, js_bind, localStorage_getItem.
  destruct (localStorage b) as [|items] eqn:Hls.
  - intros _. simpl. rewrite Hls. done.
  - intros [-> | [s ->]]; simpl; [done|].
    destruct (negb (String.eqb s "")); simpl; rewrite ?Hls; done.
Qed.

Lemma getStoredReferral_malformed_is_null_witness :
  (persisted (browser_with (Malformed "{code:")) = None \/
   exists s, persisted (browser_with (Malformed "{code:")) = Some (Malformed s)) /\
  (getStoredReferral (page []) (browser_with (Malformed "{code:"))).1 = Return JNull /\
  localStorage (getStoredReferral (page []) (browser_with (Malformed "{code:"))).2
  = localStorage (browser_with (Malformed "{code:")).
Proof.
  assert (H : persisted (browser_with (Malformed "{code:")) = None \/
              exists s, persisted (browser_with (Malformed "{code:")) = Some (Malformed s)).
  { right. exists "{code:". vm_compute. reflexivity. }
  split; [exact H|].
  exact (getStoredReferral_malformed_is_null (page []) (browser_with (Malformed "{code:")) H).
Defined.

(** *** Frame rules for storage *)

Section Frame.
Context {A B : Type}.

Lemma keeps_ret (a : A) : keeps_storage (js_ret a).
Proof. by intros h b. Qed.

Lemma keeps_throw (e : exn) : keeps_storage (@js_throw A e).
Proof. by intros h b. Qed.

Lemma keeps_ask (f : host -> A) : keeps_storage (ask f).
Proof. by intros h b. Qed.

Lemma keeps_bind (m : js A) (k : A -> js B) :
  keeps_storage m -> (forall a, keeps_storage (k a)) -> keeps_storage (js_bind m k).
Proof.
  intros Hm Hk h b. unfold js_bind. specialize (Hm h b).
  destruct (m h b) as [[a|e] b']; simpl in *; [|done].
  by rewrite Hk.
Qed.

Lemma keeps_try_catch (m : js A) (handler : exn -> js A) :
  keeps_storage m -> (forall e, keeps_storage (handler e)) ->
  keeps_storage (try_catch m handler).
Proof.
  intros Hm Hk h b. unfold try_catch. specialize (Hm h b).
  destruct (m h b) as [[a|e] b']; simpl in *; [done|].
  by rewrite Hk.
Qed.

Lemma keeps_if (c : bool) (m1 m2 : js A) :
  keeps_storage m1 -> keeps_storage m2 -> keeps_storage (if c then m1 else m2).
Proof. by destruct c. Qed.
End Frame.

Lemma keeps_console_log e : keeps_storage (console_log e).
Proof. by intros h b. Qed.

Lemma keeps_console_error e : keeps_storage (console_error e).
Proof. by intros h b. Qed.

Lemma keeps_getItem k : keeps_storage (localStorage_getItem k).
Proof.
  intros h b. unfold localStorage_getItem.
  destruct (localStorage b) eqn:E; simpl; by rewrite E.
Qed.

Lemma keeps_JSON_parse t : keeps_storage (JSON_parse t).
Proof. destruct t; simpl; [apply keeps_ret | apply keeps_throw]. Qed.

Lemma keeps_fetch req : keeps_storage (fetch req).
Proof. intros h b. unfold fetch. by destruct (remote h req). Qed.

Lemma keeps_response_json r : keeps_storage (response_json r).
Proof. unfold response_json. destruct (body r); [apply keeps_ret | apply keeps_throw]. Qed.

Lemma keeps_get_prop v name : keeps_storage (get_prop v name).
Proof. destruct v; simpl; first [apply keeps_ret | apply keeps_throw]. Qed.

Lemma keeps_get_prop_opt v name : keeps_storage (get_prop_opt v name).
Proof. destruct v; simpl; first [apply keeps_ret | apply keeps_throw]. Qed.

Lemma keeps_or_else a m : keeps_storage m -> keeps_storage (or_else a m).
Proof. intros. unfold or_else. apply keeps_if; [apply keeps_ret | done]. Qed.

Lemma keeps_and_then a m : keeps_storage m -> keeps_storage (and_then a m).
Proof. intros. unfold and_then. apply keeps_if; [done | apply keeps_ret]. Qed.

Lemma keeps_when c m : keeps_storage m -> keeps_storage (when c m).
Proof. intros. unfold when. apply keeps_if; [done | apply keeps_ret]. Qed.

Create HintDb frame discriminated.
#[local] Hint Resolve keeps_ret keeps_throw keeps_ask keeps_console_log
  keeps_console_error keeps_getItem keeps_JSON_parse keeps_fetch
  keeps_response_json keeps_get_prop keeps_get_prop_opt : frame.
#[local] Hint Extern 2 (keeps_storage (js_bind _ _)) =>
  apply keeps_bind; [|intros ?] : frame.
#[local] Hint Extern 2 (keeps_storage (try_catch _ _)) =>
  apply keeps_try_catch; [|intros ?] : frame.
#[local] Hint Extern 2 (keeps_storage (or_else _ _)) => apply keeps_or_else : frame.
#[local] Hint Extern 2 (keeps_storage (and_then _ _)) => apply keeps_and_then : frame.
#[local] Hint Extern 2 (keeps_storage (when _ _)) => apply keeps_when : frame.
#[local] Hint Extern 3 (keeps_storage (if _ then _ else _)) => apply keeps_if : frame.
#[local] Hint Extern 3 (keeps_storage (match ?x with _ => _ end)) => destruct x : frame.

Ltac frame := auto 30 with frame.

Lemma keeps_getStoredReferral : keeps_storage getStoredReferral.
Proof. unfold getStoredReferral. frame. Qed.

Lemma keeps_syncReferralToCart : keeps_storage syncReferralToCart.
Proof. unfold syncReferralToCart. pose proof keeps_getStoredReferral. frame. Qed.

Lemma keeps_legacy_syncReferralToCart : keeps_storage Legacy.syncReferralToCart.
Proof. unfold Legacy.syncReferralToCart. pose proof keeps_getStoredReferral. frame. Qed.

Lemma keeps_getReferralCode : keeps_storage getReferralCode.
Proof. unfold getReferralCode. pose proof keeps_getStoredReferral. frame. Qed.

(** *** Programs that always return *)

Section Returns.
Context {A B : Type}.

Lemma returns_ret (a : A) : returns (js_ret a).
Proof. intros h b. by exists a. Qed.

Lemma returns_bind (m : js A) (k : A -> js B) :
  returns m -> (forall a, returns (k a)) -> returns (js_bind m k).
Proof.
  intros Hm Hk h b. unfold js_bind. destruct (Hm h b) as [a Ha].
  destruct (m h b) as [[a'|e] b']; simpl in *; [|done].
  apply Hk.
Qed.

(** A [catch] block that returns makes the whole statement return. *)
Lemma returns_try_catch (m : js A) (handler : exn -> js A) :
  (forall e, returns (handler e)) -> returns (try_catch m handler).
Proof.
  intros Hk h b. unfold try_catch.
  destruct (m h b) as [[a|e] b']; simpl; [by exists a|].
  apply Hk.
Qed.

Lemma returns_if (c : bool) (m1 m2 : js A) :
  returns m1 -> returns m2 -> returns (if c then m1 else m2).
Proof. by destruct c. Qed.
End Returns.

Lemma returns_console_log e : returns (console_log e).
Proof. intros h b. by exists tt. Qed.

Lemma returns_console_error e : returns (console_error e).
Proof. apply returns_console_log. Qed.

(** Reading a property of a truthy value raises nothing: only [undefined]
    and [null] do, and both are falsy. *)
Lemma get_prop_truthy v name :
  truthy v = true -> get_prop v name = js_ret (field v name).
Proof. by destruct v. Qed.

Lemma returns_get_prop_opt v name : returns (get_prop_opt v name).
Proof. destruct v; simpl; apply returns_ret. Qed.

(** [!v || m]: [m] runs only when [v] is truthy. *)
Lemma returns_unless v m :
  (truthy v = true -> returns m) -> returns (or_else (js_not v) m).
Proof.
  intros Hm. unfold or_else, js_not; simpl.
  destruct (truthy v); simpl; [by apply Hm | apply returns_ret].
Qed.

Lemma returns_and_then a m : returns m -> returns (and_then a m).
Proof. intros. unfold and_then. apply returns_if; [done | apply returns_ret]. Qed.

Lemma returns_getStoredReferral : returns getStoredReferral.
Proof.
  apply returns_try_catch. intros e.
  apply returns_bind; [apply returns_console_error | intros; apply returns_ret].
Qed.

Lemma returns_syncReferralToCart : returns syncReferralToCart.
Proof.
  unfold syncReferralToCart.
  apply returns_bind; [apply returns_getStoredReferral | intros referralData].
  apply returns_bind.
  - apply returns_unless. intros Hv.
    rewrite !get_prop_truthy by done.
    apply returns_bind; [apply returns_ret | intros code].
    apply returns_and_then, returns_bind; intros; apply returns_ret.
  - intros nothing. apply returns_if; [apply returns_ret|].
    apply returns_try_catch. intros e. apply returns_console_error.
Qed.

Lemma returns_clearReferral : returns clearReferral.
Proof. apply returns_try_catch. intros e. apply returns_console_error. Qed.

Lemma returns_storeReferral referral orderId : returns (storeReferral referral orderId).
Proof. apply returns_try_catch. intros e. apply returns_console_error. Qed.

Lemma returns_when c m : returns m -> returns (when c m).
Proof. intros. unfold when. apply returns_if; [done | apply returns_ret]. Qed.

Lemma returns_captureReferralFromURL : returns captureReferralFromURL.
Proof.
  unfold captureReferralFromURL.
  apply returns_bind; [intros h b; by eexists | intros search].
  apply returns_when, returns_bind; [apply returns_storeReferral | intros _].
  apply returns_bind; [|intros _]; apply returns_when, returns_console_log.
Qed.

Lemma returns_getReferralCode : returns getReferralCode.
Proof.
  unfold getReferralCode.
  apply returns_bind; [apply returns_getStoredReferral | intros data].
  apply returns_bind; [apply returns_get_prop_opt | intros; apply returns_ret].
Qed.

(** C7. Whatever is stored and however the two requests end (the fetch of
    the cart is rejected, its body is not JSON, the update is rejected or
    answered with a failure status, nothing needs writing, or the write goes
    through), [syncReferralToCart] completes without raising and leaves
    localStorage exactly as it found it. *)
Theorem syncReferralToCart_keeps_record_and_returns (h : host) (b : browser) :
  (syncReferralToCart h b).1 = Return tt /\
  localStorage (syncReferralToCart h b).2 = localStorage b /\
  persisted (syncReferralToCart h b).2 = persisted b.
Proof.
  destruct (returns_syncReferralToCart h b) as [[] Hret].
  pose proof (keeps_syncReferralToCart h b) as Hkeep.
  split; [done|]. split; [done|].
  unfold persisted. by rewrite Hkeep.
Qed.

(** *** Running [getStoredReferral] *)

Lemma getStoredReferral_json h b v :
  persisted b = Some (Json v) -> getStoredReferral h b = (Return v, b).
Proof.
  unfold persisted, getStoredReferral, try_catch, js_bind, localStorage_getItem.
  destruct (localStorage b) as [|items]; [done|]. by intros ->.
Qed.

(** In every case the call returns [stored_value] and touches nothing but
    the console. *)
Lemma getStoredReferral_run h b :
  exists log,
    getStoredReferral h b
    = (Return (stored_value b), mkBrowser (localStorage b) (console b ++ log) (network b)).
Proof.
  unfold stored_value, persisted, getStoredReferral, try_catch, js_bind,
    localStorage_getItem.
  destruct b as [ls con net]; simpl.
  destruct ls as [|items]; simpl.
  { by exists [ErrRetrieve SecurityError]. }
  destruct (items !! STORAGE_KEY) as [[v|s]|]; simpl.
  - exists []. by rewrite app_nil_r.
  - destruct (String.eqb s ""); simpl.
    + exists []. by rewrite app_nil_r.
    + by exists [ErrRetrieve SyntaxError].
  - exists []. by rewrite app_nil_r.
Qed.

Lemma fetch_run req h b :
  fetch req h b
  = (match remote h req with Some r => Return r | None => Throw NetworkError end,
     mkBrowser (localStorage b) (console b) (network b ++ [req])).
Proof. unfold fetch. by destruct (remote h req). Qed.

(** C4. With the record [{code: "store1", orderId: null}] persisted and a
    cart whose attributes are the empty object, [syncReferralToCart] sends,
    after the fetch of the cart, exactly one update request.  Its attributes
    are the landing page, the capture time and the referral key set to
    "store1"; the order-id key is not among them. *)
Theorem syncReferralToCart_writes_code_only
    (h : host) (b : browser) (capturedAt landingPage : string)
    (cart_props : list (string * jsval)) (status : bool) :
  persisted b = Some (Json (record (JStr "store1") JNull capturedAt landingPage)) ->
  remote h (GET "/cart.js") = Some (mkResponse status (BodyJson (JObj cart_props))) ->
  lookup_prop "attributes" cart_props = Some (JObj []) ->
  let attributes := [(LANDING_PAGE_ATTRIBUTE_KEY, JStr landingPage);
                     (CAPTURED_AT_ATTRIBUTE_KEY, JStr capturedAt);
                     (CART_ATTRIBUTE_KEY, JStr "store1")] in
  network (syncReferralToCart h b).2
  = network b ++ [GET "/cart.js"; update_request attributes] /\
  updates (syncReferralToCart h b).2 = updates b ++ [update_request attributes] /\
  lookup_prop ORDER_ID_ATTRIBUTE_KEY attributes = None.
Proof.
  intros Hrec Hcart Hattrs attributes.
  assert (Hnet : network (syncReferralToCart h b).2
                 = network b ++ [GET "/cart.js"; update_request attributes]).
  { unfold syncReferralToCart, js_bind, try_catch.
    rewrite (getStoredReferral_json h b _ Hrec); simpl.
    rewrite fetch_run, Hcart; simpl. rewrite Hattrs; simpl.
    rewrite fetch_run; simpl.
    destruct (remote h (POST _ _ _)) as [[[] ?]|]; simpl; by rewrite <- app_assoc. }
  split; [done|]. split; [|done].
  unfold updates. rewrite Hnet, filter_app. done.
Qed.

Lemma syncReferralToCart_writes_code_only_witness :
  let b := browser_with (Json (record (JStr "store1") JNull "2024-05-01T10:00:00.000Z" "/")) in
  let h := storefront (JObj [("token", JStr "c1"); ("attributes", JObj [])]) in
  let attributes := [(LANDING_PAGE_ATTRIBUTE_KEY, JStr "/");
                     (CAPTURED_AT_ATTRIBUTE_KEY, JStr "2024-05-01T10:00:00.000Z");
                     (CART_ATTRIBUTE_KEY, JStr "store1")] in
  network (syncReferralToCart h b).2
  = network b ++ [GET "/cart.js"; update_request attributes] /\
  updates (syncReferralToCart h b).2 = updates b ++ [update_request attributes] /\
  lookup_prop ORDER_ID_ATTRIBUTE_KEY attributes = None.
Proof.
  intros b h.
  apply (syncReferralToCart_writes_code_only h b "2024-05-01T10:00:00.000Z" "/"
           [("token", JStr "c1"); ("attributes", JObj [])] true).
  - vm_compute. reflexivity.
  - reflexivity.
  - reflexivity.
Defined.

(** *** When the cart already carries the record *)

Lemma strict_equals_truthy_obj v k c :
  strict_equals (field v k) c = true -> truthy c = true -> exists props, v = JObj props.
Proof. destruct v; simpl; try (destruct c; simpl; done). eauto. Qed.

(** A set field that is identical to the live attribute forces the shape of
    the cart: an object whose [attributes] is an object. *)
Lemma strict_equals_live cart key v :
  truthy v = true ->
  strict_equals (field (field cart "attributes") key) v = true ->
  exists cps aps, cart = JObj cps /\ lookup_prop "attributes" cps = Some (JObj aps) /\
    strict_equals (default JUndefined (lookup_prop key aps)) v = true.
Proof.
  intros Hv Hm.
  destruct (strict_equals_truthy_obj _ _ _ Hm Hv) as [aps Haps].
  destruct cart as [| | | | | |cps]; try done. simpl in Haps.
  exists cps, aps. split; [done|].
  destruct (lookup_prop "attributes" cps) as [a|] eqn:Ha; simpl in *; [|done].
  subst a. split; [done|]. by rewrite Ha in Hm.
Qed.

(** On strings [===] is equality of strings. *)
Lemma strict_equals_string v s : strict_equals v (JStr s) = true <-> v = JStr s.
Proof.
  destruct v; simpl; try (split; done).
  rewrite String.eqb_eq. split; congruence.
Qed.

(** C3. Whatever record is persisted and whatever cart the fetch brings
    back: if every tracked field that is set (truthy) in the record is
    identical ([===]) to the cart attribute of its key, [syncReferralToCart]
    sends no update request; the only request, made when a field is set at
    all, is the fetch of the cart. *)
Theorem syncReferralToCart_skips_when_cart_matches
    (h : host) (b : browser) (rec cart : jsval) (status : bool) :
  persisted b = Some (Json rec) ->
  remote h (GET "/cart.js") = Some (mkResponse status (BodyJson cart)) ->
  (truthy (field rec "code") = true ->
   strict_equals (field (field cart "attributes") CART_ATTRIBUTE_KEY)
     (field rec "code") = true) ->
  (truthy (field rec "orderId") = true ->
   strict_equals (field (field cart "attributes") ORDER_ID_ATTRIBUTE_KEY)
     (field rec "orderId") = true) ->
  updates (syncReferralToCart h b).2 = updates b /\
  network (syncReferralToCart h b).2
  = network b ++ (if truthy (field rec "code") || truthy (field rec "orderId")
                  then [GET "/cart.js"] else []).
Proof.
  intros Hrec Hcart Hc Ho.
  assert (Hnet : network (syncReferralToCart h b).2
                 = network b ++ (if truthy (field rec "code") || truthy (field rec "orderId")
                                 then [GET "/cart.js"] else [])).
  { unfold syncReferralToCart. unfold js_bind at 1.
    rewrite (getStoredReferral_json h b _ Hrec).
    destruct (truthy rec) eqn:Hrt.
    2:{ assert (field rec "code" = JUndefined /\ field rec "orderId" = JUndefined)
          as [-> ->] by (by destruct rec).
        unfold js_bind, or_else, js_not; simpl. rewrite Hrt; simpl. by rewrite app_nil_r. }
    rewrite !get_prop_truthy by done.
    set (c := field rec "code") in *. set (o := field rec "orderId") in *.
    unfold js_bind, try_catch, or_else, and_then, js_not, js_ret; simpl.
    rewrite Hrt; simpl.
    destruct (truthy c) eqn:Htc; simpl.
    - rewrite fetch_run, Hcart; simpl.
      destruct (strict_equals_live _ _ _ Htc (Hc eq_refl))
        as (cps & aps & -> & Hattrs & Hlive).
      simpl. rewrite Hattrs; simpl. rewrite Hlive; simpl.
      destruct (truthy o) eqn:Hto; simpl; [|done].
      destruct (strict_equals_live _ _ _ Hto (Ho eq_refl))
        as (cps' & aps' & [= <-] & Hattrs' & Hlive').
      rewrite Hattrs in Hattrs'. injection Hattrs' as <-. by rewrite Hlive'.
    - destruct (truthy o) eqn:Hto; simpl; [|by rewrite app_nil_r].
      rewrite fetch_run, Hcart; simpl.
      destruct (strict_equals_live _ _ _ Hto (Ho eq_refl))
        as (cps & aps & -> & Hattrs & Hlive).
      simpl. rewrite Hattrs; simpl. by rewrite Hlive. }
  split; [|done].
  unfold updates. rewrite Hnet, filter_app.
  destruct (_ || _); simpl; by rewrite app_nil_r.
Qed.

Lemma syncReferralToCart_skips_when_cart_matches_witness :
  let rec := record (JStr "store1") (JStr "99") "2024-05-01T10:00:00.000Z" "/" in
  let cart := JObj [("attributes", JObj [(CART_ATTRIBUTE_KEY, JStr "store1");
                                         (ORDER_ID_ATTRIBUTE_KEY, JStr "99")])] in
  updates (syncReferralToCart (storefront cart) (browser_with (Json rec))).2 = [] /\
  network (syncReferralToCart (storefront cart) (browser_with (Json rec))).2
  = [GET "/cart.js"].
Proof.
  intros rec cart.
  apply (syncReferralToCart_skips_when_cart_matches
           (storefront cart) (browser_with (Json rec)) rec cart true).
  - vm_compute. reflexivity.
  - reflexivity.
  - intros _. reflexivity.
  - intros _. reflexivity.
Defined.

(** C5. With the record [{code: "store1", orderId: "99"}] persisted and a
    cart whose attributes hold only the referral key, already "store1", the
    order id does not match and [syncReferralToCart] sends one update
    request; its attributes carry both tracked keys, the referral "store1"
    and the order id "99", after the landing page and the capture time. *)
Theorem syncReferralToCart_writes_both_on_partial_match
    (h : host) (b : browser) (capturedAt landingPage : string)
    (cart_props : list (string * jsval)) (status : bool) :
  persisted b = Some (Json (record (JStr "store1") (JStr "99") capturedAt landingPage)) ->
  remote h (GET "/cart.js") = Some (mkResponse status (BodyJson (JObj cart_props))) ->
  lookup_prop "attributes" cart_props = Some (JObj [(CART_ATTRIBUTE_KEY, JStr "store1")]) ->
  let attributes := [(LANDING_PAGE_ATTRIBUTE_KEY, JStr landingPage);
                     (CAPTURED_AT_ATTRIBUTE_KEY, JStr capturedAt);
                     (CART_ATTRIBUTE_KEY, JStr "store1");
                     (ORDER_ID_ATTRIBUTE_KEY, JStr "99")] in
  network (syncReferralToCart h b).2
  = network b ++ [GET "/cart.js"; update_request attributes] /\
  updates (syncReferralToCart h b).2 = updates b ++ [update_request attributes].
Proof.
  intros Hrec Hcart Hattrs attributes.
  assert (Hnet : network (syncReferralToCart h b).2
                 = network b ++ [GET "/cart.js"; update_request attributes]).
  { unfold syncReferralToCart, js_bind, try_catch.
    rewrite (getStoredReferral_json h b _ Hrec); simpl.
    rewrite fetch_run, Hcart; simpl. rewrite Hattrs; simpl.
    rewrite fetch_run; simpl.
    destruct (remote h (POST _ _ _)) as [[[] ?]|]; simpl; by rewrite <- app_assoc. }
  split; [done|].
  unfold updates. rewrite Hnet, filter_app. done.
Qed.

Lemma syncReferralToCart_writes_both_on_partial_match_witness :
  let b := browser_with (Json (record (JStr "store1") (JStr "99") "2024-05-01T10:00:00.000Z" "/")) in
  let h := storefront (JObj [("attributes", JObj [(CART_ATTRIBUTE_KEY, JStr "store1")])]) in
  let attributes := [(LANDING_PAGE_ATTRIBUTE_KEY, JStr "/");
                     (CAPTURED_AT_ATTRIBUTE_KEY, JStr "2024-05-01T10:00:00.000Z");
                     (CART_ATTRIBUTE_KEY, JStr "store1");
                     (ORDER_ID_ATTRIBUTE_KEY, JStr "99")] in
  network (syncReferralToCart h b).2
  = network b ++ [GET "/cart.js"; update_request attributes] /\
  updates (syncReferralToCart h b).2 = updates b ++ [update_request attributes].
Proof.
  intros b h.
  apply (syncReferralToCart_writes_both_on_partial_match h b
           "2024-05-01T10:00:00.000Z" "/"
           [("attributes", JObj [(CART_ATTRIBUTE_KEY, JStr "store1")])] true).
  - vm_compute. reflexivity.
  - reflexivity.
  - reflexivity.
Defined.

(** *** The earlier and the current [syncReferralToCart] *)

Lemma truthy_js_and a b : truthy (a &&& b) = truthy a && truthy b.
Proof. unfold js_and. by destruct (truthy a) eqn:E. Qed.

Lemma truthy_js_or a b : truthy (a ||| b) = truthy a || truthy b.
Proof. unfold js_or. by destruct (truthy a) eqn:E. Qed.

(** One step of symbolic execution: reduce, answer a request, or split on
    the condition the program branches on. *)
Ltac exec :=
  repeat (simpl; first
    [ done
    | rewrite fetch_run
    | rewrite truthy_js_and
    | rewrite truthy_js_or
    | match goal with
      | H : truthy ?v = true |- context [get_prop ?v ?k] =>
          rewrite (get_prop_truthy v k H)
      | |- context [match remote ?h ?r with _ => _ end] =>
          destruct (remote h r) as [[[] []]|]
      | |- context [if truthy ?v then _ else _] => destruct (truthy v) eqn:?
      | |- context [if strict_equals ?a ?b then _ else _] =>
          destruct (strict_equals a b) eqn:?
      end ]).

(** The two versions list the same attributes, the earlier one with the
    referral first, the current one with the referral last. *)
Lemma payload_order (s : string) (lp ca : jsval) :
  sent_attributes (JSON_stringify (JObj [("attributes",
     JObj [(Legacy.CART_ATTRIBUTE_KEY, JStr s);
           (LANDING_PAGE_ATTRIBUTE_KEY, lp); (CAPTURED_AT_ATTRIBUTE_KEY, ca)])]))
  = sent_attributes (JSON_stringify (JObj [("attributes",
     JObj [(LANDING_PAGE_ATTRIBUTE_KEY, lp); (CAPTURED_AT_ATTRIBUTE_KEY, ca);
           (CART_ATTRIBUTE_KEY, JStr s)])])).
Proof.
  destruct lp, ca; simpl; f_equal.
  all: repeat (rewrite (insert_commute _ Legacy.CART_ATTRIBUTE_KEY) by done); try done.
Qed.

Lemma on_wire_updates (l1 l2 : list request) :
  on_wire <$> l1 = on_wire <$> l2 ->
  length (filter (fun r => is_update r = true) l1)
  = length (filter (fun r => is_update r = true) l2).
Proof.
  revert l2. induction l1 as [|r1 l1 IH]; intros [|r2 l2]; simpl; try done.
  intros [= Hr Hl]. specialize (IH _ Hl).
  assert (is_update r1 = is_update r2) as Hu.
  { destruct r1, r2; simpl in *; congruence. }
  rewrite !filter_cons, Hu.
  destruct (decide (is_update r2 = true)); simpl; by rewrite IH.
Qed.

(** C10. For a persisted record whose [code] is a non-empty string and whose
    [orderId] is [null] or missing, and whatever the remote end does, the
    earlier one-parameter [syncReferralToCart] and the current one put the
    same requests on the wire: both stop before, or after, the fetch of the
    cart, or both go on to one update, and then the two updates carry the
    same attribute keys with the same values. *)
Theorem syncReferralToCart_agrees_with_legacy
    (h : host) (b : browser) (props : list (string * jsval)) (s : string) :
  persisted b = Some (Json (JObj props)) ->
  lookup_prop "code" props = Some (JStr s) -> s <> "" ->
  lookup_prop "orderId" props = None \/ lookup_prop "orderId" props = Some JNull ->
  on_wire <$> network (Legacy.syncReferralToCart h b).2
  = on_wire <$> network (syncReferralToCart h b).2 /\
  length (updates (Legacy.syncReferralToCart h b).2)
  = length (updates (syncReferralToCart h b).2).
Proof.
  intros Hrec Hcode Hs Hoid.
  assert (Hts : negb (String.eqb s "") = true).
  { apply negb_true_iff, String.eqb_neq, Hs. }
  assert (Hto : truthy (default JUndefined (lookup_prop "orderId" props)) = false).
  { by destruct Hoid as [-> | ->]. }
  assert (Hwrite : forall lp ca net,
    on_wire <$> net ++ [POST "/cart/update.js" json_headers
      (JSON_stringify (JObj [("attributes",
         JObj [(Legacy.CART_ATTRIBUTE_KEY, JStr s);
               (LANDING_PAGE_ATTRIBUTE_KEY, lp); (CAPTURED_AT_ATTRIBUTE_KEY, ca)])]))]
    = on_wire <$> net ++ [POST "/cart/update.js" json_headers
      (JSON_stringify (JObj [("attributes",
         JObj [(LANDING_PAGE_ATTRIBUTE_KEY, lp); (CAPTURED_AT_ATTRIBUTE_KEY, ca);
               (CART_ATTRIBUTE_KEY, JStr s)])]))]).
  { intros. rewrite !fmap_app. f_equal. cbn [fmap list_fmap on_wire].
    by rewrite payload_order. }
  assert (Hwire : on_wire <$> network (Legacy.syncReferralToCart h b).2
                  = on_wire <$> network (syncReferralToCart h b).2).
  { unfold Legacy.syncReferralToCart, syncReferralToCart.
    unfold js_bind, try_catch, or_else, and_then, js_not, js_ret, when.
    unfold Legacy.CART_ATTRIBUTE_KEY, CART_ATTRIBUTE_KEY in *.
    rewrite !(getStoredReferral_json h b _ Hrec); simpl.
    rewrite !Hcode; simpl. rewrite !Hts; simpl.
    rewrite !fetch_run.
    destruct (remote h (GET "/cart.js")) as [[st [cart|]]|]; simpl; try done.
    rewrite !Hto; simpl.
    destruct cart as [| | | | | |cps]; exec; try apply Hwrite. }
  split; [done|]. by apply on_wire_updates.
Qed.

Lemma syncReferralToCart_agrees_with_legacy_witness :
  let props := [("code", JStr "store1");
                ("capturedAt", JStr "2024-05-01T10:00:00.000Z");
                ("landingPage", JStr "/")] in
  let b := browser_with (Json (JObj props)) in
  let h := storefront (JObj [("attributes", JObj [])]) in
  on_wire <$> network (Legacy.syncReferralToCart h b).2
  = on_wire <$> network (syncReferralToCart h b).2 /\
  length (updates (Legacy.syncReferralToCart h b).2)
  = length (updates (syncReferralToCart h b).2).
Proof.
  intros props b h.
  apply (syncReferralToCart_agrees_with_legacy h b props "store1").
  - vm_compute. reflexivity.
  - reflexivity.
  - discriminate.
  - left. reflexivity.
Defined.

(** *** Storing and capturing *)

Lemma truthy_or_empty_object v : truthy (v ||| JObj []) = true.
Proof. unfold js_or. by destruct (truthy v) eqn:E. Qed.

Lemma or_else_ret a v : or_else a (js_ret v) = js_ret (a ||| v).
Proof. unfold or_else, js_or. by destruct (truthy a). Qed.

Lemma storeReferral_run h b items referral orderId :
  localStorage b = Store items -> quota_exceeded h = false ->
  exists log,
    storeReferral referral orderId h b
    = (Return tt,
       mkBrowser
         (Store (<[STORAGE_KEY :=
                     JSON_stringify (merged referral orderId (stored_value b ||| JObj []) h)]>
                   items))
         (console b ++ log) (network b)).
Proof.
  intros Hls Hq.
  destruct (getStoredReferral_run h b) as [log Hrun]. exists log.
  unfold storeReferral, try_catch. unfold js_bind at 1. rewrite Hrun.
  rewrite !get_prop_truthy by apply truthy_or_empty_object.
  rewrite !or_else_ret.
  unfold js_bind, js_ret, ask, localStorage_setItem; simpl.
  by rewrite Hls, Hq.
Qed.

(** When storage refuses, nothing is written. *)
Lemma storeReferral_refused h b referral orderId :
  localStorage b = Denied \/ quota_exceeded h = true ->
  exists log,
    storeReferral referral orderId h b
    = (Return tt, mkBrowser (localStorage b) (console b ++ log) (network b)).
Proof.
  intros Hwhy.
  destruct (getStoredReferral_run h b) as [log Hrun].
  unfold storeReferral, try_catch. unfold js_bind at 1. rewrite Hrun.
  rewrite !get_prop_truthy by apply truthy_or_empty_object.
  rewrite !or_else_ret.
  unfold js_bind, js_ret, ask, localStorage_setItem, console_error, console_log; simpl.
  destruct (localStorage b) eqn:Hls; simpl.
  { exists (log ++ [ErrStore SecurityError]). by rewrite app_assoc. }
  destruct Hwhy as [? | ->]; [done|]. simpl.
  exists (log ++ [ErrStore QuotaExceededError]). by rewrite app_assoc.
Qed.

Lemma capture_nothing h b :
  truthy (referral_param h) = false -> truthy (order_id_param h) = false ->
  captureReferralFromURL h b = (Return tt, b).
Proof.
  intros Hr Ho. unfold captureReferralFromURL, js_bind, ask, when; simpl.
  fold (referral_param h) (order_id_param h).
  by rewrite truthy_js_or, Hr, Ho.
Qed.

Lemma capture_something h b :
  truthy (referral_param h) || truthy (order_id_param h) = true ->
  exists log,
    captureReferralFromURL h b
    = (Return tt,
       let b' := (storeReferral (referral_param h) (order_id_param h) h b).2 in
       mkBrowser (localStorage b') (console b' ++ log) (network b')).
Proof.
  intros Hany. unfold captureReferralFromURL, js_bind at 1, ask, when; simpl.
  fold (referral_param h) (order_id_param h).
  rewrite truthy_js_or, Hany.
  unfold js_bind.
  destruct (returns_storeReferral (referral_param h) (order_id_param h) h b) as [[] Hret].
  destruct (storeReferral _ _ h b) as [o b']; simpl in *. subst o.
  unfold console_log, js_ret.
  destruct (truthy (referral_param h)), (truthy (order_id_param h)); simpl;
    eexists; try reflexivity.
  - by rewrite <- app_assoc.
  - destruct b'; simpl. by rewrite app_nil_r.
Qed.

Lemma capture_refused h b :
  localStorage b = Denied \/ quota_exceeded h = true ->
  localStorage (captureReferralFromURL h b).2 = localStorage b.
Proof.
  intros Hwhy.
  destruct (truthy (referral_param h) || truthy (order_id_param h)) eqn:Hany.
  - destruct (capture_something h b Hany) as [log ->].
    by destruct (storeReferral_refused h b (referral_param h) (order_id_param h) Hwhy)
      as [log' ->].
  - apply orb_false_iff in Hany as [Hr Ho]. by rewrite capture_nothing.
Qed.

Lemma stored_value_storage b b' :
  localStorage b' = localStorage b -> stored_value b' = stored_value b.
Proof. intros Hls. unfold stored_value, persisted. by rewrite Hls. Qed.

Lemma js_or_truthy a b : truthy a = true -> a ||| b = a.
Proof. unfold js_or. by intros ->. Qed.

Lemma truthy_JStr s : s <> "" -> truthy (JStr s) = true.
Proof. intros. simpl. by apply negb_true_iff, String.eqb_neq. Qed.

Lemma persisted_store b items :
  localStorage b = Store items -> persisted b = items !! STORAGE_KEY.
Proof. unfold persisted. by intros ->. Qed.

(** What a capture that has something to store leaves under the key. *)
Lemma capture_persisted h b items :
  localStorage b = Store items -> quota_exceeded h = false ->
  truthy (referral_param h) || truthy (order_id_param h) = true ->
  persisted (captureReferralFromURL h b).2
  = Some (JSON_stringify
            (merged (referral_param h) (order_id_param h) (stored_value b ||| JObj []) h)).
Proof.
  intros Hls Hq Hany.
  destruct (capture_something h b Hany) as [log ->].
  destruct (storeReferral_run h b items (referral_param h) (order_id_param h) Hls Hq)
    as [log' ->].
  unfold persisted; simpl. apply lookup_insert_eq.
Qed.

Lemma js_or_falsy a b : truthy a = false -> a ||| b = b.
Proof. unfold js_or. by intros ->. Qed.

Lemma to_json_obj props : to_json (JObj props) = JObj (json_props props).
Proof.
  simpl. f_equal. induction props as [|[k v] rest IH]; simpl; [done|].
  rewrite IH. by destruct v.
Qed.

Lemma merged_not_undefined param old : param ||| old ||| JNull <> JUndefined.
Proof.
  set (y := param ||| old). unfold js_or.
  destruct (truthy y) eqn:E; [|done]. by intros Hy; rewrite Hy in E.
Qed.

Lemma to_json_merged r o ex h :
  to_json (merged r o ex h)
  = record (to_json (r ||| field ex "code" ||| JNull))
      (to_json (o ||| field ex "orderId" ||| JNull)) (date_now h) (location_pathname h).
Proof.
  unfold merged, record. rewrite to_json_obj. cbn [json_props].
  pose proof (merged_not_undefined r (field ex "code")) as Hc.
  pose proof (merged_not_undefined o (field ex "orderId")) as Ho.
  destruct (r ||| field ex "code" ||| JNull) eqn:E1; try done;
    destruct (o ||| field ex "orderId" ||| JNull) eqn:E2; done.
Qed.

(** What [getStoredReferral] finds after a capture: what it found before,
    or the record the capture wrote. *)
Lemma capture_stored_value h b :
  stored_value (captureReferralFromURL h b).2 = stored_value b \/
  stored_value (captureReferralFromURL h b).2
  = record (to_json (referral_param h ||| field (stored_value b ||| JObj []) "code" ||| JNull))
      (to_json (order_id_param h ||| field (stored_value b ||| JObj []) "orderId" ||| JNull))
      (date_now h) (location_pathname h).
Proof.
  destruct (truthy (referral_param h) || truthy (order_id_param h)) eqn:Hany.
  2:{ apply orb_false_iff in Hany as [Hr Ho]. left. by rewrite capture_nothing. }
  destruct (localStorage b) as [|items] eqn:Hls.
  { left. apply stored_value_storage. rewrite capture_refused; auto. }
  destruct (quota_exceeded h) eqn:Hq.
  { left. apply stored_value_storage. rewrite capture_refused; auto. }
  right. unfold stored_value at 1.
  rewrite (capture_persisted h b items Hls Hq Hany).
  unfold JSON_stringify. apply to_json_merged.
Qed.

(** A stored field that is a non-empty string is kept by a capture that
    brings no value for it. *)
Lemma capture_keeps_field b param key s :
  field (stored_value b) key = JStr s -> s <> "" -> truthy param = false ->
  to_json (param ||| field (stored_value b ||| JObj []) key ||| JNull) = JStr s.
Proof.
  intros Hf Hs Hp.
  assert (truthy (stored_value b) = true) as Hv.
  { destruct (stored_value b); try done. }
  rewrite (js_or_truthy (stored_value b) _ Hv), Hf.
  rewrite (js_or_falsy param _ Hp).
  by rewrite (js_or_truthy (JStr s) _ (truthy_JStr s Hs)).
Qed.

(** C1, as the code has it. A capture whose only parameter is a non-empty
    referral [C], on a stored record whose [orderId] is [B], and whose write
    storage accepts, leaves under the key the record with [code = C] and
    [orderId = B] (an empty [B] becomes [null]), stamped with the current
    time and path.  A capture that finds neither parameter changes nothing
    at all.  And no capture erases the field it brings no value for: an
    order id stored before is still the stored order id after a capture
    without [order_id], a code stored before is still the stored code after
    a capture without [ref], whether storage accepts the write or not. *)
Theorem capture_merges_with_stored_record :
  (forall (h : host) (b : browser) (props : list (string * jsval))
          (B : option string) (C : string),
     persisted b = Some (Json (JObj props)) ->
     field (JObj props) "orderId" = of_nullable B ->
     URLSearchParams_get (location_search h) REFERRAL_PARAM = Some C -> C <> "" ->
     URLSearchParams_get (location_search h) ORDER_ID_PARAM = None ->
     quota_exceeded h = false ->
     persisted (captureReferralFromURL h b).2
     = Some (Json (record (JStr C) (of_nullable (non_empty B))
                     (date_now h) (location_pathname h)))) /\
  (forall (h : host) (b : browser),
     URLSearchParams_get (location_search h) REFERRAL_PARAM = None ->
     URLSearchParams_get (location_search h) ORDER_ID_PARAM = None ->
     captureReferralFromURL h b = (Return tt, b)) /\
  (forall (h : host) (b : browser) (B : string),
     field (stored_value b) "orderId" = JStr B -> B <> "" ->
     non_empty (URLSearchParams_get (location_search h) ORDER_ID_PARAM) = None ->
     field (stored_value (captureReferralFromURL h b).2) "orderId" = JStr B) /\
  (forall (h : host) (b : browser) (A : string),
     field (stored_value b) "code" = JStr A -> A <> "" ->
     non_empty (URLSearchParams_get (location_search h) REFERRAL_PARAM) = None ->
     field (stored_value (captureReferralFromURL h b).2) "code" = JStr A).
Proof.
  split; [|split; [|split]].
  - intros h b props B C Hrec HB Href HC Hoid Hq.
    assert (exists items, localStorage b = Store items) as [items Hls].
    { unfold persisted in Hrec. destruct (localStorage b); [done | eauto]. }
    rewrite (capture_persisted h b items Hls Hq).
    2:{ unfold referral_param. rewrite Href. cbn [of_nullable]. by rewrite truthy_JStr. }
    unfold referral_param, order_id_param, stored_value.
    rewrite Href, Hoid, Hrec. cbn [of_nullable].
    unfold merged, JSON_stringify, record.
    rewrite !(js_or_truthy (JStr C)) by by apply truthy_JStr.
    change (JObj props ||| JObj []) with (JObj props). rewrite HB.
    destruct B as [[|]|]; done.
  - intros h b Href Hoid. apply capture_nothing.
    + unfold referral_param. by rewrite Href.
    + unfold order_id_param. by rewrite Hoid.
  - intros h b B HB HBne Hnone.
    destruct (capture_stored_value h b) as [-> | ->]; [done|].
    cbn [record field lookup_prop String.eqb Ascii.eqb Bool.eqb default from_option].
    unfold id. apply capture_keeps_field; [done | done |].
    unfold order_id_param.
    by destruct (URLSearchParams_get (location_search h) ORDER_ID_PARAM) as [[|]|].
  - intros h b A HA HAne Hnone.
    destruct (capture_stored_value h b) as [-> | ->]; [done|].
    cbn [record field lookup_prop String.eqb Ascii.eqb Bool.eqb default from_option].
    unfold id. apply capture_keeps_field; [done | done |].
    unfold referral_param.
    by destruct (URLSearchParams_get (location_search h) REFERRAL_PARAM) as [[|]|].
Qed.

Lemma capture_merges_with_stored_record_witness :
  let b := browser_with (Json (record (JStr "store1") (JStr "99")
                                 "2024-04-30T09:00:00.000Z" "/")) in
  (persisted (captureReferralFromURL (page [("ref", "store2")]) b).2
   = Some (Json (record (JStr "store2") (JStr "99")
                   "2024-05-01T10:00:00.000Z" "/collections/all")) /\
   captureReferralFromURL (page [("utm_source", "mail")]) b = (Return tt, b)) /\
  field (stored_value (captureReferralFromURL (out_of_quota (page [("ref", "store2")])) b).2)
    "orderId" = JStr "99" /\
  field (stored_value (captureReferralFromURL (page [("ref", ""); ("order_id", "12")]) b).2)
    "code" = JStr "store1".
Proof.
  intros b. split; [split|split].
  - apply (proj1 capture_merges_with_stored_record (page [("ref", "store2")]) b
             [("code", JStr "store1"); ("orderId", JStr "99");
              ("capturedAt", JStr "2024-04-30T09:00:00.000Z"); ("landingPage", JStr "/")]
             (Some "99") "store2").
    + vm_compute. reflexivity.
    + reflexivity.
    + reflexivity.
    + discriminate.
    + reflexivity.
    + reflexivity.
  - apply (proj1 (proj2 capture_merges_with_stored_record)
             (page [("utm_source", "mail")]) b).
    + reflexivity.
    + reflexivity.
  - apply (proj1 (proj2 (proj2 capture_merges_with_stored_record))
             (out_of_quota (page [("ref", "store2")])) b "99").
    + vm_compute. reflexivity.
    + discriminate.
    + reflexivity.
  - apply (proj2 (proj2 (proj2 capture_merges_with_stored_record))
             (page [("ref", ""); ("order_id", "12")]) b "store1").
    + vm_compute. reflexivity.
    + discriminate.
    + reflexivity.
Defined.

Lemma clearReferral_run h b items :
  localStorage b = Store items ->
  clearReferral h b
  = (Return tt, mkBrowser (Store (delete STORAGE_KEY items)) (console b ++ [LogCleared])
                  (network b)).
Proof.
  intros Hls. unfold clearReferral, try_catch, js_bind, localStorage_removeItem.
  by rewrite Hls.
Qed.

Lemma clearReferral_denied h b :
  localStorage b = Denied ->
  clearReferral h b
  = (Return tt, mkBrowser Denied (console b ++ [ErrClear SecurityError]) (network b)).
Proof.
  intros Hls. unfold clearReferral, try_catch, js_bind, localStorage_removeItem.
  rewrite Hls. simpl. unfold console_error, console_log. by rewrite ?Hls.
Qed.

Lemma persisted_after_clear h b : persisted (clearReferral h b).2 = None.
Proof.
  destruct (localStorage b) as [|items] eqn:Hls.
  - by rewrite (clearReferral_denied h b Hls).
  - rewrite (clearReferral_run h b items Hls). unfold persisted; simpl.
    apply lookup_delete_eq.
Qed.

(** C8, as the code has it. Whatever an accessible storage held before,
    [clearReferral] followed by a capture whose only parameter is a non-empty
    referral [X], and which storage accepts, leaves the record
    [{code: X, orderId: null}] with the time and path of the capture.
    Clearing when nothing is stored returns normally and leaves storage as
    it was. *)
Theorem clear_then_capture_is_fresh :
  (forall (h1 h2 : host) (b : browser) (items : gmap string text) (X : string),
     localStorage b = Store items ->
     URLSearchParams_get (location_search h2) REFERRAL_PARAM = Some X -> X <> "" ->
     URLSearchParams_get (location_search h2) ORDER_ID_PARAM = None ->
     quota_exceeded h2 = false ->
     persisted (captureReferralFromURL h2 (clearReferral h1 b).2).2
     = Some (Json (record (JStr X) JNull (date_now h2) (location_pathname h2)))) /\
  (forall (h : host) (b : browser),
     persisted b = None ->
     (clearReferral h b).1 = Return tt /\
     localStorage (clearReferral h b).2 = localStorage b).
Proof.
  split.
  - intros h1 h2 b items X Hls Href HX Hoid Hq.
    rewrite (clearReferral_run h1 b items Hls). cbn [snd].
    set (b1 := mkBrowser _ _ _).
    assert (Hnone : persisted b1 = None) by apply lookup_delete_eq.
    rewrite (capture_persisted h2 b1 (delete STORAGE_KEY items) eq_refl Hq).
    2:{ unfold referral_param. rewrite Href. cbn [of_nullable]. by rewrite truthy_JStr. }
    unfold referral_param, order_id_param, stored_value.
    rewrite Href, Hoid, Hnone. cbn [of_nullable].
    unfold merged, JSON_stringify, record.
    rewrite !(js_or_truthy (JStr X)) by by apply truthy_JStr.
    done.
  - intros h b Hnone.
    destruct (localStorage b) as [|items] eqn:Hls.
    + by rewrite (clearReferral_denied h b Hls).
    + rewrite (clearReferral_run h b items Hls). simpl. split; [done|].
      f_equal. apply delete_id. by rewrite <- (persisted_store b items Hls).
Qed.

Lemma clear_then_capture_is_fresh_witness :
  let b := browser_with (Json (record (JStr "old") (JStr "7")
                                 "2024-04-30T09:00:00.000Z" "/")) in
  persisted (captureReferralFromURL (page [("ref", "store2")])
               (clearReferral (page []) b).2).2
  = Some (Json (record (JStr "store2") JNull
                  "2024-05-01T10:00:00.000Z" "/collections/all")) /\
  (clearReferral (page []) fresh_browser).1 = Return tt /\
  localStorage (clearReferral (page []) fresh_browser).2 = localStorage fresh_browser.
Proof.
  intros b. split.
  - apply (proj1 clear_then_capture_is_fresh (page []) (page [("ref", "store2")]) b
             {[STORAGE_KEY := Json (record (JStr "old") (JStr "7")
                                      "2024-04-30T09:00:00.000Z" "/")]} "store2").
    + reflexivity.
    + reflexivity.
    + discriminate.
    + reflexivity.
    + reflexivity.
  - apply (proj2 clear_then_capture_is_fresh (page []) fresh_browser).
    vm_compute. reflexivity.
Defined.

(** C8 as stated fails for the empty referral: after [clearReferral], a
    capture of [?ref=] stores no record at all, so none with [code = ""].
    It fails too when the quota is used up: the capture of [?ref=store2]
    stores nothing. *)
Lemma clear_then_capture_empty_referral_stores_nothing :
  let b := browser_with (Json (record (JStr "old") (JStr "7")
                                 "2024-04-30T09:00:00.000Z" "/")) in
  let h := page [("ref", "")] in
  let h' := out_of_quota (page [("ref", "store2")]) in
  (URLSearchParams_get (location_search h) REFERRAL_PARAM = Some "" /\
   URLSearchParams_get (location_search h) ORDER_ID_PARAM = None /\
   persisted (captureReferralFromURL h (clearReferral h b).2).2 = None) /\
  (URLSearchParams_get (location_search h') REFERRAL_PARAM = Some "store2" /\
   URLSearchParams_get (location_search h') ORDER_ID_PARAM = None /\
   persisted (captureReferralFromURL h' (clearReferral h' b).2).2 = None).
Proof. vm_compute. done. Qed.

(** C1 as stated fails for the empty referral: [?ref=] supplies the
    parameter with the value [""], yet the stored code "A" stays.  It fails
    too when the quota is used up: the capture of [?ref=C] leaves the stored
    code "A". *)
Lemma capture_empty_referral_keeps_stored_code :
  let b := browser_with (Json (record (JStr "A") (JStr "B")
                                 "2024-04-30T09:00:00.000Z" "/")) in
  let h := page [("ref", "")] in
  let h' := out_of_quota (page [("ref", "C")]) in
  (URLSearchParams_get (location_search h) REFERRAL_PARAM = Some "" /\
   URLSearchParams_get (location_search h) ORDER_ID_PARAM = None /\
   field (stored_value (captureReferralFromURL h b).2) "code" = JStr "A" /\
   field (stored_value (captureReferralFromURL h b).2) "code" <> JStr "") /\
  (URLSearchParams_get (location_search h') REFERRAL_PARAM = Some "C" /\
   URLSearchParams_get (location_search h') ORDER_ID_PARAM = None /\
   field (stored_value (captureReferralFromURL h' b).2) "code" = JStr "A" /\
   field (stored_value (captureReferralFromURL h' b).2) "code" <> JStr "C").
Proof. vm_compute. repeat split; done. Qed.

(** [storeReferral] looks at a falsy argument only to find it falsy. *)
Lemma storeReferral_falsy_referral r r' o h b :
  truthy r = false -> truthy r' = false ->
  storeReferral r o h b = storeReferral r' o h b.
Proof.
  intros Hr Hr'. unfold storeReferral, or_else. by rewrite Hr, Hr'.
Qed.

Lemma storeReferral_falsy_orderId r o o' h b :
  truthy o = false -> truthy o' = false ->
  storeReferral r o h b = storeReferral r o' h b.
Proof.
  intros Ho Ho'. unfold storeReferral, or_else. by rewrite Ho, Ho'.
Qed.

Lemma of_nullable_non_empty o :
  truthy (of_nullable o) = true -> of_nullable (non_empty o) = of_nullable o.
Proof. by destruct o as [[|]|]. Qed.

Lemma truthy_non_empty o : truthy (of_nullable (non_empty o)) = truthy (of_nullable o).
Proof. by destruct o as [[|]|]. Qed.

Lemma capture_with_params h b :
  captureReferralFromURL h b = capture_with (referral_param h) (order_id_param h) h b.
Proof. done. Qed.

Lemma capture_with_non_empty r o h b :
  capture_with (of_nullable (non_empty r)) (of_nullable (non_empty o)) h b
  = capture_with (of_nullable r) (of_nullable o) h b.
Proof.
  unfold capture_with, when, js_bind.
  rewrite !truthy_js_or, !truthy_non_empty.
  destruct (truthy (of_nullable r)) eqn:Hr, (truthy (of_nullable o)) eqn:Ho; simpl.
  - by rewrite !of_nullable_non_empty.
  - rewrite (of_nullable_non_empty r) by done.
    by rewrite (storeReferral_falsy_orderId _ (of_nullable (non_empty o)) (of_nullable o))
      by (by rewrite ?truthy_non_empty).
  - rewrite (of_nullable_non_empty o) by done.
    by rewrite (storeReferral_falsy_referral (of_nullable (non_empty r)) (of_nullable r))
      by (by rewrite ?truthy_non_empty).
  - done.
Qed.

(** The methods that store read from the host only the path, the clock and
    the quota. *)
Lemma getStoredReferral_host h h' b : getStoredReferral h b = getStoredReferral h' b.
Proof.
  destruct (getStoredReferral_run h b) as [log Hrun].
  unfold getStoredReferral, try_catch, js_bind, localStorage_getItem.
  destruct (localStorage b); simpl; [done|].
  destruct (_ !! _) as [[v|s]|]; simpl; try done.
  by destruct (negb _).
Qed.

Lemma storeReferral_host r o h h' b :
  location_pathname h = location_pathname h' -> date_now h = date_now h' ->
  quota_exceeded h = quota_exceeded h' ->
  storeReferral r o h b = storeReferral r o h' b.
Proof.
  intros Hp Hd Hq. unfold storeReferral, try_catch, js_bind.
  rewrite (getStoredReferral_host h h' b).
  destruct (getStoredReferral h' b) as [[v|e] b1]; [|done].
  rewrite !get_prop_truthy by apply truthy_or_empty_object.
  unfold or_else, js_ret, ask, localStorage_setItem; simpl.
  rewrite Hp, Hd, Hq.
  destruct (truthy r), (truthy o), (localStorage b1), (quota_exceeded h'); done.
Qed.

Lemma capture_with_host r o h h' b :
  location_pathname h = location_pathname h' -> date_now h = date_now h' ->
  quota_exceeded h = quota_exceeded h' ->
  capture_with r o h b = capture_with r o h' b.
Proof.
  intros Hp Hd Hq. unfold capture_with, when.
  destruct (truthy (r ||| o)); [|done].
  unfold js_bind. rewrite (storeReferral_host r o h h' b Hp Hd Hq).
  destruct (storeReferral r o h' b) as [[[]|e] b1]; [|done].
  by destruct (truthy r), (truthy o).
Qed.

(** C9. A parameter given with the empty string counts as not given:
    two pages whose parameters differ only in that way are captured with the
    same result and the same effects; a capture whose parameters are each
    empty or missing changes nothing; in the merge an empty parameter leaves
    the stored non-empty value of its field in place; and [getReferralCode]
    answers [null] when the stored code is the empty string. *)
Theorem empty_parameter_is_absent :
  (forall (h h' : host) (b : browser),
     location_pathname h' = location_pathname h -> date_now h' = date_now h ->
     quota_exceeded h' = quota_exceeded h ->
     non_empty (URLSearchParams_get (location_search h') REFERRAL_PARAM)
     = non_empty (URLSearchParams_get (location_search h) REFERRAL_PARAM) ->
     non_empty (URLSearchParams_get (location_search h') ORDER_ID_PARAM)
     = non_empty (URLSearchParams_get (location_search h) ORDER_ID_PARAM) ->
     captureReferralFromURL h' b = captureReferralFromURL h b) /\
  (forall (h : host) (b : browser),
     non_empty (URLSearchParams_get (location_search h) REFERRAL_PARAM) = None ->
     non_empty (URLSearchParams_get (location_search h) ORDER_ID_PARAM) = None ->
     captureReferralFromURL h b = (Return tt, b)) /\
  (forall (h : host) (b : browser) (props : list (string * jsval)) (A X : string),
     persisted b = Some (Json (JObj props)) -> A <> "" -> X <> "" ->
     (lookup_prop "code" props = Some (JStr A) ->
      URLSearchParams_get (location_search h) REFERRAL_PARAM = Some "" ->
      URLSearchParams_get (location_search h) ORDER_ID_PARAM = Some X ->
      field (stored_value (captureReferralFromURL h b).2) "code" = JStr A) /\
     (lookup_prop "orderId" props = Some (JStr A) ->
      URLSearchParams_get (location_search h) ORDER_ID_PARAM = Some "" ->
      URLSearchParams_get (location_search h) REFERRAL_PARAM = Some X ->
      field (stored_value (captureReferralFromURL h b).2) "orderId" = JStr A)) /\
  (forall (h : host) (b : browser) (props : list (string * jsval)),
     persisted b = Some (Json (JObj props)) ->
     lookup_prop "code" props = Some (JStr "") ->
     (getReferralCode h b).1 = Return JNull).
Proof.
  split; [|split; [|split]].
  - intros h h' b Hp Hd Hq Hr Ho.
    rewrite !capture_with_params. unfold referral_param, order_id_param.
    rewrite <- (capture_with_non_empty _ _ h' b), <- (capture_with_non_empty _ _ h b).
    rewrite Hr, Ho. by apply capture_with_host.
  - intros h b Hr Ho. apply capture_nothing.
    + unfold referral_param. by rewrite <- truthy_non_empty, Hr.
    + unfold order_id_param. by rewrite <- truthy_non_empty, Ho.
  - intros h b props A X Hrec HA HX.
    assert (exists items, localStorage b = Store items) as [items Hls].
    { unfold persisted in Hrec. destruct (localStorage b); [done | eauto]. }
    destruct (quota_exceeded h) eqn:Hq.
    { rewrite (stored_value_storage b) by (apply capture_refused; by right).
      unfold stored_value. rewrite Hrec. cbn [field].
      split; by intros ->. }
    split; intros Hstored Hempty Hother.
    + unfold stored_value. rewrite (capture_persisted h b items Hls Hq).
      2:{ unfold referral_param, order_id_param. rewrite Hempty, Hother.
          cbn [of_nullable]. by rewrite (truthy_JStr X), orb_true_r. }
      unfold referral_param, stored_value. rewrite Hempty, Hrec.
      cbn [of_nullable]. unfold merged, JSON_stringify.
      change (JObj props ||| JObj []) with (JObj props).
      rewrite (js_or_falsy (JStr "")) by done.
      cbn [field]. rewrite Hstored. cbn [default].
      rewrite !(js_or_truthy (JStr A)) by by apply truthy_JStr.
      simpl. done.
    + unfold stored_value. rewrite (capture_persisted h b items Hls Hq).
      2:{ unfold referral_param, order_id_param. rewrite Hempty, Hother.
          cbn [of_nullable]. by rewrite (truthy_JStr X). }
      unfold order_id_param, stored_value. rewrite Hempty, Hrec.
      cbn [of_nullable]. unfold merged, JSON_stringify.
      change (JObj props ||| JObj []) with (JObj props).
      rewrite (js_or_falsy (JStr "")) by done.
      cbn [field]. rewrite Hstored. cbn [default].
      rewrite !(js_or_truthy (JStr A)) by by apply truthy_JStr.
      unfold referral_param. rewrite Hother. cbn [of_nullable].
      rewrite !(js_or_truthy (JStr X)) by by apply truthy_JStr.
      simpl. done.
  - intros h b props Hrec Hcode.
    unfold getReferralCode, js_bind. rewrite (getStoredReferral_json h b _ Hrec).
    simpl. by rewrite Hcode.
Qed.

Lemma empty_parameter_is_absent_witness :
  let b := browser_with (Json (record (JStr "store1") (JStr "99")
                                 "2024-04-30T09:00:00.000Z" "/")) in
  captureReferralFromURL (page [("ref", ""); ("order_id", "12")]) b
  = captureReferralFromURL (page [("order_id", "12")]) b /\
  captureReferralFromURL (page [("ref", ""); ("order_id", "")]) b = (Return tt, b) /\
  field (stored_value (captureReferralFromURL (page [("ref", ""); ("order_id", "12")]) b).2)
    "code" = JStr "store1" /\
  (getReferralCode (page [])
     (browser_with (Json (record (JStr "") (JStr "99") "2024-04-30T09:00:00.000Z" "/")))).1
  = Return JNull.
Proof.
  intros b. destruct empty_parameter_is_absent as (Hsame & Hnothing & Hmerge & Hcode).
  split; [|split; [|split]].
  - apply (Hsame (page [("order_id", "12")]) (page [("ref", ""); ("order_id", "12")]) b);
      reflexivity.
  - apply (Hnothing (page [("ref", ""); ("order_id", "")]) b); reflexivity.
  - apply (proj1 (Hmerge (page [("ref", ""); ("order_id", "12")]) b
             [("code", JStr "store1"); ("orderId", JStr "99");
              ("capturedAt", JStr "2024-04-30T09:00:00.000Z"); ("landingPage", JStr "/")]
             "store1" "12" ltac:(vm_compute; reflexivity)
             ltac:(discriminate) ltac:(discriminate)));
      reflexivity.
  - apply (Hcode (page []) _
             [("code", JStr ""); ("orderId", JStr "99");
              ("capturedAt", JStr "2024-04-30T09:00:00.000Z"); ("landingPage", JStr "/")]).
    + vm_compute. reflexivity.
    + reflexivity.
Defined.

Lemma settable_of_nullable o : truthy (of_nullable o) = true -> settable (of_nullable o).
Proof. destruct o as [[|]|]; try done. intros _. right. eauto. Qed.

Lemma settable_truthy v : settable v -> truthy v = true -> exists s, v = JStr s /\ s <> "".
Proof. by intros [-> | ?]. Qed.

(** A field after the merge: the parameter when there is one, else what was
    stored, else [null]. *)
Lemma settable_merge param old :
  (truthy param = true -> settable param) -> (truthy old = true -> settable old) ->
  settable (param ||| old ||| JNull) /\
  truthy (param ||| old ||| JNull) = truthy param || truthy old.
Proof.
  intros Hp Ho. unfold js_or.
  destruct (truthy param) eqn:Ep; [rewrite Ep; auto|].
  destruct (truthy old) eqn:Eo; [auto | by split; [left|]].
Qed.

Lemma to_json_settable v : settable v -> to_json v = v /\ v <> JUndefined.
Proof. by intros [-> | (s & -> & _)]. Qed.

Lemma well_formed_merged r o existing h :
  (truthy r = true -> settable r) -> (truthy o = true -> settable o) ->
  (truthy (field existing "code") = true -> settable (field existing "code")) ->
  (truthy (field existing "orderId") = true -> settable (field existing "orderId")) ->
  truthy r || truthy o = true ->
  exists code orderId,
    JSON_stringify (merged r o existing h)
    = Json (record code orderId (date_now h) (location_pathname h)) /\
    settable code /\ settable orderId /\ (truthy code = true \/ truthy orderId = true).
Proof.
  intros Hr Ho Hc Hoid Hany.
  destruct (settable_merge r (field existing "code") Hr Hc) as [Hsc Htc].
  destruct (settable_merge o (field existing "orderId") Ho Hoid) as [Hso Hto].
  eexists _, _. split; [|split; [exact Hsc | split; [exact Hso|]]].
  - unfold JSON_stringify, merged, record. 
    destruct (to_json_settable _ Hsc) as [Hjc Huc], (to_json_settable _ Hso) as [Hjo Huo].
    cbn [to_json]. rewrite Hjc, Hjo.
    destruct (_ ||| JNull) eqn:E1; try done; destruct (o ||| _ ||| JNull) eqn:E2; done.
  - rewrite Htc, Hto. apply orb_true_iff in Hany as [->| ->]; rewrite ?orb_true_r; auto.
Qed.

Lemma well_formed_existing b :
  well_formed b ->
  let existing := stored_value b ||| JObj [] in
  (truthy (field existing "code") = true -> settable (field existing "code")) /\
  (truthy (field existing "orderId") = true -> settable (field existing "orderId")).
Proof.
  intros Hwf. unfold stored_value.
  destruct (persisted b) as [t|] eqn:Hp; [|by split].
  destruct (Hwf t Hp) as (c & o & ca & lp & -> & Hc & Ho & _).
  by split.
Qed.

Lemma well_formed_capture h b : well_formed b -> well_formed (captureReferralFromURL h b).2.
Proof.
  intros Hwf.
  destruct (truthy (referral_param h) || truthy (order_id_param h)) eqn:Hany.
  2:{ apply orb_false_iff in Hany as [Hr Ho]. by rewrite capture_nothing. }
  destruct (capture_something h b Hany) as [log Hcap].
  destruct (localStorage b) as [|items] eqn:Hls.
  { destruct (storeReferral_refused h b (referral_param h) (order_id_param h)) as [log' Hst];
      [by left|].
    rewrite Hcap, Hst. intros t. unfold persisted; simpl. by rewrite Hls. }
  destruct (quota_exceeded h) eqn:Hq.
  { destruct (storeReferral_refused h b (referral_param h) (order_id_param h)) as [log' Hst];
      [by right|].
    rewrite Hcap, Hst. intros t Ht. apply Hwf. revert Ht. unfold persisted; simpl.
    by rewrite Hls. }
  intros t. rewrite (capture_persisted h b items Hls Hq Hany). intros [= <-].
  destruct (well_formed_existing b Hwf) as [Hc Ho].
  destruct (well_formed_merged (referral_param h) (order_id_param h)
              (stored_value b ||| JObj []) h) as (c & o & -> & Hsc & Hso & Hset); try done.
  - apply settable_of_nullable.
  - apply settable_of_nullable.
  - by exists c, o, (date_now h), (location_pathname h).
Qed.

Lemma well_formed_keeps (m : js unit) h b :
  keeps_storage m -> well_formed b -> well_formed (m h b).2.
Proof. intros Hk Hwf t. unfold persisted. rewrite Hk. apply Hwf. Qed.

Lemma keeps_discard {A} (m : js A) : keeps_storage m -> keeps_storage (m ;; js_ret tt).
Proof. intros. apply keeps_bind; [done | intros; apply keeps_ret]. Qed.

Lemma well_formed_perform op h b : well_formed b -> well_formed (perform op h b).2.
Proof.
  destruct op; simpl.
  - apply well_formed_capture.
  - apply well_formed_keeps, keeps_syncReferralToCart.
  - intros _ t. by rewrite persisted_after_clear.
  - apply well_formed_keeps, keeps_discard, keeps_getStoredReferral.
  - apply well_formed_keeps, keeps_discard, keeps_getReferralCode.
Qed.

Lemma well_formed_run calls b : well_formed b -> well_formed (run calls b).
Proof.
  revert b. induction calls as [|[op h] rest IH]; intros b Hwf; simpl; [done|].
  by apply IH, well_formed_perform.
Qed.

(** C2. Start with nothing under the key and make any calls of
    [captureReferralFromURL], [syncReferralToCart], [clearReferral],
    [getStoredReferral] and [getReferralCode], each in any host: whenever a
    record is then stored, its [code] or its [orderId] is there and not
    [null].  In particular a capture that finds neither parameter leaves
    what is stored, or that nothing is stored, as it was. *)
Theorem persisted_record_has_a_field :
  (forall (calls : list (operation * host)) (b : browser) (t : text),
     persisted b = None ->
     persisted (run calls b) = Some t ->
     exists rec, t = Json rec /\
       (non_null (field rec "code") \/ non_null (field rec "orderId"))) /\
  (forall (h : host) (b : browser),
     URLSearchParams_get (location_search h) REFERRAL_PARAM = None ->
     URLSearchParams_get (location_search h) ORDER_ID_PARAM = None ->
     persisted (captureReferralFromURL h b).2 = persisted b).
Proof.
  split.
  - intros calls b t Hnone Hrun.
    assert (Hwf : well_formed b) by (intros t'; by rewrite Hnone).
    destruct (well_formed_run calls b Hwf t Hrun)
      as (c & o & ca & lp & -> & Hc & Ho & Hset).
    eexists; split; [done|]. simpl.
    destruct Hset as [Ht | Ht]; [left | right].
    + destruct (settable_truthy c Hc Ht) as (s & -> & _). by split.
    + destruct (settable_truthy o Ho Ht) as (s & -> & _). by split.
  - intros h b Hr Ho. rewrite capture_nothing; [done | |].
    + unfold referral_param. by rewrite Hr.
    + unfold order_id_param. by rewrite Ho.
Qed.

Lemma persisted_record_has_a_field_witness :
  let calls := [(Capture, page [("order_id", "12")]);
                (Reconcile, storefront (JObj [("attributes", JObj [])]));
                (CurrentCode, page [])] in
  (exists rec,
     Json (record JNull (JStr "12") "2024-05-01T10:00:00.000Z" "/collections/all") = Json rec /\
     (non_null (field rec "code") \/ non_null (field rec "orderId"))) /\
  persisted (captureReferralFromURL (page []) fresh_browser).2 = persisted fresh_browser.
Proof.
  intros calls. split.
  - apply (proj1 persisted_record_has_a_field calls fresh_browser).
    + vm_compute. reflexivity.
    + vm_compute. reflexivity.
  - apply (proj2 persisted_record_has_a_field (page []) fresh_browser); reflexivity.
Defined.

(** ** Further properties

    What the methods do beyond the cases above, and the parts of the script
    around them: the earlier capture, [init] and the cart listener. *)

(** *** Every run of [syncReferralToCart] *)

Lemma truthy_field_obj v k : truthy (field v k) = true -> exists props, v = JObj props.
Proof. destruct v; try done. eauto. Qed.

Lemma sync_run_nothing h b :
  truthy (field (stored_value b) "code") = false ->
  truthy (field (stored_value b) "orderId") = false ->
  exists log,
    syncReferralToCart h b
    = (Return tt, mkBrowser (localStorage b) (console b ++ log) (network b)).
Proof.
  intros Hc Ho. destruct (getStoredReferral_run h b) as [log Hrun]. exists log.
  unfold syncReferralToCart. unfold js_bind at 1. rewrite Hrun.
  destruct (truthy (stored_value b)) eqn:Hv.
  - rewrite !(get_prop_truthy _ _ Hv).
    unfold or_else, and_then, js_not, js_bind, js_ret; simpl.
    by rewrite Hv, Hc, Ho.
  - unfold or_else, and_then, js_not, js_bind, js_ret; simpl. by rewrite Hv.
Qed.

Lemma sync_run_failed h b rec e :
  persisted b = Some (Json rec) ->
  truthy (field rec "code") || truthy (field rec "orderId") = true ->
  fetched_cart h = Throw e \/
  ((fetched_cart h = Return JNull \/ fetched_cart h = Return JUndefined) /\ e = TypeError) ->
  syncReferralToCart h b
  = (Return tt, mkBrowser (localStorage b) (console b ++ [ErrUpdateCart e])
                  (network b ++ [GET "/cart.js"])).
Proof.
  intros Hrec Hset Hfail.
  assert (truthy rec = true) as Hv.
  { apply orb_true_iff in Hset as [H|H]; apply truthy_field_obj in H as [? ->]; done. }
  unfold syncReferralToCart. unfold js_bind at 1.
  rewrite (getStoredReferral_json h b _ Hrec).
  rewrite !(get_prop_truthy _ _ Hv).
  unfold or_else, and_then, js_not, js_bind, try_catch, js_ret; simpl.
  rewrite Hv; simpl.
  unfold fetched_cart in Hfail.
  destruct (truthy (field rec "code")) eqn:Hc; simpl.
  - rewrite fetch_run.
    destruct (remote h (GET "/cart.js")) as [[st [cart|]]|]; simpl.
    + destruct Hfail as [?|[[[= ->]|[= ->]] ->]]; done.
    + destruct Hfail as [[= <-]|[[?|?] _]]; done.
    + destruct Hfail as [[= <-]|[[?|?] _]]; done.
  - simpl in Hset. rewrite Hset. simpl. rewrite fetch_run.
    destruct (remote h (GET "/cart.js")) as [[st [cart|]]|]; simpl.
    + destruct Hfail as [?|[[[= ->]|[= ->]] ->]]; done.
    + destruct Hfail as [[= <-]|[[?|?] _]]; done.
    + destruct Hfail as [[= <-]|[[?|?] _]]; done.
Qed.

Lemma sync_run_cart h b rec cart :
  persisted b = Some (Json rec) ->
  truthy (field rec "code") || truthy (field rec "orderId") = true ->
  fetched_cart h = Return cart -> cart <> JNull -> cart <> JUndefined ->
  syncReferralToCart h b
  = (Return tt,
     if field_matches cart (field rec "code") CART_ATTRIBUTE_KEY
        && field_matches cart (field rec "orderId") ORDER_ID_ATTRIBUTE_KEY
     then mkBrowser (localStorage b) (console b) (network b ++ [GET "/cart.js"])
     else mkBrowser (localStorage b) (console b ++ update_log h rec)
            (network b ++ [GET "/cart.js"; update_for rec])).
Proof.
  intros Hrec Hset Hcart Hnn Hnu.
  assert (truthy rec = true) as Hv.
  { apply orb_true_iff in Hset as [H|H]; apply truthy_field_obj in H as [? ->]; done. }
  assert (forall k, get_prop cart k = js_ret (field cart k)) as Hget.
  { intros k. by destruct cart. }
  unfold syncReferralToCart. unfold js_bind at 1.
  rewrite (getStoredReferral_json h b _ Hrec).
  rewrite !(get_prop_truthy _ _ Hv).
  unfold update_log, update_for, update_attributes, field_matches.
  set (c := field rec "code") in *. set (o := field rec "orderId") in *.
  set (attrs := field cart "attributes").
  unfold fetched_cart in Hcart.
  unfold or_else, and_then, js_not, js_bind, try_catch, js_ret, when; simpl.
  rewrite Hv; simpl.
  destruct (truthy c) eqn:Hc, (truthy o) eqn:Ho; simpl in *; try done.
  all: rewrite fetch_run;
    destruct (remote h (GET "/cart.js")) as [[st [cart'|]]|]; simpl in *; try done.
  all: injection Hcart as ->.
  all: rewrite ?Hget; unfold js_ret; simpl; fold attrs.
  all: destruct (truthy attrs) eqn:Ha; simpl.
  all: repeat (simpl; first
     [ done
     | rewrite truthy_js_and
     | rewrite fetch_run
     | match goal with
       | H : truthy ?a = true |- context [get_prop ?a ?k] =>
           rewrite (get_prop_truthy a k H); unfold js_ret
       | H : truthy ?a = _ |- context [truthy ?a] => rewrite H
       | |- context [strict_equals (field ?a ?k) ?v] =>
           destruct (strict_equals (field a k) v) eqn:?
       | |- context [match remote ?h' ?r with _ => _ end] =>
           destruct (remote h' r) as [[[] ?]|]
       end
     | rewrite app_nil_r
     | rewrite <- app_assoc ]).
Qed.

Lemma stored_value_set b k :
  truthy (field (stored_value b) k) = true -> persisted b = Some (Json (stored_value b)).
Proof. unfold stored_value. by destruct (persisted b) as [[v|s]|]. Qed.

Lemma getStoredReferral_trace h b :
  exists log,
    getStoredReferral h b
    = (Return (stored_value b), mkBrowser (localStorage b) (console b ++ log) (network b)) /\
    (log = [] \/ exists e, log = [ErrRetrieve e]).
Proof.
  unfold stored_value, persisted, getStoredReferral, try_catch, js_bind,
    localStorage_getItem.
  destruct b as [ls con net]; simpl.
  destruct ls as [|items]; simpl.
  { exists [ErrRetrieve SecurityError]. eauto. }
  destruct (items !! STORAGE_KEY) as [[v|s]|]; simpl.
  - exists []. rewrite app_nil_r. auto.
  - destruct (String.eqb s ""); simpl.
    + exists []. rewrite app_nil_r. auto.
    + exists [ErrRetrieve SyntaxError]. eauto.
  - exists []. rewrite app_nil_r. auto.
Qed.

Lemma sync_run_idle h b :
  truthy (field (stored_value b) "code") = false ->
  truthy (field (stored_value b) "orderId") = false ->
  exists log,
    syncReferralToCart h b
    = (Return tt, mkBrowser (localStorage b) (console b ++ log) (network b)) /\
    (log = [] \/ exists e, log = [ErrRetrieve e]).
Proof.
  intros Hc Ho. destruct (getStoredReferral_trace h b) as (log & Hrun & Hlog).
  exists log. split; [|done].
  unfold syncReferralToCart. unfold js_bind at 1. rewrite Hrun.
  destruct (truthy (stored_value b)) eqn:Hv.
  - rewrite !(get_prop_truthy _ _ Hv).
    unfold or_else, and_then, js_not, js_bind, js_ret; simpl.
    by rewrite Hv, Hc, Ho.
  - unfold or_else, and_then, js_not, js_bind, js_ret; simpl. by rewrite Hv.
Qed.

(** The three ways a run can go. *)
Lemma sync_cases h b :
  exists log l,
    syncReferralToCart h b
    = (Return tt, mkBrowser (localStorage b) (console b ++ log) (network b ++ l)) /\
    ((l = [] /\ (log = [] \/ exists e, log = [ErrRetrieve e]) /\
      truthy (field (stored_value b) "code") || truthy (field (stored_value b) "orderId")
      = false) \/
     (l = [GET "/cart.js"] /\ (log = [] \/ exists e, log = [ErrUpdateCart e])) \/
     (l = [GET "/cart.js"; update_for (stored_value b)] /\
      log = update_log h (stored_value b))).
Proof.
  set (rec := stored_value b).
  destruct (truthy (field rec "code") || truthy (field rec "orderId")) eqn:Hset.
  2:{ apply orb_false_iff in Hset as [Hc Ho].
      destruct (sync_run_idle h b Hc Ho) as (log & Hrun & Hlog).
      exists log, []. rewrite app_nil_r. split; [done|]. by left. }
  assert (Hrec : persisted b = Some (Json rec)).
  { apply orb_true_iff in Hset as [H|H]; by apply stored_value_set in H. }
  destruct (fetched_cart h) as [cart|e] eqn:Hcart.
  2:{ exists [ErrUpdateCart e], [GET "/cart.js"].
      split; [by apply (sync_run_failed h b rec e); [| |left]|]. right; left. eauto. }
  assert (cart = JNull \/ cart = JUndefined \/ (cart <> JNull /\ cart <> JUndefined))
    as [-> | [-> | [Hnn Hnu]]] by (destruct cart; auto).
  1,2: exists [ErrUpdateCart TypeError], [GET "/cart.js"];
       (split; [apply (sync_run_failed h b rec); [done..|]; right; auto
               | right; left; eauto]).
  rewrite (sync_run_cart h b rec cart Hrec Hset Hcart Hnn Hnu).
  destruct (_ && _).
  - exists [], [GET "/cart.js"]. rewrite app_nil_r. split; [done|]. right; left. auto.
  - exists (update_log h rec), [GET "/cart.js"; update_for rec]. split; [done|].
    right; right. done.
Qed.

Lemma json_prop_truthy v : truthy v = true -> json_prop v = Some (to_json v).
Proof. by destruct v. Qed.

(** The attributes an update carries, key by key. *)
Lemma update_for_attributes rec :
  exists body m,
    update_for rec = POST "/cart/update.js" json_headers body /\
    sent_attributes body = Some m /\
    m !! LANDING_PAGE_ATTRIBUTE_KEY = json_prop (field rec "landingPage") /\
    m !! CAPTURED_AT_ATTRIBUTE_KEY = json_prop (field rec "capturedAt") /\
    m !! CART_ATTRIBUTE_KEY
    = (if truthy (field rec "code") then Some (to_json (field rec "code")) else None) /\
    m !! ORDER_ID_ATTRIBUTE_KEY
    = (if truthy (field rec "orderId") then Some (to_json (field rec "orderId")) else None) /\
    (forall k, k <> LANDING_PAGE_ATTRIBUTE_KEY -> k <> CAPTURED_AT_ATTRIBUTE_KEY ->
               k <> CART_ATTRIBUTE_KEY -> k <> ORDER_ID_ATTRIBUTE_KEY -> m !! k = None).
Proof.
  unfold update_for, JSON_stringify. eexists _, _. split; [done|].
  rewrite to_json_obj. cbn [json_props json_prop sent_attributes field lookup_prop
    String.eqb Ascii.eqb Bool.eqb default].
  rewrite to_json_obj. split; [done|].
  unfold update_attributes.
  set (lp := field rec "landingPage"). set (ca := field rec "capturedAt").
  set (c := field rec "code"). set (o := field rec "orderId").
  destruct (truthy c) eqn:Hc, (truthy o) eqn:Ho; simpl;
    rewrite ?(json_prop_truthy c Hc), ?(json_prop_truthy o Ho);
    destruct (json_prop lp), (json_prop ca); simpl.
  all: repeat split; try (intros k ? ? ? ?); by simplify_map_eq.
Qed.

(** X1. Whatever is stored and whatever the remote end does,
    [syncReferralToCart] sends nothing, or only the fetch of the cart, or the
    fetch followed by one update to [/cart/update.js] with the JSON headers:
    never an update without the fetch, never two updates. *)
Theorem syncReferralToCart_sends_at_most_one_update (h : host) (b : browser) :
  exists l,
    network (syncReferralToCart h b).2 = network b ++ l /\
    (l = [] \/ l = [GET "/cart.js"] \/
     exists body, l = [GET "/cart.js"; POST "/cart/update.js" json_headers body]) /\
    length (updates (syncReferralToCart h b).2) <= length (updates b) + 1.
Proof.
  destruct (sync_cases h b) as (log & l & -> & Hl). exists l. simpl.
  split; [done|]. unfold updates; simpl. rewrite filter_app, length_app.
  destruct Hl as [(-> & _) | [(-> & _) | (-> & _)]]; simpl.
  - split; [auto | lia].
  - split; [auto | lia].
  - split; [right; right; by eexists | done].
Qed.

(** X2. With no tracked field set in what is stored (nothing stored, content
    that does not parse, storage out of reach, a record whose [code] and
    [orderId] are both empty or [null]), [syncReferralToCart] returns at once:
    no request goes out, not even the fetch of the cart. *)
Theorem syncReferralToCart_idle_without_set_field (h : host) (b : browser) :
  truthy (field (stored_value b) "code") = false ->
  truthy (field (stored_value b) "orderId") = false ->
  (syncReferralToCart h b).1 = Return tt /\
  network (syncReferralToCart h b).2 = network b /\
  localStorage (syncReferralToCart h b).2 = localStorage b.
Proof.
  intros Hc Ho. by destruct (sync_run_idle h b Hc Ho) as (log & -> & _).
Qed.

Lemma syncReferralToCart_idle_without_set_field_witness :
  let h := storefront (JObj [("attributes", JObj [])]) in
  let b := browser_with (Json (record JNull (JStr "") "2024-05-01T10:00:00.000Z" "/")) in
  (syncReferralToCart h b).1 = Return tt /\
  network (syncReferralToCart h b).2 = network b /\
  localStorage (syncReferralToCart h b).2 = localStorage b.
Proof.
  intros h b. apply (syncReferralToCart_idle_without_set_field h b).
  - vm_compute. reflexivity.
  - vm_compute. reflexivity.
Defined.

(** X3. When the cart cannot be had (the fetch is rejected, its body is not
    JSON, or the body is [null]), a record with a field set leads to exactly
    one request, the fetch; the failure is logged as the one new line of the
    console and no update is sent. *)
Theorem syncReferralToCart_gives_up_without_cart
    (h : host) (b : browser) (rec : jsval) (e : exn) :
  persisted b = Some (Json rec) ->
  truthy (field rec "code") || truthy (field rec "orderId") = true ->
  fetched_cart h = Throw e \/ (fetched_cart h = Return JNull /\ e = TypeError) ->
  network (syncReferralToCart h b).2 = network b ++ [GET "/cart.js"] /\
  console (syncReferralToCart h b).2 = console b ++ [ErrUpdateCart e] /\
  updates (syncReferralToCart h b).2 = updates b.
Proof.
  intros Hrec Hset Hfail.
  rewrite (sync_run_failed h b rec e Hrec Hset) by (destruct Hfail as [?|[? ?]]; auto).
  simpl. repeat split. unfold updates; simpl. rewrite filter_app. simpl.
  by rewrite app_nil_r.
Qed.

Lemma syncReferralToCart_gives_up_without_cart_witness :
  let h := page [] in
  let b := browser_with (Json (record (JStr "store1") JNull "2024-05-01T10:00:00.000Z" "/")) in
  network (syncReferralToCart h b).2 = network b ++ [GET "/cart.js"] /\
  console (syncReferralToCart h b).2 = console b ++ [ErrUpdateCart NetworkError] /\
  updates (syncReferralToCart h b).2 = updates b.
Proof.
  intros h b.
  apply (syncReferralToCart_gives_up_without_cart h b
           (record (JStr "store1") JNull "2024-05-01T10:00:00.000Z" "/") NetworkError).
  - vm_compute. reflexivity.
  - reflexivity.
  - left. reflexivity.
Defined.

(** X4. The converse of the skip: with a cart fetched as a JSON object, if a
    tracked field that is set in the record is not identical to the cart
    attribute of its key (the attribute is missing, or different, or the
    cart has no [attributes]), the update is sent. *)
Theorem syncReferralToCart_writes_when_cart_differs
    (h : host) (b : browser) (rec : jsval) (cart_props : list (string * jsval)) :
  persisted b = Some (Json rec) ->
  fetched_cart h = Return (JObj cart_props) ->
  (truthy (field rec "code") = true /\
   strict_equals (field (field (JObj cart_props) "attributes") CART_ATTRIBUTE_KEY)
     (field rec "code") = false) \/
  (truthy (field rec "orderId") = true /\
   strict_equals (field (field (JObj cart_props) "attributes") ORDER_ID_ATTRIBUTE_KEY)
     (field rec "orderId") = false) ->
  network (syncReferralToCart h b).2 = network b ++ [GET "/cart.js"; update_for rec] /\
  updates (syncReferralToCart h b).2 = updates b ++ [update_for rec].
Proof.
  intros Hrec Hcart Hdiff.
  assert (Hset : truthy (field rec "code") || truthy (field rec "orderId") = true).
  { destruct Hdiff as [[-> _] | [-> _]]; by rewrite ?orb_true_r. }
  rewrite (sync_run_cart h b rec _ Hrec Hset Hcart) by done.
  assert (field_matches (JObj cart_props) (field rec "code") CART_ATTRIBUTE_KEY
          && field_matches (JObj cart_props) (field rec "orderId") ORDER_ID_ATTRIBUTE_KEY
          = false) as ->.
  { unfold field_matches.
    destruct Hdiff as [[-> ->] | [-> ->]]; by rewrite ?andb_false_r, ?orb_false_r. }
  simpl. split; [done|]. unfold updates; simpl. by rewrite filter_app.
Qed.

Lemma syncReferralToCart_writes_when_cart_differs_witness :
  let rec := record (JStr "store1") JNull "2024-05-01T10:00:00.000Z" "/" in
  let h := storefront (JObj [("attributes", JObj [(CART_ATTRIBUTE_KEY, JStr "store2")])]) in
  let b := browser_with (Json rec) in
  network (syncReferralToCart h b).2 = network b ++ [GET "/cart.js"; update_for rec] /\
  updates (syncReferralToCart h b).2 = updates b ++ [update_for rec].
Proof.
  intros rec h b.
  apply (syncReferralToCart_writes_when_cart_differs h b rec
           [("attributes", JObj [(CART_ATTRIBUTE_KEY, JStr "store2")])]).
  - vm_compute. reflexivity.
  - reflexivity.
  - left. split; reflexivity.
Defined.

(** X5. What an update carries.  Whenever [syncReferralToCart] sends an
    update, it goes to [/cart/update.js] with the JSON headers, and its
    attributes are: the landing page and the capture time of the stored
    record (when it has them), the referral key with the stored code exactly
    when the code is set, the order-id key with the stored order id exactly
    when that is set, and nothing else. *)
Theorem syncReferralToCart_update_payload (h : host) (b : browser) (req : request) :
  network (syncReferralToCart h b).2 = network b ++ [GET "/cart.js"; req] ->
  let rec := stored_value b in
  exists body m,
    req = POST "/cart/update.js" json_headers body /\
    sent_attributes body = Some m /\
    m !! LANDING_PAGE_ATTRIBUTE_KEY = json_prop (field rec "landingPage") /\
    m !! CAPTURED_AT_ATTRIBUTE_KEY = json_prop (field rec "capturedAt") /\
    m !! CART_ATTRIBUTE_KEY
    = (if truthy (field rec "code") then Some (to_json (field rec "code")) else None) /\
    m !! ORDER_ID_ATTRIBUTE_KEY
    = (if truthy (field rec "orderId") then Some (to_json (field rec "orderId")) else None) /\
    (forall k, k <> LANDING_PAGE_ATTRIBUTE_KEY -> k <> CAPTURED_AT_ATTRIBUTE_KEY ->
               k <> CART_ATTRIBUTE_KEY -> k <> ORDER_ID_ATTRIBUTE_KEY -> m !! k = None).
Proof.
  intros Hnet rec.
  destruct (sync_cases h b) as (log & l & Hrun & Hl). rewrite Hrun in Hnet.
  simpl in Hnet. apply app_inv_head in Hnet. subst l.
  destruct Hl as [([=] & _) | [([=] & _) | ([= ->] & _)]].
  apply update_for_attributes.
Qed.

Lemma syncReferralToCart_update_payload_witness :
  let rec := record (JStr "store1") JNull "2024-05-01T10:00:00.000Z" "/" in
  exists body m,
    update_for rec = POST "/cart/update.js" json_headers body /\
    sent_attributes body = Some m /\
    m !! LANDING_PAGE_ATTRIBUTE_KEY = Some (JStr "/") /\
    m !! CAPTURED_AT_ATTRIBUTE_KEY = Some (JStr "2024-05-01T10:00:00.000Z") /\
    m !! CART_ATTRIBUTE_KEY = Some (JStr "store1") /\
    m !! ORDER_ID_ATTRIBUTE_KEY = None /\
    (forall k, k <> LANDING_PAGE_ATTRIBUTE_KEY -> k <> CAPTURED_AT_ATTRIBUTE_KEY ->
               k <> CART_ATTRIBUTE_KEY -> k <> ORDER_ID_ATTRIBUTE_KEY -> m !! k = None).
Proof.
  intros rec.
  apply (syncReferralToCart_update_payload
           (storefront (JObj [("attributes", JObj [])])) (browser_with (Json rec))
           (update_for rec)).
  vm_compute. reflexivity.
Defined.

Ltac in_list :=
  repeat match goal with
  | H : _ ∈ _ :: _ |- _ => apply elem_of_cons in H as [H|H]
  | H : _ ∈ [] |- _ => by apply elem_of_nil in H
  | H : _ ∈ _ ++ _ |- _ => apply elem_of_app in H as [H|H]
  end.

Lemma update_log_success h rec :
  (forall v, LogAttributeReferral v ∈ update_log h rec ->
     v = field rec "code" /\ truthy v = true /\
     exists r, remote h (update_for rec) = Some r /\ ok r = true) /\
  (forall v, LogAttributeOrderId v ∈ update_log h rec ->
     v = field rec "orderId" /\ truthy v = true /\
     exists r, remote h (update_for rec) = Some r /\ ok r = true).
Proof.
  unfold update_log.
  destruct (remote h (update_for rec)) as [r|]; [|split; intros v Hin; by in_list].
  destruct (ok r) eqn:Hok; [|split; intros v Hin; by in_list].
  destruct (truthy (field rec "code")) eqn:Hc, (truthy (field rec "orderId")) eqn:Ho;
    split; intros v Hin; simpl in Hin; in_list; try done.
  all: injection Hin as ->; eauto.
Qed.

(** X6. A success line is logged only for an update that was answered with
    [ok]: if the console gains "cart attribute updated with referral" (or
    "... with order_id"), the update went out, the remote end answered it
    with [ok], and the value named is the stored field, which is set. *)
Theorem syncReferralToCart_reports_only_answered_updates
    (h : host) (b : browser) (v : jsval) :
  let rec := stored_value b in
  (LogAttributeReferral v ∈ console (syncReferralToCart h b).2 ->
   LogAttributeReferral v ∈ console b \/
   (v = field rec "code" /\ truthy v = true /\
    exists r, remote h (update_for rec) = Some r /\ ok r = true)) /\
  (LogAttributeOrderId v ∈ console (syncReferralToCart h b).2 ->
   LogAttributeOrderId v ∈ console b \/
   (v = field rec "orderId" /\ truthy v = true /\
    exists r, remote h (update_for rec) = Some r /\ ok r = true)).
Proof.
  intros rec. destruct (sync_cases h b) as (log & l & -> & Hl). simpl. fold rec in Hl.
  destruct (update_log_success h rec) as [Hreferral HorderId].
  assert (Hlog : (log = [] \/ (exists e, log = [ErrRetrieve e]) \/
                  (exists e, log = [ErrUpdateCart e])) \/ log = update_log h rec).
  { destruct Hl as [(_ & [?|?] & _) | [(_ & [?|?]) | (_ & ?)]]; eauto. }
  split; intros Hin; apply elem_of_app in Hin as [?|Hin]; auto; right.
  all: destruct Hlog as [[-> | [[e ->] | [e ->]]] | ->]; try (by in_list).
  - by apply Hreferral.
  - by apply HorderId.
Qed.

Lemma syncReferralToCart_reports_only_answered_updates_witness :
  let rec := record (JStr "store1") (JStr "12") "2024-05-01T10:00:00.000Z" "/" in
  let h := storefront (JObj [("attributes", JObj [])]) in
  let b := browser_with (Json rec) in
  (LogAttributeReferral (JStr "store1") ∈ console b \/
   (JStr "store1" = field (stored_value b) "code" /\ truthy (JStr "store1") = true /\
    exists r, remote h (update_for (stored_value b)) = Some r /\ ok r = true)) /\
  (LogAttributeOrderId (JStr "12") ∈ console b \/
   (JStr "12" = field (stored_value b) "orderId" /\ truthy (JStr "12") = true /\
    exists r, remote h (update_for (stored_value b)) = Some r /\ ok r = true)).
Proof.
  intros rec h b. split.
  - apply (proj1 (syncReferralToCart_reports_only_answered_updates h b (JStr "store1"))).
    vm_compute. left.
  - apply (proj2 (syncReferralToCart_reports_only_answered_updates h b (JStr "12"))).
    vm_compute. right. left.
Defined.

Lemma strict_equals_settable v : truthy v = true -> settable v -> strict_equals v v = true.
Proof. intros Hv [-> | (s & -> & _)]; [done|]. simpl. apply String.eqb_refl. Qed.

Lemma to_json_settable' v : settable v -> to_json v = v.
Proof. by intros [-> | (s & -> & _)]. Qed.

Lemma keeps_persisted {A} (m : js A) h b :
  keeps_storage m -> persisted (m h b).2 = persisted b.
Proof. intros Hk. unfold persisted. by rewrite Hk. Qed.

(** X7. Two runs in a row settle.  Take a record as the tracker writes it.
    If a run sent an update and the cart fetched by the next run carries the
    attributes of that update, the next run sends the fetch and nothing
    more. *)
Theorem syncReferralToCart_settles
    (h1 h2 : host) (b : browser) (body : text) (m : gmap string jsval)
    (cart_props attrs : list (string * jsval)) :
  well_formed b ->
  network (syncReferralToCart h1 b).2
  = network b ++ [GET "/cart.js"; POST "/cart/update.js" json_headers body] ->
  sent_attributes body = Some m ->
  fetched_cart h2 = Return (JObj cart_props) ->
  lookup_prop "attributes" cart_props = Some (JObj attrs) ->
  (forall k v, m !! k = Some v -> lookup_prop k attrs = Some v) ->
  network (syncReferralToCart h2 (syncReferralToCart h1 b).2).2
  = network (syncReferralToCart h1 b).2 ++ [GET "/cart.js"].
Proof.
  intros Hwf Hnet Hm Hcart Hattrs Hcarries.
  destruct (update_for_attributes (stored_value b))
    as (body' & m' & Hupdate & Hm' & _ & _ & Hc & Ho & _).
  assert (body' = body) as ->.
  { destruct (sync_cases h1 b) as (log & l & Hrun & Hl).
    rewrite Hrun in Hnet. simpl in Hnet. apply app_inv_head in Hnet. subst l.
    destruct Hl as [([=] & _) | [([=] & _) | ([= Hsent] & _)]].
    unfold update_for in Hupdate. by injection Hupdate as <-. }
  rewrite Hm in Hm'. injection Hm' as <-.
  set (b1 := (syncReferralToCart h1 b).2) in *.
  assert (Hp1 : persisted b1 = persisted b) by apply keeps_persisted, keeps_syncReferralToCart.
  destruct (persisted b) as [t|] eqn:Hp.
  2:{ destruct (sync_run_idle h1 b) as (log & Hidle & _);
        [unfold stored_value; by rewrite Hp..|].
      apply (f_equal (fun r => network r.2)) in Hidle. simpl in Hidle.
      fold b1 in Hidle. rewrite Hidle in Hnet.
      rewrite <- (app_nil_r (network b)) in Hnet at 1.
      by apply app_inv_head in Hnet. }
  destruct (Hwf t Hp) as (c & o & ca & lp & -> & Hsc & Hso & Hset).
  set (rec := record c o ca lp) in *.
  assert (Hrec : stored_value b = rec) by (unfold stored_value; by rewrite Hp).
  rewrite Hrec in Hc, Ho. simpl in Hc, Ho.
  assert (Hany : truthy (field rec "code") || truthy (field rec "orderId") = true).
  { simpl. destruct Hset as [-> | ->]; by rewrite ?orb_true_r. }
  rewrite (sync_run_cart h2 b1 rec _ Hp1 Hany Hcart) by done.
  assert (field_matches (JObj cart_props) (field rec "code") CART_ATTRIBUTE_KEY = true
          /\ field_matches (JObj cart_props) (field rec "orderId") ORDER_ID_ATTRIBUTE_KEY
             = true) as [-> ->]; [|done].
  unfold field_matches. simpl. rewrite Hattrs. simpl.
  split.
  - destruct (truthy c) eqn:Htc; [|done]. simpl.
    rewrite (to_json_settable' c Hsc) in Hc.
    rewrite (Hcarries _ _ Hc). simpl. by apply strict_equals_settable.
  - destruct (truthy o) eqn:Hto; [|done]. simpl.
    rewrite (to_json_settable' o Hso) in Ho.
    rewrite (Hcarries _ _ Ho). simpl. by apply strict_equals_settable.
Qed.

Lemma syncReferralToCart_settles_witness :
  let rec := record (JStr "store1") JNull "2024-05-01T10:00:00.000Z" "/" in
  let attrs := [(LANDING_PAGE_ATTRIBUTE_KEY, JStr "/");
                (CAPTURED_AT_ATTRIBUTE_KEY, JStr "2024-05-01T10:00:00.000Z");
                (CART_ATTRIBUTE_KEY, JStr "store1")] in
  let h1 := storefront (JObj [("attributes", JObj [])]) in
  let h2 := storefront (JObj [("attributes", JObj attrs)]) in
  let b := browser_with (Json rec) in
  network (syncReferralToCart h2 (syncReferralToCart h1 b).2).2
  = network (syncReferralToCart h1 b).2 ++ [GET "/cart.js"].
Proof.
  intros rec attrs h1 h2 b.
  apply (syncReferralToCart_settles h1 h2 b
           (Json (JObj [("attributes", JObj attrs)])) (list_to_map attrs)
           [("attributes", JObj attrs)] attrs).
  - intros t Ht. vm_compute in Ht. injection Ht as <-.
    exists (JStr "store1"), JNull, "2024-05-01T10:00:00.000Z", "/".
    split; [reflexivity|]. split; [|split].
    + right. exists "store1". split; [reflexivity | discriminate].
    + left. reflexivity.
    + left. reflexivity.
  - vm_compute. reflexivity.
  - reflexivity.
  - reflexivity.
  - reflexivity.
  - intros k v Hk. cbn [attrs list_to_map foldr fst snd uncurry] in Hk.
    repeat (apply lookup_insert_Some in Hk as [[<- <-]|[_ Hk]]; [reflexivity|]).
    by rewrite lookup_empty in Hk.
Defined.

(** *** Every capture *)

Lemma to_json_idem : forall v, to_json (to_json v) = to_json v.
Proof.
  fix IH 1. intros [| | |n| |items|props]; try reflexivity.
  - cbn [to_json]. destruct (is_finite n) eqn:E; [|reflexivity].
    destruct (is_zero n) eqn:Z; [reflexivity|]. cbn [to_json]. by rewrite E, Z.
  - simpl. f_equal. induction items as [|x xs IHxs]; simpl; [reflexivity|].
    f_equal; [|exact IHxs].
    pose proof (IH x) as Hx.
    destruct x as [| | |n| |l|l]; try reflexivity; try exact Hx.
    cbn [to_json] in *.
    destruct (is_finite n) eqn:E; [|reflexivity].
    destruct (is_zero n) eqn:Z; [reflexivity|]. cbn [to_json]. by rewrite E, Z.
  - simpl. f_equal. induction props as [|[k x] xs IHxs]; simpl; [reflexivity|].
    pose proof (IH x) as Hx.
    destruct x as [| | |n| |l|l]; simpl in *; rewrite ?Hx, ?IHxs; try reflexivity.
    destruct (is_finite n) eqn:E; [destruct (is_zero n) eqn:Z|];
      simpl; rewrite ?E, ?Z; simpl; by rewrite ?IHxs.
Qed.

Lemma truthy_to_json v : truthy v = true -> truthy (to_json v) = true \/ to_json v = JNull.
Proof.
  destruct v as [| | |n| | |]; simpl; auto.
  intros Hn. destruct (PrimFloat.is_finite n); [|auto].
  destruct (PrimFloat.is_zero n) eqn:Z; [done|]. simpl. rewrite Z. auto.
Qed.

Lemma js_or_null_cases v : truthy (v ||| JNull) = true \/ v ||| JNull = JNull.
Proof. unfold js_or. destruct (truthy v) eqn:E; auto. Qed.

(** A field read back and merged again stays as it was written. *)
Lemma merge_again param old :
  let written := to_json (param ||| old ||| JNull) in
  to_json (param ||| written ||| JNull) = written.
Proof.
  simpl. destruct (truthy param) eqn:Hp.
  - by rewrite !(js_or_truthy param _ Hp).
  - rewrite !(js_or_falsy param _ Hp). set (x := old ||| JNull).
    destruct (js_or_null_cases old) as [Hx | Hx]; fold x in Hx.
    + destruct (truthy_to_json x Hx) as [Ht | Hn].
      * rewrite (js_or_truthy _ JNull Ht). apply to_json_idem.
      * by rewrite Hn.
    + by rewrite Hx.
Qed.

Lemma capture_storage_accepted h b items :
  localStorage b = Store items -> quota_exceeded h = false ->
  truthy (referral_param h) || truthy (order_id_param h) = true ->
  localStorage (captureReferralFromURL h b).2
  = Store (<[STORAGE_KEY :=
               JSON_stringify (merged (referral_param h) (order_id_param h)
                                 (stored_value b ||| JObj []) h)]> items) /\
  network (captureReferralFromURL h b).2 = network b.
Proof.
  intros Hls Hq Hany.
  destruct (capture_something h b Hany) as [log ->].
  by destruct (storeReferral_run h b items (referral_param h) (order_id_param h) Hls Hq)
    as [log' ->].
Qed.

Lemma capture_network h b : network (captureReferralFromURL h b).2 = network b.
Proof.
  destruct (truthy (referral_param h) || truthy (order_id_param h)) eqn:Hany.
  2:{ apply orb_false_iff in Hany as [Hr Ho]. by rewrite capture_nothing. }
  destruct (localStorage b) as [|items] eqn:Hls.
  { destruct (capture_something h b Hany) as [log ->].
    by destruct (storeReferral_refused h b (referral_param h) (order_id_param h))
      as [log' ->]; [left|]. }
  destruct (quota_exceeded h) eqn:Hq.
  { destruct (capture_something h b Hany) as [log ->].
    by destruct (storeReferral_refused h b (referral_param h) (order_id_param h))
      as [log' ->]; [right|]. }
  by destruct (capture_storage_accepted h b items Hls Hq Hany).
Qed.

(** X8. [captureReferralFromURL] never raises and never touches the network,
    whatever the page, the storage and its content. *)
Theorem captureReferralFromURL_returns_without_requests (h : host) (b : browser) :
  (captureReferralFromURL h b).1 = Return tt /\
  network (captureReferralFromURL h b).2 = network b.
Proof.
  split; [|apply capture_network].
  by destruct (returns_captureReferralFromURL h b) as [[] ->].
Qed.

(** X9. Capturing the same page twice stores what capturing it once stores:
    the second capture reads back the record of the first and writes it
    again unchanged. *)
Theorem captureReferralFromURL_twice (h : host) (b : browser) :
  localStorage (captureReferralFromURL h (captureReferralFromURL h b).2).2
  = localStorage (captureReferralFromURL h b).2.
Proof.
  destruct (truthy (referral_param h) || truthy (order_id_param h)) eqn:Hany.
  2:{ apply orb_false_iff in Hany as [Hr Ho]. by rewrite !capture_nothing. }
  destruct (localStorage b) as [|items] eqn:Hls.
  { rewrite !capture_refused; auto. left. rewrite capture_refused; auto. }
  destruct (quota_exceeded h) eqn:Hq.
  { rewrite !capture_refused; auto. }
  destruct (capture_storage_accepted h b items Hls Hq Hany) as [Hls1 _].
  set (b1 := (captureReferralFromURL h b).2) in *.
  destruct (capture_storage_accepted h b1 _ Hls1 Hq Hany) as [-> _].
  rewrite Hls1, insert_insert_eq. do 2 f_equal.
  assert (Hv1 : stored_value b1
                = to_json (merged (referral_param h) (order_id_param h)
                             (stored_value b ||| JObj []) h)).
  { unfold stored_value, persisted. rewrite Hls1. by rewrite lookup_insert_eq. }
  rewrite Hv1. unfold JSON_stringify. f_equal.
  rewrite !to_json_merged.
  rewrite !(js_or_truthy (record _ _ _ _)) by done.
  cbn [field record lookup_prop String.eqb Ascii.eqb Bool.eqb default].
  unfold id. by rewrite !merge_again.
Qed.

Lemma capture_persisted_record h b items :
  localStorage b = Store items -> quota_exceeded h = false ->
  truthy (referral_param h) || truthy (order_id_param h) = true ->
  let ex := stored_value b ||| JObj [] in
  persisted (captureReferralFromURL h b).2
  = Some (Json (record (to_json (referral_param h ||| field ex "code" ||| JNull))
                  (to_json (order_id_param h ||| field ex "orderId" ||| JNull))
                  (date_now h) (location_pathname h))).
Proof.
  intros Hls Hq Hany ex.
  rewrite (capture_persisted h b items Hls Hq Hany).
  unfold JSON_stringify. by rewrite to_json_merged.
Qed.

(** X10. The merge the other way round.  A capture whose only parameter is a
    non-empty order id [O], on a stored object whose [code] is the string
    [A], or is [null], or is not there, and whose write storage accepts,
    leaves the record with [code = A] and [orderId = O]; a code that was
    empty, [null] or missing is written [null]. *)
Theorem capture_keeps_code_for_order_id
    (h : host) (b : browser) (props : list (string * jsval))
    (A : option string) (O : string) :
  persisted b = Some (Json (JObj props)) ->
  holds (field (JObj props) "code") A ->
  URLSearchParams_get (location_search h) ORDER_ID_PARAM = Some O -> O <> "" ->
  URLSearchParams_get (location_search h) REFERRAL_PARAM = None ->
  quota_exceeded h = false ->
  persisted (captureReferralFromURL h b).2
  = Some (Json (record (of_nullable (non_empty A)) (JStr O)
                  (date_now h) (location_pathname h))).
Proof.
  intros Hrec HA Hoid HO Href Hq.
  assert (exists items, localStorage b = Store items) as [items Hls].
  { unfold persisted in Hrec. destruct (localStorage b); [done | eauto]. }
  rewrite (capture_persisted_record h b items Hls Hq).
  2:{ unfold order_id_param. rewrite Hoid. cbn [of_nullable].
      by rewrite (truthy_JStr O HO), orb_true_r. }
  unfold referral_param, order_id_param, stored_value.
  rewrite Href, Hoid, Hrec. cbn [of_nullable].
  change (JObj props ||| JObj []) with (JObj props).
  rewrite !(js_or_truthy (JStr O)) by by apply truthy_JStr.
  destruct A as [[|]|]; cbn [holds] in HA.
  - by rewrite HA.
  - by rewrite HA.
  - by destruct HA as [-> | ->].
Qed.

Lemma capture_keeps_code_for_order_id_witness :
  let h := page [("order_id", "12")] in
  let b := browser_with (Json (JObj [("capturedAt", JStr "2024-04-30T09:00:00.000Z");
                                     ("landingPage", JStr "/")])) in
  persisted (captureReferralFromURL h b).2
  = Some (Json (record JNull (JStr "12") (date_now h) (location_pathname h))).
Proof.
  intros h b.
  apply (capture_keeps_code_for_order_id h b
           [("capturedAt", JStr "2024-04-30T09:00:00.000Z"); ("landingPage", JStr "/")]
           None "12").
  - vm_compute. reflexivity.
  - right. reflexivity.
  - reflexivity.
  - discriminate.
  - reflexivity.
  - reflexivity.
Defined.

(** X11. With both parameters given and not empty, what was stored does not
    matter: whatever is under the key (nothing, a record, content that does
    not parse), an accepted capture leaves the record of the two values. *)
Theorem capture_replaces_both
    (h : host) (b : browser) (items : gmap string text) (C O : string) :
  localStorage b = Store items ->
  URLSearchParams_get (location_search h) REFERRAL_PARAM = Some C -> C <> "" ->
  URLSearchParams_get (location_search h) ORDER_ID_PARAM = Some O -> O <> "" ->
  quota_exceeded h = false ->
  persisted (captureReferralFromURL h b).2
  = Some (Json (record (JStr C) (JStr O) (date_now h) (location_pathname h))).
Proof.
  intros Hls Href HC Hoid HO Hq.
  rewrite (capture_persisted_record h b items Hls Hq).
  2:{ unfold referral_param. rewrite Href. cbn [of_nullable]. by rewrite truthy_JStr. }
  unfold referral_param, order_id_param. rewrite Href, Hoid. cbn [of_nullable].
  rewrite !(js_or_truthy (JStr C)), !(js_or_truthy (JStr O)) by by apply truthy_JStr.
  done.
Qed.

Lemma capture_replaces_both_witness :
  let h := page [("ref", "store2"); ("order_id", "12")] in
  let b := browser_with (Malformed "{code:") in
  persisted (captureReferralFromURL h b).2
  = Some (Json (record (JStr "store2") (JStr "12") (date_now h) (location_pathname h))).
Proof.
  intros h b.
  apply (capture_replaces_both h b {[STORAGE_KEY := Malformed "{code:"]} "store2" "12").
  - reflexivity.
  - reflexivity.
  - discriminate.
  - reflexivity.
  - discriminate.
  - reflexivity.
Defined.

(** X12. Content under the key that cannot be read as a record (a string that
    is not JSON, or JSON that is not an object: [null], a number, a string,
    an array) counts as no record: an accepted capture of a non-empty
    referral alone replaces it by [{code: C, orderId: null}]. *)
Theorem capture_over_unreadable_content
    (h : host) (b : browser) (t : text) (C : string) :
  persisted b = Some t ->
  (match t with
   | Malformed _ => True
   | Json (JObj _) => False
   | Json _ => True
   end) ->
  URLSearchParams_get (location_search h) REFERRAL_PARAM = Some C -> C <> "" ->
  URLSearchParams_get (location_search h) ORDER_ID_PARAM = None ->
  quota_exceeded h = false ->
  persisted (captureReferralFromURL h b).2
  = Some (Json (record (JStr C) JNull (date_now h) (location_pathname h))).
Proof.
  intros Ht Hbad Href HC Hoid Hq.
  assert (exists items, localStorage b = Store items) as [items Hls].
  { unfold persisted in Ht. destruct (localStorage b); [done | eauto]. }
  rewrite (capture_persisted_record h b items Hls Hq).
  2:{ unfold referral_param. rewrite Href. cbn [of_nullable]. by rewrite truthy_JStr. }
  unfold referral_param, order_id_param, stored_value. rewrite Href, Hoid, Ht.
  cbn [of_nullable]. rewrite !(js_or_truthy (JStr C)) by by apply truthy_JStr.
  assert (field (match t with Json v => v | Malformed _ => JNull end ||| JObj []) "orderId"
          = JUndefined) as ->; [|done].
  destruct t as [v|s]; [|done]. unfold js_or. destruct v; try done.
  all: by destruct (truthy _).
Qed.

Lemma capture_over_unreadable_content_witness :
  let h := page [("ref", "store1")] in
  let b := browser_with (Json (JArr [JStr "store9"])) in
  persisted (captureReferralFromURL h b).2
  = Some (Json (record (JStr "store1") JNull (date_now h) (location_pathname h))).
Proof.
  intros h b.
  apply (capture_over_unreadable_content h b (Json (JArr [JStr "store9"])) "store1").
  - vm_compute. reflexivity.
  - exact I.
  - reflexivity.
  - discriminate.
  - reflexivity.
  - reflexivity.
Defined.

Lemma capture_run_refused h b :
  localStorage b = Denied \/ quota_exceeded h = true ->
  truthy (referral_param h) || truthy (order_id_param h) = true ->
  exists log e,
    captureReferralFromURL h b
    = (Return tt,
       mkBrowser (localStorage b)
         (console b ++ log ++ [ErrStore e]
          ++ (if truthy (referral_param h)
              then [LogCapturedReferral (referral_param h)] else [])
          ++ (if truthy (order_id_param h)
              then [LogCapturedOrderId (order_id_param h)] else []))
         (network b)).
Proof.
  intros Hwhy Hany.
  unfold captureReferralFromURL, js_bind at 1, ask, when; simpl.
  fold (referral_param h) (order_id_param h).
  rewrite truthy_js_or, Hany. unfold js_bind.
  assert (exists log e,
    storeReferral (referral_param h) (order_id_param h) h b
    = (Return tt, mkBrowser (localStorage b) (console b ++ log ++ [ErrStore e]) (network b)))
    as (log & e & ->).
  { destruct (getStoredReferral_run h b) as [log Hrun].
    unfold storeReferral, try_catch. unfold js_bind at 1. rewrite Hrun.
    rewrite !get_prop_truthy by apply truthy_or_empty_object.
    rewrite !or_else_ret.
    unfold js_bind, js_ret, ask, localStorage_setItem, console_error, console_log; simpl.
    destruct (localStorage b) eqn:Hls; simpl.
    { exists log, SecurityError. by rewrite app_assoc. }
    destruct Hwhy as [? | ->]; [done|]. simpl.
    exists log, QuotaExceededError. by rewrite app_assoc. }
  exists log, e. unfold console_log, js_ret.
  destruct (truthy (referral_param h)), (truthy (order_id_param h)); simpl.
  all: by rewrite <- ?app_assoc, ?app_nil_r.
Qed.

(** X13. A refused write is not noticed by the capture: when storage is out
    of reach or its quota is used up, nothing is stored, the failure is
    logged, and the "captured" lines are logged all the same. *)
Theorem capture_refused_still_reports (h : host) (b : browser) :
  localStorage b = Denied \/ quota_exceeded h = true ->
  truthy (referral_param h) || truthy (order_id_param h) = true ->
  localStorage (captureReferralFromURL h b).2 = localStorage b /\
  (exists e, ErrStore e ∈ console (captureReferralFromURL h b).2) /\
  (truthy (referral_param h) = true ->
   LogCapturedReferral (referral_param h) ∈ console (captureReferralFromURL h b).2) /\
  (truthy (order_id_param h) = true ->
   LogCapturedOrderId (order_id_param h) ∈ console (captureReferralFromURL h b).2).
Proof.
  intros Hwhy Hany.
  destruct (capture_run_refused h b Hwhy Hany) as (log & e & ->). simpl.
  split; [done|]. split; [exists e|split; intros ->].
  all: repeat (rewrite elem_of_app || rewrite elem_of_cons ||
               rewrite list_elem_of_singleton); auto 10.
Qed.

Lemma capture_refused_still_reports_witness :
  let h := out_of_quota (page [("ref", "store1")]) in
  let b := fresh_browser in
  localStorage (captureReferralFromURL h b).2 = localStorage b /\
  (exists e, ErrStore e ∈ console (captureReferralFromURL h b).2) /\
  (truthy (referral_param h) = true ->
   LogCapturedReferral (referral_param h) ∈ console (captureReferralFromURL h b).2) /\
  (truthy (order_id_param h) = true ->
   LogCapturedOrderId (order_id_param h) ∈ console (captureReferralFromURL h b).2).
Proof.
  intros h b. apply (capture_refused_still_reports h b).
  - right. reflexivity.
  - reflexivity.
Defined.

Lemma getReferralCode_run h b :
  exists log,
    getReferralCode h b
    = (Return (field (stored_value b) "code" ||| JNull),
       mkBrowser (localStorage b) (console b ++ log) (network b)).
Proof.
  destruct (getStoredReferral_run h b) as [log Hrun]. exists log.
  unfold getReferralCode. unfold js_bind at 1. rewrite Hrun.
  by destruct (stored_value b).
Qed.

(** X14. [getReferralCode] never raises and answers [null] or a set value:
    never [undefined], never the empty string, whatever is stored (a record
    without [code], content that does not parse, JSON that is not an
    object).  It changes neither storage nor the network. *)
Theorem getReferralCode_null_or_set (h : host) (b : browser) :
  exists v,
    (getReferralCode h b).1 = Return v /\
    (v = JNull \/ truthy v = true) /\
    localStorage (getReferralCode h b).2 = localStorage b /\
    network (getReferralCode h b).2 = network b.
Proof.
  destruct (getReferralCode_run h b) as [log ->]. eexists. split; [done|].
  split; [|done]. destruct (js_or_null_cases (field (stored_value b) "code")); auto.
Qed.

(** X15. What is captured can be read back.  After an accepted capture of a
    non-empty referral [C], [getReferralCode] answers [C], on any later
    page, and the record read by [getStoredReferral] carries the time and
    the path of the capturing page. *)
Theorem capture_then_getReferralCode
    (h h' : host) (b : browser) (items : gmap string text) (C : string) :
  localStorage b = Store items ->
  URLSearchParams_get (location_search h) REFERRAL_PARAM = Some C -> C <> "" ->
  quota_exceeded h = false ->
  let b' := (captureReferralFromURL h b).2 in
  (getReferralCode h' b').1 = Return (JStr C) /\
  exists rec,
    (getStoredReferral h' b').1 = Return rec /\
    field rec "code" = JStr C /\
    field rec "capturedAt" = JStr (date_now h) /\
    field rec "landingPage" = JStr (location_pathname h).
Proof.
  intros Hls Href HC Hq b'.
  assert (Hp : persisted b' = _) by
    (apply (capture_persisted_record h b items Hls Hq);
     unfold referral_param; rewrite Href; cbn [of_nullable]; by rewrite truthy_JStr).
  unfold referral_param in Hp. rewrite Href in Hp. cbn [of_nullable] in Hp.
  rewrite !(js_or_truthy (JStr C)) in Hp by by apply truthy_JStr.
  split.
  - destruct (getReferralCode_run h' b') as [log ->]. simpl.
    unfold stored_value. rewrite Hp. simpl.
    by rewrite (js_or_truthy (JStr C)) by by apply truthy_JStr.
  - eexists. rewrite (getStoredReferral_json h' b' _ Hp). done.
Qed.

Lemma capture_then_getReferralCode_witness :
  let h := page [("ref", "store1")] in
  let h' := storefront (JObj []) in
  let b' := (captureReferralFromURL h fresh_browser).2 in
  (getReferralCode h' b').1 = Return (JStr "store1") /\
  exists rec,
    (getStoredReferral h' b').1 = Return rec /\
    field rec "code" = JStr "store1" /\
    field rec "capturedAt" = JStr (date_now h) /\
    field rec "landingPage" = JStr (location_pathname h).
Proof.
  intros h h'.
  apply (capture_then_getReferralCode h h' fresh_browser ∅ "store1").
  - reflexivity.
  - reflexivity.
  - discriminate.
  - reflexivity.
Defined.

(** X16. [clearReferral] forgets: afterwards nothing is under the key,
    [getReferralCode] answers [null] and [syncReferralToCart] sends no
    request, whatever was stored and whatever page comes next. *)
Theorem clearReferral_forgets (h h' : host) (b : browser) :
  let b' := (clearReferral h b).2 in
  persisted b' = None /\
  (getReferralCode h' b').1 = Return JNull /\
  network (syncReferralToCart h' b').2 = network b.
Proof.
  intros b'. pose proof (persisted_after_clear h b) as Hp. fold b' in Hp.
  assert (Hv : stored_value b' = JNull) by (unfold stored_value; by rewrite Hp).
  split; [done|]. split.
  - destruct (getReferralCode_run h' b') as [log ->]. by rewrite Hv.
  - destruct (sync_run_idle h' b') as (log & -> & _); [by rewrite Hv..|]. simpl.
    unfold b'. destruct (localStorage b) as [|items] eqn:Hls.
    + by rewrite (clearReferral_denied h b Hls).
    + by rewrite (clearReferral_run h b items Hls).
Qed.

Lemma other_keys_capture h b :
  other_keys (localStorage (captureReferralFromURL h b).2) = other_keys (localStorage b).
Proof.
  destruct (truthy (referral_param h) || truthy (order_id_param h)) eqn:Hany.
  2:{ apply orb_false_iff in Hany as [Hr Ho]. by rewrite capture_nothing. }
  destruct (localStorage b) as [|items] eqn:Hls.
  { rewrite capture_refused; auto. by rewrite Hls. }
  destruct (quota_exceeded h) eqn:Hq.
  { rewrite capture_refused; auto. by rewrite Hls. }
  destruct (capture_storage_accepted h b items Hls Hq Hany) as [-> _].
  simpl. by rewrite delete_insert_eq.
Qed.

Lemma other_keys_clear h b :
  other_keys (localStorage (clearReferral h b).2) = other_keys (localStorage b).
Proof.
  destruct (localStorage b) as [|items] eqn:Hls.
  - by rewrite (clearReferral_denied h b Hls).
  - rewrite (clearReferral_run h b items Hls). simpl. by rewrite delete_delete_eq.
Qed.

(** X17. The tracker keeps to its key.  Whatever calls are made, in whatever
    hosts, the other keys of storage hold afterwards what they held before,
    and storage that was out of reach stays so. *)
Theorem run_keeps_other_keys (calls : list (operation * host)) (b : browser) :
  other_keys (localStorage (run calls b)) = other_keys (localStorage b).
Proof.
  revert b. induction calls as [|[op h] rest IH]; intros b; simpl; [done|].
  rewrite IH. destruct op; simpl.
  - apply other_keys_capture.
  - by rewrite keeps_syncReferralToCart.
  - apply other_keys_clear.
  - by rewrite (keeps_discard _ keeps_getStoredReferral).
  - by rewrite (keeps_discard _ keeps_getReferralCode).
Qed.

(** *** The earlier capture *)

Lemma legacy_storeReferral_run h b referral :
  Legacy.storeReferral referral h b
  = (Return tt,
     match localStorage b with
     | Denied => mkBrowser Denied (console b ++ [ErrStore SecurityError]) (network b)
     | Store items =>
         if quota_exceeded h
         then mkBrowser (Store items) (console b ++ [ErrStore QuotaExceededError])
                (network b)
         else mkBrowser
                (Store (<[STORAGE_KEY :=
                            JSON_stringify
                              (JObj [("code", referral);
                                     ("capturedAt", JStr (date_now h));
                                     ("landingPage", JStr (location_pathname h))])]>
                          items))
                (console b) (network b)
     end).
Proof.
  unfold Legacy.storeReferral, try_catch, js_bind, ask, localStorage_setItem,
    console_error, console_log; simpl.
  destruct (localStorage b) eqn:Hls; simpl; [by rewrite Hls|].
  destruct (quota_exceeded h); simpl; by rewrite ?Hls.
Qed.

Lemma legacy_capture_run h b :
  Legacy.captureReferralFromURL h b
  = if truthy (referral_param h)
    then let b1 := (Legacy.storeReferral (referral_param h) h b).2 in
         (Return tt, mkBrowser (localStorage b1)
                       (console b1 ++ [LogCapturedReferral (referral_param h)])
                       (network b1))
    else (Return tt, b).
Proof.
  unfold Legacy.captureReferralFromURL, js_bind at 1, ask, when; simpl.
  change Legacy.REFERRAL_PARAM with REFERRAL_PARAM. fold (referral_param h).
  destruct (truthy (referral_param h)); [|done].
  unfold js_bind. by rewrite legacy_storeReferral_run.
Qed.

Lemma legacy_capture_accepted h b items C :
  localStorage b = Store items ->
  URLSearchParams_get (location_search h) REFERRAL_PARAM = Some C -> C <> "" ->
  quota_exceeded h = false ->
  localStorage (Legacy.captureReferralFromURL h b).2
  = Store (<[STORAGE_KEY :=
               Json (JObj [("code", JStr C); ("capturedAt", JStr (date_now h));
                           ("landingPage", JStr (location_pathname h))])]> items).
Proof.
  intros Hls Href HC Hq. rewrite legacy_capture_run. unfold referral_param.
  rewrite Href. cbn [of_nullable]. rewrite (truthy_JStr C HC).
  by rewrite legacy_storeReferral_run, Hls, Hq.
Qed.

(** X18. The earlier capture does not merge.  An accepted capture of a
    non-empty referral [C] leaves exactly [{code: C, capturedAt,
    landingPage}], whatever was stored: an order id stored by the current
    version is gone. *)
Theorem legacy_capture_overwrites
    (h : host) (b : browser) (items : gmap string text) (C : string) :
  localStorage b = Store items ->
  URLSearchParams_get (location_search h) REFERRAL_PARAM = Some C -> C <> "" ->
  quota_exceeded h = false ->
  let b' := (Legacy.captureReferralFromURL h b).2 in
  persisted b'
  = Some (Json (JObj [("code", JStr C); ("capturedAt", JStr (date_now h));
                      ("landingPage", JStr (location_pathname h))])) /\
  field (stored_value b') "orderId" = JUndefined.
Proof.
  intros Hls Href HC Hq b'.
  assert (Hp : persisted b'
    = Some (Json (JObj [("code", JStr C); ("capturedAt", JStr (date_now h));
                        ("landingPage", JStr (location_pathname h))]))).
  { unfold persisted, b'. rewrite (legacy_capture_accepted h b items C) by done.
    by rewrite lookup_insert_eq. }
  split; [done|]. unfold stored_value. by rewrite Hp.
Qed.

Lemma legacy_capture_overwrites_witness :
  let h := page [("ref", "store2")] in
  let old := Json (record (JStr "store1") (JStr "12") "2024-04-30T09:00:00.000Z" "/") in
  let b' := (Legacy.captureReferralFromURL h (browser_with old)).2 in
  persisted b'
  = Some (Json (JObj [("code", JStr "store2"); ("capturedAt", JStr (date_now h));
                      ("landingPage", JStr (location_pathname h))])) /\
  field (stored_value b') "orderId" = JUndefined.
Proof.
  intros h old.
  apply (legacy_capture_overwrites h (browser_with old) {[STORAGE_KEY := old]} "store2").
  - reflexivity.
  - reflexivity.
  - discriminate.
  - reflexivity.
Defined.

(** X19. The earlier capture knows one parameter.  Without a non-empty
    referral it does nothing at all, whatever [order_id] the page gives;
    and in every case it returns normally and sends no request. *)
Theorem legacy_capture_ignores_order_id (h : host) (b : browser) :
  (non_empty (URLSearchParams_get (location_search h) REFERRAL_PARAM) = None ->
   Legacy.captureReferralFromURL h b = (Return tt, b)) /\
  (Legacy.captureReferralFromURL h b).1 = Return tt /\
  network (Legacy.captureReferralFromURL h b).2 = network b.
Proof.
  rewrite legacy_capture_run. unfold referral_param.
  rewrite <- truthy_non_empty.
  destruct (truthy (of_nullable (non_empty _))) eqn:Ht.
  - split; [intros Hnone; by rewrite Hnone in Ht|].
    rewrite legacy_storeReferral_run. simpl. split; [done|].
    destruct (localStorage b); [done|]. by destruct (quota_exceeded h).
  - done.
Qed.

Lemma legacy_capture_ignores_order_id_witness :
  let h := page [("ref", ""); ("order_id", "12")] in
  Legacy.captureReferralFromURL h fresh_browser = (Return tt, fresh_browser).
Proof.
  intros h. apply (proj1 (legacy_capture_ignores_order_id h fresh_browser)).
  reflexivity.
Defined.

Lemma returns_legacy_syncReferralToCart : returns Legacy.syncReferralToCart.
Proof.
  unfold Legacy.syncReferralToCart.
  apply returns_bind; [apply returns_getStoredReferral | intros referralData].
  apply returns_bind.
  - apply returns_unless. intros Hv.
    rewrite !get_prop_truthy by done.
    apply returns_bind; intros; apply returns_ret.
  - intros nothing. apply returns_if; [apply returns_ret|].
    apply returns_try_catch. intros e. apply returns_console_error.
Qed.

(** X20. The earlier [syncReferralToCart] looks at the code only: without a
    set code it sends no request, even for a record whose order id is set
    (which the current version would send).  And like the current one it
    always returns normally and leaves storage as it was. *)
Theorem legacy_sync_needs_code (h : host) (b : browser) :
  (truthy (field (stored_value b) "code") = false ->
   network (Legacy.syncReferralToCart h b).2 = network b) /\
  (Legacy.syncReferralToCart h b).1 = Return tt /\
  localStorage (Legacy.syncReferralToCart h b).2 = localStorage b.
Proof.
  split; [|split].
  - intros Hc. destruct (getStoredReferral_run h b) as [log Hrun].
    unfold Legacy.syncReferralToCart. unfold js_bind at 1. rewrite Hrun.
    destruct (truthy (stored_value b)) eqn:Hv.
    + rewrite !(get_prop_truthy _ _ Hv).
      unfold or_else, js_not, js_bind, js_ret; simpl. by rewrite Hv, Hc.
    + unfold or_else, js_not, js_bind, js_ret; simpl. by rewrite Hv.
  - by destruct (returns_legacy_syncReferralToCart h b) as [[] ->].
  - apply keeps_legacy_syncReferralToCart.
Qed.

Lemma legacy_sync_needs_code_witness :
  let h := storefront (JObj [("attributes", JObj [])]) in
  let b := browser_with (Json (record JNull (JStr "12") "2024-05-01T10:00:00.000Z" "/")) in
  network (Legacy.syncReferralToCart h b).2 = network b.
Proof.
  intros h b. apply (proj1 (legacy_sync_needs_code h b)).
  vm_compute. reflexivity.
Defined.

(** X21. Moving to the current version keeps the referral.  After an accepted
    capture by the earlier version of a non-empty referral [C], an accepted
    capture by the current version of a non-empty order id [O] alone leaves
    [{code: C, orderId: O}]. *)
Theorem capture_after_legacy_capture
    (h1 h2 : host) (b : browser) (items : gmap string text) (C O : string) :
  localStorage b = Store items ->
  URLSearchParams_get (location_search h1) REFERRAL_PARAM = Some C -> C <> "" ->
  quota_exceeded h1 = false ->
  URLSearchParams_get (location_search h2) REFERRAL_PARAM = None ->
  URLSearchParams_get (location_search h2) ORDER_ID_PARAM = Some O -> O <> "" ->
  quota_exceeded h2 = false ->
  persisted (captureReferralFromURL h2 (Legacy.captureReferralFromURL h1 b).2).2
  = Some (Json (record (JStr C) (JStr O) (date_now h2) (location_pathname h2))).
Proof.
  intros Hls Href1 HC Hq1 Href2 Hoid2 HO Hq2.
  pose proof (legacy_capture_accepted h1 b items C Hls Href1 HC Hq1) as Hls1.
  set (b1 := (Legacy.captureReferralFromURL h1 b).2) in *.
  rewrite (capture_persisted_record h2 b1 _ Hls1 Hq2).
  2:{ unfold order_id_param. rewrite Hoid2. cbn [of_nullable].
      by rewrite (truthy_JStr O HO), orb_true_r. }
  unfold referral_param, order_id_param, stored_value, persisted.
  rewrite Href2, Hoid2, Hls1, lookup_insert_eq. cbn [of_nullable].
  rewrite (js_or_truthy (JObj _)) by done.
  cbn [field lookup_prop String.eqb Ascii.eqb Bool.eqb default from_option]. unfold id.
  rewrite (js_or_falsy JNull) by done.
  rewrite !(js_or_truthy (JStr O)), !(js_or_truthy (JStr C)) by by apply truthy_JStr.
  done.
Qed.

Lemma capture_after_legacy_capture_witness :
  let h1 := page [("ref", "store1")] in
  let h2 := page [("order_id", "12")] in
  persisted (captureReferralFromURL h2 (Legacy.captureReferralFromURL h1 fresh_browser).2).2
  = Some (Json (record (JStr "store1") (JStr "12") (date_now h2) (location_pathname h2))).
Proof.
  intros h1 h2.
  apply (capture_after_legacy_capture h1 h2 fresh_browser ∅ "store1" "12").
  - reflexivity.
  - reflexivity.
  - discriminate.
  - reflexivity.
  - reflexivity.
  - reflexivity.
  - discriminate.
  - reflexivity.
Defined.

(** *** The console is only added to *)

Section Blind.
Context {A B : Type}.

Lemma blind_ret (a : A) : console_blind (js_ret a).
Proof. intros h s c n. simpl. by rewrite app_nil_r. Qed.

Lemma blind_throw (e : exn) : console_blind (@js_throw A e).
Proof. intros h s c n. simpl. by rewrite app_nil_r. Qed.

Lemma blind_ask (f : host -> A) : console_blind (ask f).
Proof. intros h s c n. simpl. by rewrite app_nil_r. Qed.

Lemma blind_bind (m : js A) (k : A -> js B) :
  console_blind m -> (forall a, console_blind (k a)) -> console_blind (js_bind m k).
Proof.
  intros Hm Hk h s c n. unfold js_bind. rewrite (Hm h s c n).
  destruct (m h (mkBrowser s [] n)) as [[a|e] [s1 c1 n1]]; simpl; [|done].
  rewrite (Hk a h s1 (c ++ c1) n1), (Hk a h s1 c1 n1).
  destruct (k a h (mkBrowser s1 [] n1)) as [o [s2 c2 n2]]; simpl.
  by rewrite app_assoc.
Qed.

Lemma blind_try_catch (m : js A) (handler : exn -> js A) :
  console_blind m -> (forall e, console_blind (handler e)) ->
  console_blind (try_catch m handler).
Proof.
  intros Hm Hk h s c n. unfold try_catch. rewrite (Hm h s c n).
  destruct (m h (mkBrowser s [] n)) as [[a|e] [s1 c1 n1]]; simpl; [done|].
  rewrite (Hk e h s1 (c ++ c1) n1), (Hk e h s1 c1 n1).
  destruct (handler e h (mkBrowser s1 [] n1)) as [o [s2 c2 n2]]; simpl.
  by rewrite app_assoc.
Qed.

Lemma blind_if (c : bool) (m1 m2 : js A) :
  console_blind m1 -> console_blind m2 -> console_blind (if c then m1 else m2).
Proof. by destruct c. Qed.
End Blind.

Lemma blind_console_log e : console_blind (console_log e).
Proof. by intros h s c n. Qed.

Lemma blind_console_error e : console_blind (console_error e).
Proof. by intros h s c n. Qed.

Lemma blind_getItem k : console_blind (localStorage_getItem k).
Proof. intros h s c n. unfold localStorage_getItem. destruct s; simpl; by rewrite app_nil_r. Qed.

Lemma blind_setItem k t : console_blind (localStorage_setItem k t).
Proof.
  intros h s c n. unfold localStorage_setItem.
  destruct s; simpl; [|destruct (quota_exceeded h)]; simpl; by rewrite app_nil_r.
Qed.

Lemma blind_removeItem k : console_blind (localStorage_removeItem k).
Proof. intros h s c n. unfold localStorage_removeItem. destruct s; simpl; by rewrite app_nil_r. Qed.

Lemma blind_JSON_parse t : console_blind (JSON_parse t).
Proof. destruct t; simpl; [apply blind_ret | apply blind_throw]. Qed.

Lemma blind_fetch req : console_blind (fetch req).
Proof. intros h s c n. unfold fetch. destruct (remote h req); simpl; by rewrite app_nil_r. Qed.

Lemma blind_response_json r : console_blind (response_json r).
Proof. unfold response_json. destruct (body r); [apply blind_ret | apply blind_throw]. Qed.

Lemma blind_get_prop v name : console_blind (get_prop v name).
Proof. destruct v; simpl; first [apply blind_ret | apply blind_throw]. Qed.

Lemma blind_get_prop_opt v name : console_blind (get_prop_opt v name).
Proof. destruct v; simpl; first [apply blind_ret | apply blind_throw]. Qed.

Lemma blind_or_else a m : console_blind m -> console_blind (or_else a m).
Proof. intros. unfold or_else. apply blind_if; [apply blind_ret | done]. Qed.

Lemma blind_and_then a m : console_blind m -> console_blind (and_then a m).
Proof. intros. unfold and_then. apply blind_if; [done | apply blind_ret]. Qed.

Lemma blind_when c m : console_blind m -> console_blind (when c m).
Proof. intros. unfold when. apply blind_if; [done | apply blind_ret]. Qed.

Create HintDb blind discriminated.
#[local] Hint Resolve blind_ret blind_throw blind_ask blind_console_log
  blind_console_error blind_getItem blind_setItem blind_removeItem blind_JSON_parse
  blind_fetch blind_response_json blind_get_prop blind_get_prop_opt : blind.
#[local] Hint Extern 2 (console_blind (js_bind _ _)) =>
  apply blind_bind; [|intros ?] : blind.
#[local] Hint Extern 2 (console_blind (try_catch _ _)) =>
  apply blind_try_catch; [|intros ?] : blind.
#[local] Hint Extern 2 (console_blind (or_else _ _)) => apply blind_or_else : blind.
#[local] Hint Extern 2 (console_blind (and_then _ _)) => apply blind_and_then : blind.
#[local] Hint Extern 2 (console_blind (when _ _)) => apply blind_when : blind.
#[local] Hint Extern 3 (console_blind (if _ then _ else _)) => apply blind_if : blind.
#[local] Hint Extern 3 (console_blind (match ?x with _ => _ end)) => destruct x : blind.

Ltac blind := auto 40 with blind.

Lemma blind_getStoredReferral : console_blind getStoredReferral.
Proof. unfold getStoredReferral. blind. Qed.

Lemma blind_storeReferral r o : console_blind (storeReferral r o).
Proof. unfold storeReferral. pose proof blind_getStoredReferral. blind. Qed.

Lemma blind_captureReferralFromURL : console_blind captureReferralFromURL.
Proof. unfold captureReferralFromURL. pose proof blind_storeReferral. blind. Qed.

Lemma blind_syncReferralToCart : console_blind syncReferralToCart.
Proof. unfold syncReferralToCart. pose proof blind_getStoredReferral. blind. Qed.

Lemma blind_clearReferral : console_blind clearReferral.
Proof. unfold clearReferral. blind. Qed.

Lemma blind_getReferralCode : console_blind getReferralCode.
Proof. unfold getReferralCode. pose proof blind_getStoredReferral. blind. Qed.

Lemma blind_legacy_syncReferralToCart : console_blind Legacy.syncReferralToCart.
Proof. unfold Legacy.syncReferralToCart. pose proof blind_getStoredReferral. blind. Qed.

Lemma blind_legacy_captureReferralFromURL : console_blind Legacy.captureReferralFromURL.
Proof. unfold Legacy.captureReferralFromURL, Legacy.storeReferral. blind. Qed.

(** X22. No method reads or clears the console.  Each of the tracker's
    methods, of this version and of the earlier one, run after any earlier
    output, returns what it returns on an empty console, leaves storage and
    the network as it does there, and adds the same lines after the earlier
    ones. *)
Theorem methods_only_add_to_console :
  (forall op, console_blind (perform op)) /\
  console_blind Legacy.captureReferralFromURL /\
  console_blind Legacy.syncReferralToCart.
Proof.
  split; [|split].
  - intros []; simpl.
    + apply blind_captureReferralFromURL.
    + apply blind_syncReferralToCart.
    + apply blind_clearReferral.
    + apply blind_bind; [apply blind_getStoredReferral | intros; apply blind_ret].
    + apply blind_bind; [apply blind_getReferralCode | intros; apply blind_ret].
  - apply blind_legacy_captureReferralFromURL.
  - apply blind_legacy_syncReferralToCart.
Qed.

(** *** [syncReferralToCart] await by await *)

Lemma fetch_in_two_parts req h b :
  fetch req h b = (fetch_request req ;; fetch_settled req) h b.
Proof. unfold fetch, js_bind, fetch_request, fetch_settled. simpl. done. Qed.

Lemma guard_idle v :
  truthy (field v "code") || truthy (field v "orderId") = false ->
  forall h b,
    or_else (js_not v)
      (code <- get_prop v "code" ;;
       and_then (js_not code)
         (orderId <- get_prop v "orderId" ;;
          js_ret (js_not orderId))) h b
    = (Return (JBool true), b).
Proof.
  intros Hset h b. apply orb_false_iff in Hset as [Hc Ho].
  destruct (truthy v) eqn:Hv.
  - rewrite !(get_prop_truthy _ _ Hv).
    unfold or_else, and_then, js_not, js_bind, js_ret; simpl.
    by rewrite Hv, Hc, Ho.
  - unfold or_else, and_then, js_not, js_bind, js_ret; simpl. by rewrite Hv.
Qed.

Lemma sync_idle h b :
  truthy (field (stored_value b) "code") || truthy (field (stored_value b) "orderId") = false ->
  syncReferralToCart h b = (Return tt, (getStoredReferral h b).2).
Proof.
  intros Hset. destruct (getStoredReferral_run h b) as [log Hrun].
  unfold syncReferralToCart. unfold js_bind at 1. rewrite Hrun.
  unfold js_bind at 1. by rewrite (guard_idle _ Hset).
Qed.

Lemma start_idle h b :
  truthy (field (stored_value b) "code") || truthy (field (stored_value b) "orderId") = false ->
  syncReferralToCart_start h b = (Return None, (getStoredReferral h b).2).
Proof.
  intros Hset. destruct (getStoredReferral_run h b) as [log Hrun].
  unfold syncReferralToCart_start. unfold js_bind at 1. rewrite Hrun.
  unfold js_bind at 1. by rewrite (guard_idle _ Hset).
Qed.

Lemma start_set h b rec :
  persisted b = Some (Json rec) ->
  truthy (field rec "code") || truthy (field rec "orderId") = true ->
  syncReferralToCart_start h b
  = (Return (Some (CartResponse rec)),
     mkBrowser (localStorage b) (console b) (network b ++ [GET "/cart.js"])).
Proof.
  intros Hrec Hset.
  assert (truthy rec = true) as Hv.
  { apply orb_true_iff in Hset as [H|H]; apply truthy_field_obj in H as [? ->]; done. }
  unfold syncReferralToCart_start. unfold js_bind at 1.
  rewrite (getStoredReferral_json h b _ Hrec).
  rewrite !(get_prop_truthy _ _ Hv).
  unfold or_else, and_then, js_not, js_bind, js_ret, fetch_request; simpl.
  rewrite Hv; simpl.
  destruct (truthy (field rec "code")) eqn:Hc; simpl; [done|].
  simpl in Hset. by rewrite Hset.
Qed.

Lemma resume_cart_response rec h b :
  syncReferralToCart_resume (CartResponse rec) h b
  = match remote h (GET "/cart.js") with
    | Some r => (Return (Some (CartBody rec r)), b)
    | None => (Return None,
               mkBrowser (localStorage b) (console b ++ [ErrUpdateCart NetworkError])
                 (network b))
    end.
Proof.
  unfold syncReferralToCart_resume, try_catch, js_bind, fetch_settled.
  by destruct (remote h (GET "/cart.js")).
Qed.

Lemma resume_cart_body_failed rec r e h b :
  truthy (field rec "code") || truthy (field rec "orderId") = true ->
  (body r = BodyNotJson /\ e = SyntaxError) \/
  ((body r = BodyJson JNull \/ body r = BodyJson JUndefined) /\ e = TypeError) ->
  syncReferralToCart_resume (CartBody rec r) h b
  = (Return None,
     mkBrowser (localStorage b) (console b ++ [ErrUpdateCart e]) (network b)).
Proof.
  intros Hset Hfail.
  assert (truthy rec = true) as Hv.
  { apply orb_true_iff in Hset as [H|H]; apply truthy_field_obj in H as [? ->]; done. }
  unfold syncReferralToCart_resume, response_json.
  rewrite !(get_prop_truthy _ _ Hv).
  unfold or_else, and_then, js_not, js_bind, try_catch, js_ret; simpl.
  destruct Hfail as [[-> ->] | [[-> | ->] ->]]; simpl; [done| |].
  all: destruct (truthy (field rec "code")) eqn:Hc; simpl; [done|].
  all: simpl in Hset; by rewrite Hset.
Qed.

Lemma resume_cart_body_cart rec r cart h b :
  truthy (field rec "code") || truthy (field rec "orderId") = true ->
  body r = BodyJson cart -> cart <> JNull -> cart <> JUndefined ->
  syncReferralToCart_resume (CartBody rec r) h b
  = if field_matches cart (field rec "code") CART_ATTRIBUTE_KEY
       && field_matches cart (field rec "orderId") ORDER_ID_ATTRIBUTE_KEY
    then (Return None, b)
    else (Return (Some (UpdateResponse rec (update_for rec))),
          mkBrowser (localStorage b) (console b) (network b ++ [update_for rec])).
Proof.
  intros Hset Hcart Hnn Hnu.
  assert (truthy rec = true) as Hv.
  { apply orb_true_iff in Hset as [H|H]; apply truthy_field_obj in H as [? ->]; done. }
  assert (forall k, get_prop cart k = js_ret (field cart k)) as Hget.
  { intros k. by destruct cart. }
  unfold syncReferralToCart_resume, response_json. rewrite Hcart.
  rewrite !(get_prop_truthy _ _ Hv).
  unfold update_for, update_attributes, field_matches.
  set (c := field rec "code") in *. set (o := field rec "orderId") in *.
  set (attrs := field cart "attributes").
  unfold or_else, and_then, js_not, js_bind, try_catch, js_ret, when, fetch_request; simpl.
  destruct (truthy c) eqn:Hc, (truthy o) eqn:Ho; simpl in *; try done.
  all: rewrite ?Hget; unfold js_ret; simpl; fold attrs.
  all: destruct (truthy attrs) eqn:Ha; simpl.
  all: repeat (simpl; first
     [ done
     | rewrite truthy_js_and
     | match goal with
       | H : truthy ?a = true |- context [get_prop ?a ?k] =>
           rewrite (get_prop_truthy a k H); unfold js_ret
       | H : truthy ?a = _ |- context [truthy ?a] => rewrite H
       | |- context [strict_equals (field ?a ?k) ?v] =>
           destruct (strict_equals (field a k) v) eqn:?
       end ]).
Qed.

Lemma resume_update_response rec h b :
  truthy rec = true ->
  syncReferralToCart_resume (UpdateResponse rec (update_for rec)) h b
  = (Return None,
     mkBrowser (localStorage b) (console b ++ update_log h rec) (network b)).
Proof.
  intros Hv. unfold syncReferralToCart_resume, update_log.
  unfold js_bind at 1 2. unfold try_catch, fetch_settled.
  destruct (remote h (update_for rec)) as [[[] bd]|]; simpl; [| |done].
  - rewrite !(get_prop_truthy _ _ Hv).
    unfold js_bind, js_ret, when, console_log; simpl.
    destruct b as [ls con net].
    destruct (truthy (field rec "code")), (truthy (field rec "orderId")); simpl;
      by rewrite ?app_nil_r, <- ?app_assoc.
  - unfold js_bind, js_ret. destruct b; simpl. by rewrite app_nil_r.
Qed.

(** X27. The method await by await is the method taken in one go.  A call
    started and then resumed at each of its awaits in the same host, with
    nothing else running in between, has ended after three settlings, and
    leaves storage, console and network exactly as [syncReferralToCart]
    followed to its end leaves them; its promise is never rejected. *)
Theorem syncReferralToCart_await_by_await (h : host) (b : browser) :
  (w <- syncReferralToCart_start ;; settle syncReferralToCart_resume 3 w) h b
  = (Return None, (syncReferralToCart h b).2) /\
  (syncReferralToCart h b).1 = Return tt.
Proof.
  split.
  2:{ destruct (returns_syncReferralToCart h b) as [[] ?]. done. }
  set (rec := stored_value b).
  destruct (truthy (field rec "code") || truthy (field rec "orderId")) eqn:Hset.
  2:{ unfold js_bind at 1. by rewrite start_idle, sync_idle. }
  assert (Hrec : persisted b = Some (Json rec)).
  { apply orb_true_iff in Hset as [H|H]; by apply stored_value_set in H. }
  assert (truthy rec = true) as Hv.
  { apply orb_true_iff in Hset as [H|H]; apply truthy_field_obj in H as [? ->]; done. }
  unfold js_bind at 1. rewrite (start_set h b rec Hrec Hset).
  cbn [settle]. unfold js_bind at 1. rewrite resume_cart_response.
  destruct (remote h (GET "/cart.js")) as [r|] eqn:Hr.
  2:{ rewrite (sync_run_failed h b rec NetworkError Hrec Hset); [done|].
      left. unfold fetched_cart. by rewrite Hr. }
  cbn [settle]. unfold js_bind at 1.
  destruct (body r) as [cart|] eqn:Hb.
  2:{ rewrite (resume_cart_body_failed rec r SyntaxError) by auto.
      rewrite (sync_run_failed h b rec SyntaxError Hrec Hset); [done|].
      left. unfold fetched_cart. by rewrite Hr, Hb. }
  assert (Hcart : fetched_cart h = Return cart).
  { unfold fetched_cart. by rewrite Hr, Hb. }
  assert (cart = JNull \/ cart = JUndefined \/ (cart <> JNull /\ cart <> JUndefined))
    as [-> | [-> | [Hnn Hnu]]].
  { destruct cart; auto; right; right; done. }
  - rewrite (resume_cart_body_failed rec r TypeError) by auto.
    rewrite (sync_run_failed h b rec TypeError Hrec Hset); [done|]. right. auto.
  - rewrite (resume_cart_body_failed rec r TypeError) by auto.
    rewrite (sync_run_failed h b rec TypeError Hrec Hset); [done|]. right. auto.
  - rewrite (resume_cart_body_cart rec r cart _ _ Hset Hb Hnn Hnu).
    rewrite (sync_run_cart h b rec cart Hrec Hset Hcart Hnn Hnu).
    destruct (field_matches cart (field rec "code") CART_ATTRIBUTE_KEY
              && field_matches cart (field rec "orderId") ORDER_ID_ATTRIBUTE_KEY).
    + done.
    + cbn [settle]. unfold js_bind at 1.
      rewrite (resume_update_response rec _ _ Hv). simpl.
      by rewrite <- app_assoc.
Qed.

(** *** The earlier [syncReferralToCart] await by await *)

Lemma legacy_guard_idle v :
  truthy (field v "code") = false ->
  forall h b,
    or_else (js_not v)
      (code <- get_prop v "code" ;; js_ret (js_not code)) h b
    = (Return (JBool true), b).
Proof.
  intros Hc h b. destruct (truthy v) eqn:Hv.
  - rewrite !(get_prop_truthy _ _ Hv).
    unfold or_else, js_not, js_bind, js_ret; simpl. by rewrite Hv, Hc.
  - unfold or_else, js_not, js_bind, js_ret; simpl. by rewrite Hv.
Qed.

Lemma legacy_guard_set v :
  truthy (field v "code") = true ->
  forall h b,
    or_else (js_not v)
      (code <- get_prop v "code" ;; js_ret (js_not code)) h b
    = (Return (JBool false), b).
Proof.
  intros Hc h b.
  assert (truthy v = true) as Hv by (apply truthy_field_obj in Hc as [? ->]; done).
  rewrite !(get_prop_truthy _ _ Hv).
  unfold or_else, js_not, js_bind, js_ret; simpl. by rewrite Hv, Hc.
Qed.

Lemma legacy_sync_idle h b :
  truthy (field (stored_value b) "code") = false ->
  Legacy.syncReferralToCart h b = (Return tt, (getStoredReferral h b).2).
Proof.
  intros Hc. destruct (getStoredReferral_run h b) as [log Hrun].
  unfold Legacy.syncReferralToCart. unfold js_bind at 1. rewrite Hrun.
  unfold js_bind at 1. by rewrite (legacy_guard_idle _ Hc).
Qed.

Lemma legacy_start_idle h b :
  truthy (field (stored_value b) "code") = false ->
  Legacy.syncReferralToCart_start h b = (Return None, (getStoredReferral h b).2).
Proof.
  intros Hc. destruct (getStoredReferral_run h b) as [log Hrun].
  unfold Legacy.syncReferralToCart_start. unfold js_bind at 1. rewrite Hrun.
  unfold js_bind at 1. by rewrite (legacy_guard_idle _ Hc).
Qed.

Lemma legacy_start_set h b rec :
  persisted b = Some (Json rec) -> truthy (field rec "code") = true ->
  Legacy.syncReferralToCart_start h b
  = (Return (Some (CartResponse rec)),
     mkBrowser (localStorage b) (console b) (network b ++ [GET "/cart.js"])).
Proof.
  intros Hrec Hc.
  unfold Legacy.syncReferralToCart_start. unfold js_bind at 1.
  rewrite (getStoredReferral_json h b _ Hrec).
  unfold js_bind at 1. by rewrite (legacy_guard_set _ Hc).
Qed.

Lemma legacy_resume_cart_response rec h b :
  Legacy.syncReferralToCart_resume (CartResponse rec) h b
  = match remote h (GET "/cart.js") with
    | Some r => (Return (Some (CartBody rec r)), b)
    | None => (Return None,
               mkBrowser (localStorage b) (console b ++ [ErrUpdateCart NetworkError])
                 (network b))
    end.
Proof.
  unfold Legacy.syncReferralToCart_resume, try_catch, js_bind, fetch_settled.
  by destruct (remote h (GET "/cart.js")).
Qed.

Lemma legacy_sync_run_failed h b rec e :
  persisted b = Some (Json rec) -> truthy (field rec "code") = true ->
  fetched_cart h = Throw e \/
  ((fetched_cart h = Return JNull \/ fetched_cart h = Return JUndefined) /\ e = TypeError) ->
  Legacy.syncReferralToCart h b
  = (Return tt, mkBrowser (localStorage b) (console b ++ [ErrUpdateCart e])
                  (network b ++ [GET "/cart.js"])).
Proof.
  intros Hrec Hc Hfail.
  assert (truthy rec = true) as Hv by (apply truthy_field_obj in Hc as [? ->]; done).
  unfold Legacy.syncReferralToCart. unfold js_bind at 1.
  rewrite (getStoredReferral_json h b _ Hrec).
  unfold js_bind at 1. rewrite (legacy_guard_set _ Hc). cbn [truthy].
  rewrite !(get_prop_truthy _ _ Hv).
  unfold and_then, js_bind, try_catch, js_ret; simpl.
  unfold fetched_cart in Hfail. rewrite fetch_run.
  destruct (remote h (GET "/cart.js")) as [[st [cart|]]|]; simpl.
  - destruct Hfail as [?|[[[= ->]|[= ->]] ->]]; done.
  - destruct Hfail as [[= <-]|[[?|?] _]]; done.
  - destruct Hfail as [[= <-]|[[?|?] _]]; done.
Qed.

Lemma legacy_sync_run_cart h b rec cart :
  persisted b = Some (Json rec) -> truthy (field rec "code") = true ->
  fetched_cart h = Return cart -> cart <> JNull -> cart <> JUndefined ->
  Legacy.syncReferralToCart h b
  = (Return tt,
     if truthy (field cart "attributes")
        && strict_equals (field (field cart "attributes") Legacy.CART_ATTRIBUTE_KEY)
             (field rec "code")
     then mkBrowser (localStorage b) (console b) (network b ++ [GET "/cart.js"])
     else mkBrowser (localStorage b) (console b ++ legacy_update_log h rec)
            (network b ++ [GET "/cart.js"; legacy_update_for rec])).
Proof.
  intros Hrec Hc Hcart Hnn Hnu.
  assert (truthy rec = true) as Hv by (apply truthy_field_obj in Hc as [? ->]; done).
  assert (forall k, get_prop cart k = js_ret (field cart k)) as Hget.
  { intros k. by destruct cart. }
  unfold Legacy.syncReferralToCart. unfold js_bind at 1.
  rewrite (getStoredReferral_json h b _ Hrec).
  unfold js_bind at 1. rewrite (legacy_guard_set _ Hc). cbn [truthy].
  rewrite !(get_prop_truthy _ _ Hv).
  unfold legacy_update_log, legacy_update_for.
  set (c := field rec "code") in *. set (attrs := field cart "attributes").
  unfold fetched_cart in Hcart.
  unfold and_then, js_bind, try_catch, js_ret; simpl.
  rewrite fetch_run.
  destruct (remote h (GET "/cart.js")) as [[st [cart'|]]|]; simpl in *; try done.
  injection Hcart as ->.
  rewrite ?Hget; unfold js_ret; simpl; fold attrs.
  destruct (truthy attrs) eqn:Ha; simpl.
  all: repeat (simpl; first
     [ done
     | rewrite fetch_run
     | match goal with
       | H : truthy ?a = true |- context [get_prop ?a ?k] =>
           rewrite (get_prop_truthy a k H); unfold js_ret
       | H : truthy ?a = _ |- context [truthy ?a] => rewrite H
       | |- context [strict_equals (field ?a ?k) ?v] =>
           destruct (strict_equals (field a k) v) eqn:?
       | |- context [match remote ?h' ?r with _ => _ end] =>
           destruct (remote h' r) as [[[] ?]|]
       end
     | rewrite app_nil_r
     | rewrite <- app_assoc ]).
Qed.

Lemma legacy_resume_cart_body_failed rec r e h b :
  truthy (field rec "code") = true ->
  (body r = BodyNotJson /\ e = SyntaxError) \/
  ((body r = BodyJson JNull \/ body r = BodyJson JUndefined) /\ e = TypeError) ->
  Legacy.syncReferralToCart_resume (CartBody rec r) h b
  = (Return None,
     mkBrowser (localStorage b) (console b ++ [ErrUpdateCart e]) (network b)).
Proof.
  intros Hc Hfail.
  assert (truthy rec = true) as Hv by (apply truthy_field_obj in Hc as [? ->]; done).
  unfold Legacy.syncReferralToCart_resume, response_json.
  rewrite !(get_prop_truthy _ _ Hv).
  unfold and_then, js_bind, try_catch, js_ret; simpl.
  by destruct Hfail as [[-> ->] | [[-> | ->] ->]].
Qed.

Lemma legacy_resume_cart_body_cart rec r cart h b :
  truthy (field rec "code") = true ->
  body r = BodyJson cart -> cart <> JNull -> cart <> JUndefined ->
  Legacy.syncReferralToCart_resume (CartBody rec r) h b
  = if truthy (field cart "attributes")
       && strict_equals (field (field cart "attributes") Legacy.CART_ATTRIBUTE_KEY)
            (field rec "code")
    then (Return None, b)
    else (Return (Some (UpdateResponse rec (legacy_update_for rec))),
          mkBrowser (localStorage b) (console b) (network b ++ [legacy_update_for rec])).
Proof.
  intros Hc Hcart Hnn Hnu.
  assert (truthy rec = true) as Hv by (apply truthy_field_obj in Hc as [? ->]; done).
  assert (forall k, get_prop cart k = js_ret (field cart k)) as Hget.
  { intros k. by destruct cart. }
  unfold Legacy.syncReferralToCart_resume, response_json. rewrite Hcart.
  rewrite !(get_prop_truthy _ _ Hv).
  unfold legacy_update_for.
  set (c := field rec "code") in *. set (attrs := field cart "attributes").
  unfold and_then, js_bind, try_catch, js_ret, fetch_request; simpl.
  rewrite ?Hget; unfold js_ret; simpl; fold attrs.
  destruct (truthy attrs) eqn:Ha; simpl; [|by rewrite Ha].
  rewrite (get_prop_truthy attrs _ Ha); unfold js_ret; simpl.
  destruct (strict_equals (field attrs Legacy.CART_ATTRIBUTE_KEY) c) eqn:Hs; simpl;
    by rewrite ?Hs.
Qed.

Lemma legacy_resume_update_response rec h b :
  truthy rec = true ->
  Legacy.syncReferralToCart_resume (UpdateResponse rec (legacy_update_for rec)) h b
  = (Return None,
     mkBrowser (localStorage b) (console b ++ legacy_update_log h rec) (network b)).
Proof.
  intros Hv. unfold Legacy.syncReferralToCart_resume, legacy_update_log.
  unfold js_bind at 1 2. unfold try_catch, fetch_settled.
  destruct (remote h (legacy_update_for rec)) as [[[] bd]|]; simpl; [| |done].
  - rewrite !(get_prop_truthy _ _ Hv). by unfold js_bind, js_ret, console_log.
  - unfold js_bind, js_ret. destruct b; simpl. by rewrite app_nil_r.
Qed.

(** X28. The same for the earlier version: started and resumed in one host
    with nothing in between, a call has ended after three settlings and
    leaves what the earlier [syncReferralToCart] followed to its end leaves;
    its promise is never rejected. *)
Theorem legacy_syncReferralToCart_await_by_await (h : host) (b : browser) :
  (w <- Legacy.syncReferralToCart_start ;; settle Legacy.syncReferralToCart_resume 3 w) h b
  = (Return None, (Legacy.syncReferralToCart h b).2) /\
  (Legacy.syncReferralToCart h b).1 = Return tt.
Proof.
  split.
  2:{ destruct (returns_legacy_syncReferralToCart h b) as [[] ?]. done. }
  set (rec := stored_value b).
  destruct (truthy (field rec "code")) eqn:Hc.
  2:{ unfold js_bind at 1. by rewrite legacy_start_idle, legacy_sync_idle. }
  assert (Hrec : persisted b = Some (Json rec)) by by apply stored_value_set in Hc.
  assert (truthy rec = true) as Hv by (apply truthy_field_obj in Hc as [? ->]; done).
  unfold js_bind at 1. rewrite (legacy_start_set h b rec Hrec Hc).
  cbn [settle]. unfold js_bind at 1. rewrite legacy_resume_cart_response.
  destruct (remote h (GET "/cart.js")) as [r|] eqn:Hr.
  2:{ rewrite (legacy_sync_run_failed h b rec NetworkError Hrec Hc); [done|].
      left. unfold fetched_cart. by rewrite Hr. }
  cbn [settle]. unfold js_bind at 1.
  destruct (body r) as [cart|] eqn:Hb.
  2:{ rewrite (legacy_resume_cart_body_failed rec r SyntaxError) by auto.
      rewrite (legacy_sync_run_failed h b rec SyntaxError Hrec Hc); [done|].
      left. unfold fetched_cart. by rewrite Hr, Hb. }
  assert (Hcart : fetched_cart h = Return cart).
  { unfold fetched_cart. by rewrite Hr, Hb. }
  assert (cart = JNull \/ cart = JUndefined \/ (cart <> JNull /\ cart <> JUndefined))
    as [-> | [-> | [Hnn Hnu]]].
  { destruct cart; auto; right; right; done. }
  - rewrite (legacy_resume_cart_body_failed rec r TypeError) by auto.
    rewrite (legacy_sync_run_failed h b rec TypeError Hrec Hc); [done|]. right. auto.
  - rewrite (legacy_resume_cart_body_failed rec r TypeError) by auto.
    rewrite (legacy_sync_run_failed h b rec TypeError Hrec Hc); [done|]. right. auto.
  - rewrite (legacy_resume_cart_body_cart rec r cart _ _ Hc Hb Hnn Hnu).
    rewrite (legacy_sync_run_cart h b rec cart Hrec Hc Hcart Hnn Hnu).
    destruct (truthy (field cart "attributes")
              && strict_equals (field (field cart "attributes") Legacy.CART_ATTRIBUTE_KEY)
                   (field rec "code")).
    + done.
    + cbn [settle]. unfold js_bind at 1.
      rewrite (legacy_resume_update_response rec _ _ Hv). simpl.
      by rewrite <- app_assoc.
Qed.

(** *** Loading the page *)

(** What a call does before its first [await], in full. *)
Lemma start_run h b :
  let rec := stored_value b in
  let has := truthy (field rec "code") || truthy (field rec "orderId") in
  exists log,
    syncReferralToCart_start h b
    = (Return (if has then Some (CartResponse rec) else None),
       mkBrowser (localStorage b) (console b ++ log)
         (network b ++ if has then [GET "/cart.js"] else [])) /\
    (log = [] \/ exists e, log = [ErrRetrieve e]).
Proof.
  intros rec has. destruct has eqn:Hhas; subst has.
  - exists []. split; [|by left]. rewrite app_nil_r.
    apply start_set; [|done].
    apply orb_true_iff in Hhas as [H|H]; by apply stored_value_set in H.
  - destruct (getStoredReferral_trace h b) as (log & Hrun & Hlog).
    exists log. split; [|done].
    rewrite (start_idle h b Hhas), Hrun. simpl. by rewrite app_nil_r.
Qed.

Lemma legacy_start_run h b :
  let rec := stored_value b in
  let has := truthy (field rec "code") in
  exists log,
    Legacy.syncReferralToCart_start h b
    = (Return (if has then Some (CartResponse rec) else None),
       mkBrowser (localStorage b) (console b ++ log)
         (network b ++ if has then [GET "/cart.js"] else [])) /\
    (log = [] \/ exists e, log = [ErrRetrieve e]).
Proof.
  intros rec has. destruct has eqn:Hhas; subst has.
  - exists []. split; [|by left]. rewrite app_nil_r.
    apply legacy_start_set; [|done]. by apply stored_value_set in Hhas.
  - destruct (getStoredReferral_trace h b) as (log & Hrun & Hlog).
    exists log. split; [|done].
    rewrite (legacy_start_idle h b Hhas), Hrun. simpl. by rewrite app_nil_r.
Qed.

(** A call that is not awaited, seen from the document. *)
Lemma spawn_run v start h p (w : option awaiting) log l :
  start h (window_of p)
  = (Return w, mkBrowser (doc_storage p) log (doc_network p ++ l)) ->
  spawn v start h p
  = (Return tt,
     mkDocument (doc_storage p) (doc_console p ++ (Tracker <$> log))
       (doc_network p ++ l) (listeners p)
       (pending p ++ match w with Some a => [(v, a)] | None => [] end)).
Proof.
  unfold spawn, call, window_of. intros ->. simpl.
  destruct w; simpl; [done|]. by rewrite app_nil_r.
Qed.

Lemma spawn_sync h p :
  let rec := stored_value (window_of p) in
  let has := truthy (field rec "code") || truthy (field rec "orderId") in
  exists log,
    spawn Current syncReferralToCart_start h p
    = (Return tt,
       mkDocument (doc_storage p) (doc_console p ++ (Tracker <$> log))
         (doc_network p ++ if has then [GET "/cart.js"] else []) (listeners p)
         (pending p ++ if has then [(Current, CartResponse rec)] else [])) /\
    (log = [] \/ exists e, log = [ErrRetrieve e]).
Proof.
  intros rec has.
  destruct (start_run h (window_of p)) as (log & Hrun & Hlog).
  exists log. split; [|done].
  rewrite (spawn_run Current _ h p _ log _ Hrun).
  fold rec. fold has. by destruct has.
Qed.

Lemma spawn_legacy_sync h p :
  let rec := stored_value (window_of p) in
  let has := truthy (field rec "code") in
  exists log,
    spawn Earlier Legacy.syncReferralToCart_start h p
    = (Return tt,
       mkDocument (doc_storage p) (doc_console p ++ (Tracker <$> log))
         (doc_network p ++ if has then [GET "/cart.js"] else []) (listeners p)
         (pending p ++ if has then [(Earlier, CartResponse rec)] else [])) /\
    (log = [] \/ exists e, log = [ErrRetrieve e]).
Proof.
  intros rec has.
  destruct (legacy_start_run h (window_of p)) as (log & Hrun & Hlog).
  exists log. split; [|done].
  rewrite (spawn_run Earlier _ h p _ log _ Hrun).
  fold rec. fold has. by destruct has.
Qed.

(** [init] up to the call of [syncReferralToCart]. *)
Lemma init_run h p :
  let b := (captureReferralFromURL h (window_of p)).2 in
  init h p
  = spawn Current syncReferralToCart_start h
      (mkDocument (localStorage b)
         (doc_console p ++ LogInitializing :: (Tracker <$> console b))
         (doc_network p)
         (listeners p ++ [("cart:update", SyncOnCartUpdate)]) (pending p)).
Proof.
  intros b. subst b.
  unfold init, doc_bind, doc_log, setupCartListener, document_addEventListener,
    call, window_of. cbn [fst snd doc_storage doc_console doc_network listeners pending].
  destruct (returns_captureReferralFromURL h
              (mkBrowser (doc_storage p) [] (doc_network p))) as [[] Hret].
  rewrite Hret. cbn [fst snd doc_storage doc_console doc_network listeners pending].
  pose proof (capture_network h (mkBrowser (doc_storage p) [] (doc_network p))) as Hnet.
  simpl in Hnet. rewrite Hnet. by rewrite <- app_assoc.
Qed.

Lemma init_listeners h p :
  listeners (init h p).2 = listeners p ++ [("cart:update", SyncOnCartUpdate)].
Proof.
  rewrite init_run. set (p1 := mkDocument _ _ _ _ _).
  by destruct (spawn_sync h p1) as (log & -> & _).
Qed.

(** X23. What [init] leaves when it returns.  [init] never raises.  Storage
    is as the capture left it, and one [cart:update] listener is added after
    those already there.  The call of [syncReferralToCart] has gone as far as
    its first [await]: if the record now stored has its code or its order id
    set, the fetch of the cart is on the network, nothing else, and the call
    is pending, waiting for the response; otherwise no request was made and
    no call is pending.  The console has the initialising line, then the
    lines of the capture, then at most the line of a failed read. *)
Theorem init_returns_at_first_await (h : host) (p : document) :
  let b := (captureReferralFromURL h (window_of p)).2 in
  let rec := stored_value b in
  let has := truthy (field rec "code") || truthy (field rec "orderId") in
  (init h p).1 = Return tt /\
  doc_storage (init h p).2 = localStorage b /\
  listeners (init h p).2 = listeners p ++ [("cart:update", SyncOnCartUpdate)] /\
  doc_network (init h p).2 = doc_network p ++ (if has then [GET "/cart.js"] else []) /\
  pending (init h p).2 = pending p ++ (if has then [(Current, CartResponse rec)] else []) /\
  exists log,
    doc_console (init h p).2
    = doc_console p ++ LogInitializing :: (Tracker <$> console b ++ log) /\
    (log = [] \/ exists e, log = [ErrRetrieve e]).
Proof.
  intros b rec has. rewrite init_run. fold b.
  set (p1 := mkDocument _ _ _ _ _).
  destruct (spawn_sync h p1) as (log & -> & Hlog).
  assert (stored_value (window_of p1) = rec) as ->.
  { apply stored_value_storage. done. }
  fold has. cbn [fst snd doc_storage doc_console doc_network listeners pending p1].
  do 5 (split; [done|]). exists log. split; [|done].
  by rewrite fmap_app, <- app_assoc.
Qed.

(** *** Promises settling *)

(** The last pending call goes on. *)
Lemma settle_last h s con net lis l c :
  let p := mkDocument s con net lis (l ++ [c]) in
  settle_pending (length l) h (mkDocument s con net lis (l ++ [c]))
  = mkDocument (localStorage (resume_call c h (window_of p)).2)
      (con ++ (Tracker <$> console (resume_call c h (window_of p)).2))
      (network (resume_call c h (window_of p)).2) lis
      (l ++ match (resume_call c h (window_of p)).1 with
            | Return (Some w) => [(c.1, w)]
            | _ => []
            end).
Proof.
  intros p. unfold settle_pending. cbn [pending].
  rewrite (list_lookup_middle l [] c (length l) eq_refl).
  unfold call. fold p.
  cbn [fst snd doc_storage doc_console doc_network listeners pending p].
  f_equal.
  destruct (resume_call c h _).1 as [[w|]|e].
  - replace (length l) with (length l + 0) at 1 by lia.
    by rewrite insert_app_r.
  - by rewrite (delete_middle l [] c).
  - by rewrite (delete_middle l [] c).
Qed.

(** With no call left at its place, nothing happens. *)
Lemma settle_ended h s con net lis l :
  settle_pending (length l) h (mkDocument s con net lis l) = mkDocument s con net lis l.
Proof.
  unfold settle_pending. cbn [pending].
  rewrite (lookup_ge_None_2 l (length l)); [done | lia].
Qed.

(** X24. A landing with [?ref=C], [C] not empty, where storage accepts the
    write.  When [init] returns only the fetch of the cart has been sent.
    Let then the promises its call awaits settle one after the other, with
    nothing else in between: the response arrives, an object whose referral
    attribute is not [C]; its body is read; the update is answered.  The
    response alone sends nothing; after the body is read one update has been
    sent, whose attributes carry [C] under the referral key, the path of the
    landing page and the time of the load; the answer to the update sends
    nothing more and the call is no longer pending. *)
Theorem init_sends_landing_referral
    (h h1 h2 h3 : host) (p : document) (items : gmap string text) (C : string)
    (r : response) (cart_props : list (string * jsval)) :
  doc_storage p = Store items -> quota_exceeded h = false ->
  URLSearchParams_get (location_search h) REFERRAL_PARAM = Some C -> C <> "" ->
  remote h1 (GET "/cart.js") = Some r -> body r = BodyJson (JObj cart_props) ->
  strict_equals (field (field (JObj cart_props) "attributes") CART_ATTRIBUTE_KEY)
    (JStr C) = false ->
  let i := length (pending p) in
  let p0 := (init h p).2 in
  let p1 := settle_pending i h1 p0 in
  let p2 := settle_pending i h2 p1 in
  let p3 := settle_pending i h3 p2 in
  exists body m,
    doc_network p0 = doc_network p ++ [GET "/cart.js"] /\
    doc_network p1 = doc_network p0 /\
    doc_network p2
    = doc_network p ++ [GET "/cart.js"; POST "/cart/update.js" json_headers body] /\
    doc_network p3 = doc_network p2 /\
    pending p3 = pending p /\
    sent_attributes body = Some m /\
    m !! CART_ATTRIBUTE_KEY = Some (JStr C) /\
    m !! LANDING_PAGE_ATTRIBUTE_KEY = Some (JStr (location_pathname h)) /\
    m !! CAPTURED_AT_ATTRIBUTE_KEY = Some (JStr (date_now h)).
Proof.
  intros Hls Hq Href HC Hr Hbody Hdiff i p0 p1 p2 p3.
  assert (referral_param h = JStr C) as Hparam by (unfold referral_param; by rewrite Href).
  assert (truthy (referral_param h) || truthy (order_id_param h) = true) as Hany.
  { by rewrite Hparam, (truthy_JStr C HC). }
  pose proof (capture_persisted_record h (window_of p) items Hls Hq Hany) as Hrec.
  cbn zeta in Hrec. rewrite Hparam in Hrec.
  rewrite (js_or_truthy (JStr C)) in Hrec by by apply truthy_JStr.
  rewrite (js_or_truthy (JStr C)) in Hrec by by apply truthy_JStr.
  cbn [to_json] in Hrec.
  set (rec := record _ _ _ _) in Hrec.
  assert (Hcode : field rec "code" = JStr C) by done.
  assert (Hset : truthy (field rec "code") || truthy (field rec "orderId") = true).
  { by rewrite Hcode, (truthy_JStr C HC). }
  assert (Hv : truthy rec = true) by done.
  (* what [init] leaves *)
  assert (exists con,
    p0 = mkDocument (localStorage (captureReferralFromURL h (window_of p)).2) con
           (doc_network p ++ [GET "/cart.js"])
           (listeners p ++ [("cart:update", SyncOnCartUpdate)])
           (pending p ++ [(Current, CartResponse rec)])) as [con0 Hp0].
  { subst p0. rewrite init_run.
    set (b := (captureReferralFromURL h (window_of p)).2) in *.
    rewrite (spawn_run Current _ h _ (Some (CartResponse rec)) [] [GET "/cart.js"]).
    - cbn [snd doc_storage doc_console doc_network listeners pending]. by eexists.
    - apply (start_set h (mkBrowser (localStorage b) [] (doc_network p)) rec Hrec Hset). }
  (* the response to the fetch arrives *)
  assert (exists con,
    p1 = mkDocument (doc_storage p0) con (doc_network p0) (listeners p0)
           (pending p ++ [(Current, CartBody rec r)])) as [con1 Hp1].
  { subst p1 i. rewrite Hp0, settle_last.
    unfold resume_call. cbn [fst snd]. rewrite resume_cart_response, Hr.
    by eexists. }
  (* its body is read *)
  assert (exists con,
    p2 = mkDocument (doc_storage p0) con (doc_network p0 ++ [update_for rec])
           (listeners p0) (pending p ++ [(Current, UpdateResponse rec (update_for rec))]))
    as [con2 Hp2].
  { subst p2 i. rewrite Hp1, settle_last.
    unfold resume_call. cbn [fst snd].
    rewrite (resume_cart_body_cart rec r (JObj cart_props) _ _ Hset Hbody) by done.
    assert (field_matches (JObj cart_props) (field rec "code") CART_ATTRIBUTE_KEY = false)
      as ->.
    { unfold field_matches. by rewrite Hcode, (truthy_JStr C HC), Hdiff, andb_false_r. }
    cbn [andb fst snd localStorage console network]. rewrite Hp0.
    by eexists. }
  (* the response to the update arrives *)
  assert (doc_network p3 = doc_network p2 /\ pending p3 = pending p) as [Hn3 Hp3].
  { subst p3 i. rewrite Hp2, settle_last.
    unfold resume_call. cbn [fst snd].
    rewrite (resume_update_response rec _ _ Hv).
    cbn [fst snd localStorage console network doc_network pending].
    by rewrite app_nil_r. }
  destruct (update_for_attributes rec) as (body & m & Hreq & Hm & Hlp & Hca & Hc & _).
  exists body, m.
  rewrite Hn3, Hp3, Hp2, Hp1, Hp0. cbn [doc_network]. rewrite Hreq, <- app_assoc.
  repeat split; try done.
  by rewrite Hc, Hcode, (truthy_JStr C HC).
Qed.

Lemma init_sends_landing_referral_witness :
  let h := page [("ref", "store1")] in
  let h1 := storefront (JObj [("attributes", JObj [])]) in
  let p := mkDocument (Store ∅) [] [] [] [] in
  let p0 := (init h p).2 in
  let p1 := settle_pending 0 h1 p0 in
  let p2 := settle_pending 0 h1 p1 in
  let p3 := settle_pending 0 h1 p2 in
  exists body m,
    doc_network p0 = doc_network p ++ [GET "/cart.js"] /\
    doc_network p1 = doc_network p0 /\
    doc_network p2
    = doc_network p ++ [GET "/cart.js"; POST "/cart/update.js" json_headers body] /\
    doc_network p3 = doc_network p2 /\
    pending p3 = pending p /\
    sent_attributes body = Some m /\
    m !! CART_ATTRIBUTE_KEY = Some (JStr "store1") /\
    m !! LANDING_PAGE_ATTRIBUTE_KEY = Some (JStr "/collections/all") /\
    m !! CAPTURED_AT_ATTRIBUTE_KEY = Some (JStr "2024-05-01T10:00:00.000Z").
Proof.
  intros h h1 p.
  apply (init_sends_landing_referral h h1 h1 h1 p ∅ "store1"
           (mkResponse true (BodyJson (JObj [("attributes", JObj [])])))
           [("attributes", JObj [])]).
  - reflexivity.
  - reflexivity.
  - reflexivity.
  - discriminate.
  - reflexivity.
  - reflexivity.
  - reflexivity.
Defined.

(** *** The cart listener *)

Lemma string_eqb_neq (s t : string) : s <> t -> String.eqb s t = false.
Proof. intros. by apply String.eqb_neq. Qed.

(** X25. The listener [init] registers.  On a document with no listener
    before [init], dispatching an event of any type but [cart:update] changes
    nothing.  Dispatching [cart:update] logs the cart-updated line and starts
    a call of [syncReferralToCart], which goes as far as its first [await]
    before the dispatch returns: storage and the listeners are unchanged; if
    the stored record has a field set, one more fetch of the cart is on the
    network and one more call is pending, after the ones already pending;
    otherwise nothing is sent. *)
Theorem cart_update_starts_sync (h h' : host) (p : document) (type : string) :
  listeners p = [] ->
  let p' := (init h p).2 in
  let q := document_dispatchEvent type h' p' in
  let rec := stored_value (window_of p') in
  let has := truthy (field rec "code") || truthy (field rec "orderId") in
  (type <> "cart:update" -> q = p') /\
  (type = "cart:update" ->
   doc_storage q = doc_storage p' /\
   listeners q = listeners p' /\
   doc_network q = doc_network p' ++ (if has then [GET "/cart.js"] else []) /\
   pending q = pending p' ++ (if has then [(Current, CartResponse rec)] else []) /\
   exists log,
     doc_console q = doc_console p' ++ LogCartUpdated :: (Tracker <$> log) /\
     (log = [] \/ exists e, log = [ErrRetrieve e])).
Proof.
  intros Hl p' q rec has. subst q. unfold document_dispatchEvent.
  assert (listeners p' = [("cart:update", SyncOnCartUpdate)]) as Hp'.
  { subst p'. by rewrite init_listeners, Hl. }
  rewrite Hp'. cbn [run_listeners]. split.
  - intros Hne. rewrite string_eqb_neq; [done|congruence].
  - intros ->. rewrite String.eqb_refl.
    unfold listener_body, doc_bind, doc_log.
    set (p1 := mkDocument _ _ _ _ _).
    destruct (spawn_sync h' p1) as (log & -> & Hlog).
    assert (stored_value (window_of p1) = rec) as -> by done.
    fold has. cbn [fst snd doc_storage doc_console doc_network listeners pending p1].
    do 4 (split; [done|]). exists log. split; [|done]. by rewrite <- app_assoc.
Qed.

Lemma cart_update_starts_sync_witness :
  let h := page [("ref", "store1")] in
  let h' := storefront (JObj [("attributes", JObj [])]) in
  let p' := (init h (mkDocument (Store ∅) [] [] [] [])).2 in
  let rec := stored_value (window_of p') in
  let has := truthy (field rec "code") || truthy (field rec "orderId") in
  document_dispatchEvent "cart:add" h' p' = p' /\
  let q := document_dispatchEvent "cart:update" h' p' in
  doc_storage q = doc_storage p' /\
  listeners q = listeners p' /\
  doc_network q = doc_network p' ++ (if has then [GET "/cart.js"] else []) /\
  pending q = pending p' ++ (if has then [(Current, CartResponse rec)] else []) /\
  exists log,
    doc_console q = doc_console p' ++ LogCartUpdated :: (Tracker <$> log) /\
    (log = [] \/ exists e, log = [ErrRetrieve e]).
Proof.
  intros h h' p' rec has. split.
  - apply (proj1 (cart_update_starts_sync h h' (mkDocument (Store ∅) [] [] [] [])
                    "cart:add" eq_refl)).
    discriminate.
  - apply (proj2 (cart_update_starts_sync h h' (mkDocument (Store ∅) [] [] [] [])
                    "cart:update" eq_refl)).
    reflexivity.
Defined.

(** X29. Two calls in a row both fetch before either updates.  After a
    landing with a non-empty [?ref=C] that storage accepts, a [cart:update]
    dispatched before the call made by [init] has gone on finds that call
    still waiting: the network holds the two fetches of the cart and no
    update, and two calls are pending, each holding the record with code
    [C]. *)
Theorem two_calls_fetch_before_either_updates
    (h h' : host) (p : document) (items : gmap string text) (C : string) :
  doc_storage p = Store items -> quota_exceeded h = false ->
  URLSearchParams_get (location_search h) REFERRAL_PARAM = Some C -> C <> "" ->
  listeners p = [] ->
  let q := document_dispatchEvent "cart:update" h' (init h p).2 in
  exists rec,
    field rec "code" = JStr C /\
    doc_network q = doc_network p ++ [GET "/cart.js"; GET "/cart.js"] /\
    pending q = pending p ++ [(Current, CartResponse rec); (Current, CartResponse rec)].
Proof.
  intros Hls Hq Href HC Hl q.
  assert (referral_param h = JStr C) as Hparam by (unfold referral_param; by rewrite Href).
  assert (truthy (referral_param h) || truthy (order_id_param h) = true) as Hany.
  { by rewrite Hparam, (truthy_JStr C HC). }
  pose proof (capture_persisted_record h (window_of p) items Hls Hq Hany) as Hrec.
  cbn zeta in Hrec. rewrite Hparam in Hrec.
  rewrite (js_or_truthy (JStr C)) in Hrec by by apply truthy_JStr.
  rewrite (js_or_truthy (JStr C)) in Hrec by by apply truthy_JStr.
  cbn [to_json] in Hrec.
  set (rec := record _ _ _ _) in Hrec.
  assert (Hcode : field rec "code" = JStr C) by done.
  assert (Hset : truthy (field rec "code") || truthy (field rec "orderId") = true).
  { by rewrite Hcode, (truthy_JStr C HC). }
  exists rec. split; [done|].
  subst q. unfold document_dispatchEvent. rewrite init_listeners, Hl.
  cbn [app run_listeners]. rewrite String.eqb_refl.
  unfold listener_body, doc_bind, doc_log.
  rewrite init_run.
  set (b := (captureReferralFromURL h (window_of p)).2) in *.
  rewrite (spawn_run Current _ h _ (Some (CartResponse rec)) [] [GET "/cart.js"]).
  2:{ apply (start_set h (mkBrowser (localStorage b) [] (doc_network p)) rec Hrec Hset). }
  cbn [fst snd doc_storage doc_console doc_network listeners pending].
  rewrite (spawn_run Current _ h' _ (Some (CartResponse rec)) [] [GET "/cart.js"]).
  2:{ apply (start_set h' (mkBrowser (localStorage b) [] (doc_network p ++ [GET "/cart.js"]))
               rec Hrec Hset). }
  cbn [fst snd doc_storage doc_console doc_network listeners pending].
  by rewrite <- !app_assoc.
Qed.

Lemma two_calls_fetch_before_either_updates_witness :
  let h := page [("ref", "store1")] in
  let h' := storefront (JObj [("attributes", JObj [])]) in
  let p := mkDocument (Store ∅) [] [] [] [] in
  let q := document_dispatchEvent "cart:update" h' (init h p).2 in
  exists rec,
    field rec "code" = JStr "store1" /\
    doc_network q = doc_network p ++ [GET "/cart.js"; GET "/cart.js"] /\
    pending q = pending p ++ [(Current, CartResponse rec); (Current, CartResponse rec)].
Proof.
  intros h h' p.
  apply (two_calls_fetch_before_either_updates h h' p ∅ "store1").
  - reflexivity.
  - reflexivity.
  - reflexivity.
  - discriminate.
  - reflexivity.
Defined.

(** *** The earlier [init] *)

Lemma legacy_capture_returns h b :
  (Legacy.captureReferralFromURL h b).1 = Return tt /\
  network (Legacy.captureReferralFromURL h b).2 = network b.
Proof.
  rewrite legacy_capture_run.
  destruct (truthy (referral_param h)); [|done].
  rewrite legacy_storeReferral_run. simpl. split; [done|].
  destruct (localStorage b); [done|]. by destruct (quota_exceeded h).
Qed.

(** X26. The earlier [init] when it returns: it never raises, storage is as
    the earlier capture left it, one [cart:update] listener (the earlier one)
    is added, and its call of the earlier [syncReferralToCart] has gone as
    far as the first [await]: with a code stored, the fetch of the cart is
    sent and the call is pending; without, nothing is sent.  It logs no line
    of its own. *)
Theorem legacy_init_returns_at_first_await (h : host) (p : document) :
  let b := (Legacy.captureReferralFromURL h (window_of p)).2 in
  let rec := stored_value b in
  let has := truthy (field rec "code") in
  (Legacy.init h p).1 = Return tt /\
  doc_storage (Legacy.init h p).2 = localStorage b /\
  listeners (Legacy.init h p).2 = listeners p ++ [("cart:update", LegacySyncOnCartUpdate)] /\
  doc_network (Legacy.init h p).2 = doc_network p ++ (if has then [GET "/cart.js"] else []) /\
  pending (Legacy.init h p).2
  = pending p ++ (if has then [(Earlier, CartResponse rec)] else []) /\
  exists log,
    doc_console (Legacy.init h p).2 = doc_console p ++ (Tracker <$> console b ++ log) /\
    (log = [] \/ exists e, log = [ErrRetrieve e]).
Proof.
  intros b rec has.
  unfold Legacy.init, doc_bind, Legacy.setupCartListener, document_addEventListener, call.
  fold (window_of p).
  destruct (legacy_capture_returns h (window_of p)) as [Hret Hnet].
  rewrite Hret. fold b. fold b in Hnet.
  cbn [fst snd doc_storage doc_console doc_network listeners pending].
  set (p1 := mkDocument _ _ _ _ _).
  destruct (spawn_legacy_sync h p1) as (log & -> & Hlog).
  assert (stored_value (window_of p1) = rec) as ->.
  { apply stored_value_storage. done. }
  fold has. cbn [fst snd doc_storage doc_console doc_network listeners pending p1].
  rewrite Hnet. cbn [window_of network].
  do 5 (split; [done|]). exists log. split; [|done].
  by rewrite fmap_app, <- app_assoc.
Qed.

(** *** [init] once its call has ended *)

Lemma blind_from {A} (m : js A) (b : browser) h :
  console_blind m ->
  m h b = ((m h (mkBrowser (localStorage b) [] (network b))).1,
           mkBrowser (localStorage (m h (mkBrowser (localStorage b) [] (network b))).2)
             (console b ++ console (m h (mkBrowser (localStorage b) [] (network b))).2)
             (network (m h (mkBrowser (localStorage b) [] (network b))).2)).
Proof. intros Hm. destruct b as [s c n]. apply Hm. Qed.

(** X30. [init] once its call has ended.  If the promises awaited by the
    call that [init] made settle in the host of the load, one after the
    other with nothing else in between, three settlings are enough, and
    then the document holds what a capture followed by a whole
    [syncReferralToCart] leave: the same storage, the same requests in the
    same order, the initialising line followed by the same console lines;
    the listener is registered and no call of [init] is pending. *)
Theorem init_settled_is_capture_then_sync (h : host) (p : document) :
  let i := length (pending p) in
  let q := settle_pending i h (settle_pending i h (settle_pending i h (init h p).2)) in
  let b := run [(Capture, h); (Reconcile, h)] (window_of p) in
  q = mkDocument (localStorage b)
        (doc_console p ++ LogInitializing :: (Tracker <$> console b))
        (network b)
        (listeners p ++ [("cart:update", SyncOnCartUpdate)])
        (pending p).
Proof.
  intros i q b. subst q b i. cbn [run perform].
  set (b1 := (captureReferralFromURL h (window_of p)).2).
  assert (Hnet1 : network b1 = doc_network p) by apply capture_network.
  set (w1 := mkBrowser (localStorage b1) [] (doc_network p)).
  assert (Hw1 : stored_value w1 = stored_value b1) by by apply stored_value_storage.
  set (rec := stored_value b1) in *.
  rewrite init_run. fold b1.
  destruct (truthy (field rec "code") || truthy (field rec "orderId")) eqn:Hset.
  - (* a field is set: the call waits for the cart *)
    assert (Hrec : persisted b1 = Some (Json rec)).
    { apply orb_true_iff in Hset as [H|H]; by apply stored_value_set in H. }
    assert (Hv : truthy rec = true).
    { apply orb_true_iff in Hset as [H|H]; apply truthy_field_obj in H as [? ->]; done. }
    rewrite (spawn_run Current _ h _ (Some (CartResponse rec)) [] [GET "/cart.js"]).
    2:{ apply (start_set h w1 rec Hrec Hset). }
    cbn [fst snd doc_storage doc_console doc_network listeners pending fmap list_fmap].
    rewrite app_nil_r.
    set (con := doc_console p ++ LogInitializing :: (Tracker <$> console b1)).
    set (lis := listeners p ++ [("cart:update", SyncOnCartUpdate)]).
    rewrite settle_last.
    unfold resume_call, window_of.
    cbn [fst snd doc_storage doc_console doc_network listeners pending].
    rewrite resume_cart_response.
    destruct (remote h (GET "/cart.js")) as [r|] eqn:Hr.
    2:{ cbn [fst snd localStorage console network app].
        rewrite app_nil_r, !settle_ended.
        rewrite (sync_run_failed h b1 rec NetworkError Hrec Hset).
        2:{ left. unfold fetched_cart. by rewrite Hr. }
        cbn [snd localStorage console network]. subst con.
        by rewrite Hnet1, fmap_app, <- app_assoc. }
    cbn [fst snd localStorage console network fmap list_fmap].
    rewrite app_nil_r, settle_last.
    unfold resume_call, window_of.
    cbn [fst snd doc_storage doc_console doc_network listeners pending].
    set (w2 := mkBrowser (localStorage b1) [] (doc_network p ++ [GET "/cart.js"])).
    assert (Hfailed : forall e,
      (body r = BodyNotJson /\ e = SyntaxError) \/
      ((body r = BodyJson JNull \/ body r = BodyJson JUndefined) /\ e = TypeError) ->
      fetched_cart h = Throw e \/
      ((fetched_cart h = Return JNull \/ fetched_cart h = Return JUndefined) /\
       e = TypeError)).
    { unfold fetched_cart. rewrite Hr.
      intros e [[-> ->] | [[-> | ->] ->]]; auto. }
    destruct (body r) as [cart|] eqn:Hb.
    2:{ rewrite (resume_cart_body_failed rec r SyntaxError _ _ Hset) by auto.
        cbn [fst snd localStorage console network app w2].
        rewrite app_nil_r, settle_ended.
        rewrite (sync_run_failed h b1 rec SyntaxError Hrec Hset) by auto.
        cbn [snd localStorage console network]. subst con.
        by rewrite Hnet1, fmap_app, <- app_assoc. }
    assert (cart = JNull \/ cart = JUndefined \/ (cart <> JNull /\ cart <> JUndefined))
      as [-> | [-> | [Hnn Hnu]]].
    { destruct cart; auto; right; right; done. }
    { rewrite (resume_cart_body_failed rec r TypeError _ _ Hset) by auto.
      cbn [fst snd localStorage console network app w2].
      rewrite app_nil_r, settle_ended.
      rewrite (sync_run_failed h b1 rec TypeError Hrec Hset) by auto.
      cbn [snd localStorage console network]. subst con.
      by rewrite Hnet1, fmap_app, <- app_assoc. }
    { rewrite (resume_cart_body_failed rec r TypeError _ _ Hset) by auto.
      cbn [fst snd localStorage console network app w2].
      rewrite app_nil_r, settle_ended.
      rewrite (sync_run_failed h b1 rec TypeError Hrec Hset) by auto.
      cbn [snd localStorage console network]. subst con.
      by rewrite Hnet1, fmap_app, <- app_assoc. }
    assert (Hcart : fetched_cart h = Return cart).
    { unfold fetched_cart. by rewrite Hr, Hb. }
    rewrite (resume_cart_body_cart rec r cart _ _ Hset Hb Hnn Hnu).
    rewrite (sync_run_cart h b1 rec cart Hrec Hset Hcart Hnn Hnu).
    destruct (field_matches cart (field rec "code") CART_ATTRIBUTE_KEY
              && field_matches cart (field rec "orderId") ORDER_ID_ATTRIBUTE_KEY).
    + cbn [fst snd localStorage console network app fmap list_fmap w2].
      rewrite !app_nil_r, settle_ended. subst con. by rewrite Hnet1.
    + cbn [fst snd localStorage console network app fmap list_fmap w2].
      rewrite app_nil_r, settle_last.
      unfold resume_call, window_of.
      cbn [fst snd doc_storage doc_console doc_network listeners pending].
      rewrite (resume_update_response rec _ _ Hv).
      cbn [fst snd localStorage console network app].
      rewrite app_nil_r. subst con.
      by rewrite Hnet1, fmap_app, <- !app_assoc.
  - (* nothing to send: the call has ended when [init] returns *)
    assert (Hset' : truthy (field (stored_value w1) "code")
                    || truthy (field (stored_value w1) "orderId") = false)
      by by rewrite Hw1.
    pose proof (start_idle h w1 Hset') as Hstart.
    destruct (getStoredReferral_run h w1) as [log Hrun].
    rewrite Hrun in Hstart. cbn [snd localStorage console network w1 app] in Hstart.
    rewrite (spawn_run Current _ h _ None log []).
    2:{ unfold window_of. cbn [doc_storage doc_network]. fold w1.
        by rewrite Hstart, app_nil_r. }
    cbn [fst snd doc_storage doc_console doc_network listeners pending].
    rewrite !app_nil_r, !settle_ended.
    rewrite (sync_idle h b1 Hset).
    rewrite (blind_from getStoredReferral b1 h blind_getStoredReferral).
    rewrite Hnet1. fold w1. rewrite Hrun.
    cbn [fst snd localStorage console network app].
    by rewrite fmap_app, <- app_assoc.
Qed.
